(** * Fisher-Iris visualisation scripts: a shallow embedding

    The development follows [scripts/fisher_iris_visualization.py]:
    - [load_iris]: the manual fallback that builds the target vector [y]
      and the list [labels] from the fifth column of [iris.data];
    - [PCA]: the principal-component routine written over numpy;
    - [create_scatter]: the loop that fills one bmesh per label and then
      turns bmeshes into scene objects.

    Python exceptions are values of [exn]; a computation that may raise
    returns [result A = exn + A]. *)

From Stdlib Require Import ZArith QArith Ascii String.
From stdpp Require Import base list gmap strings sorting.

Local Open Scope Z_scope.

(** ** Python runtime: exceptions and sequence indexing *)

Inductive exn : Type :=
| IndexError      (* sequence index out of range *)
| NameError       (* a name that is not bound to an object *)
| ValueError      (* operands whose shapes do not fit *)
| LinAlgError     (* numpy.linalg.LinAlgError *)
| ReferenceError. (* a host object that has been freed *)

Definition result (A : Type) : Type := (exn + A)%type.

Definition raise {A : Type} (e : exn) : result A := inl e.
Definition ok {A : Type} (a : A) : result A := inr a.

Definition rbind {A B : Type} (m : result A) (f : A → result B) : result B :=
  match m with
  | inl e => inl e
  | inr a => f a
  end.

#[global] Instance result_ret : MRet result := λ A a, inr a.
#[global] Instance result_bind : MBind result := λ A B f m, rbind m f.

(** [seq[i]] for a Python list (or a one-dimensional array) of length [n]
    and an integer [i]: negative indices count from the end, anything
    outside [-n, n) raises [IndexError]. *)
Definition py_index (n : nat) (i : Z) : result nat :=
  if bool_decide (0 ≤ i < Z.of_nat n) then ok (Z.to_nat i)
  else if bool_decide (- Z.of_nat n ≤ i < 0) then ok (Z.to_nat (Z.of_nat n + i))
  else raise IndexError.

Definition py_getitem {A : Type} (l : list A) (i : Z) : result A :=
  j ← py_index (length l) i;
  match l !! j with
  | Some a => ok a
  | None => raise IndexError
  end.

(** [for x in xs: st = body(st, x)], stopping at the first exception. *)
Fixpoint for_each {S A : Type} (body : S → A → result S) (xs : list A) (st : S)
  : result S :=
  match xs with
  | [] => ok st
  | x :: xs' => st' ← body st x; for_each body xs' st'
  end.

(** ** [load_iris]: the manual fallback *)

(** [str.split(sep)] for a one-character separator: the field is cut at
    every occurrence of [sep]; the result has one more piece than there
    are separators. *)
Fixpoint split (sep : ascii) (s : string) : list string :=
  match s with
  | EmptyString => [EmptyString]
  | String c s' =>
      if bool_decide (c = sep) then EmptyString :: split sep s'
      else match split sep s' with
           | piece :: pieces => String c piece :: pieces
           | [] => [String c EmptyString]
           end
  end.

Definition hyphen : ascii := "-"%char.

(** [label.split('-')[1]] *)
Definition class_name (field : string) : result string :=
  py_getitem (split hyphen field) 1.

(** The loop state: [labels], [idx], and the part of [y] written so far
    ([y[i]] is written at iteration [i], in order). *)
Record targets : Type := Targets {
  labels : list string;
  idx : Z;
  y : list Z
}.

(** One iteration of
<<
    label = label.split('-')[1]
    if label not in labels:
        labels.append(label)
        idx += 1
    y[i] = idx - 1
>> *)
Definition load_iris_step (st : targets) (field : string) : result targets :=
  label ← class_name field;
  let st1 :=
    if bool_decide (label ∈ labels st)
    then st
    else Targets (labels st ++ [label]) (idx st + 1) (y st) in
  ok (Targets (labels st1) (idx st1) (y st1 ++ [idx st1 - 1])).

(** The target vector and label list computed from the label column
    [iris_data[:, 4]]. *)
Definition load_iris (column : list string) : result (list Z * list string) :=
  st ← for_each load_iris_step column (Targets [] 0 []);
  ok (y st, labels st).

(** *** What the interface description asks of the labels *)

(** The part of a field after its first hyphen, if it has one. *)
Fixpoint after_first_hyphen (s : string) : option string :=
  match s with
  | EmptyString => None
  | String c s' => if bool_decide (c = hyphen) then Some s' else after_first_hyphen s'
  end.

(** Distinct names in order of first appearance. *)
Definition see (seen : list string) (n : string) : list string :=
  if bool_decide (n ∈ seen) then seen else seen ++ [n].

Definition first_seen (names : list string) : list string := foldl see [] names.

(** The number of distinct names among rows [0 .. i], less one, counting
    from the names already in [seen]. *)
Definition rank_so_far (seen : list string) (names : list string) (i : nat) : Z :=
  Z.of_nat (length (foldl see seen (take (S i) names))) - 1.

(** Whether a string contains a hyphen. *)
Fixpoint has_hyphen (s : string) : bool :=
  match s with
  | EmptyString => false
  | String c s' => bool_decide (c = hyphen) || has_hyphen s'
  end.

(** Position of [n] in [names]. *)
Fixpoint index_of (n : string) (names : list string) : option nat :=
  match names with
  | [] => None
  | m :: names' => if bool_decide (m = n) then Some 0%nat else S <$> index_of n names'
  end.

(** ** numpy arrays *)

(** A two-dimensional array carries its shape; [rows] holds [shape0] rows
    of [shape1] entries each (see [wf]). *)
Record matrix (A : Type) : Type := Matrix {
  shape0 : nat;
  shape1 : nat;
  rows : list (list A)
}.
Arguments Matrix {A} _ _ _.
Arguments shape0 {A} _.
Arguments shape1 {A} _.
Arguments rows {A} _.

Definition wf {A : Type} (m : matrix A) : Prop :=
  length (rows m) = shape0 m ∧ Forall (λ r, length r = shape1 m) (rows m).

(** What [np.cov] hands back after [squeeze]: zero-, one- or
    two-dimensional. *)
Inductive ndarray (A : Type) : Type :=
| Arr0 (x : A)
| Arr1 (v : list A)
| Arr2 (m : matrix A).
Arguments Arr0 {A} _.
Arguments Arr1 {A} _.
Arguments Arr2 {A} _.

(** The numeric kernel the script relies on. [F] stands for float64; its
    arithmetic is left abstract (no algebraic law is assumed of it), and so
    are the two library routines whose algorithms live outside the script:
    [np.argsort] on a one-dimensional array and the LAPACK symmetric
    eigen-solver behind [np.linalg.eigh], which either converges to
    eigenvalues [w] and an eigenvector matrix [v] or does not.
    [cov_transposes_single_row] tells the release: [np.cov] with
    [rowvar=False] leaves a one-row array as it is before numpy 2.0
    ([false]) and transposes it like any other since ([true]). *)
Class Numpy : Type := {
  F : Type;
  cov_transposes_single_row : bool;
  f_of_nat : nat → F;
  fadd : F → F → F;
  fsub : F → F → F;
  fmul : F → F → F;
  fdiv : F → F → F;
  fle : F → F → bool;
  argsort : list F → list nat;
  eigh_solver : matrix F → option (list F * matrix F)
}.

Section numpy.
Context `{Numpy}.

Definition f0 : F := f_of_nat 0.
Definition f1 : F := f_of_nat 1.
Definition fneg (x : F) : F := fsub f0 x.

(** [np.add.reduce] over a list of entries. *)
Definition fsum (xs : list F) : F := foldl fadd f0 xs.

Definition item (m : matrix F) (i j : nat) : option F :=
  r ← rows m !! i; r !! j.

(** [m[:, j]] *)
Definition column (j : nat) (m : matrix F) : list F :=
  map (λ r, nth j r f0) (rows m).

(** [m.T] *)
Definition transpose (m : matrix F) : matrix F :=
  Matrix (shape1 m) (shape0 m) (map (λ j, column j m) (seq 0 (shape1 m))).

(** [m.mean(axis=0)]: one mean per column. *)
Definition mean_axis0 (m : matrix F) : list F :=
  map (λ j, fdiv (fsum (column j m)) (f_of_nat (shape0 m))) (seq 0 (shape1 m)).

(** [m.mean(axis=1)]: one mean per row. *)
Definition mean_axis1 (m : matrix F) : list F :=
  map (λ r, fdiv (fsum r) (f_of_nat (shape1 m))) (rows m).

(** [m - v] with [v] of length [shape1 m], broadcast over the rows. *)
Definition sub_row_vector (m : matrix F) (v : list F) : matrix F :=
  Matrix (shape0 m) (shape1 m) (map (λ r, zip_with fsub r v) (rows m)).

(** [m - v[:, None]] with [v] of length [shape0 m]. *)
Definition sub_column_vector (m : matrix F) (v : list F) : matrix F :=
  Matrix (shape0 m) (shape1 m)
         (zip_with (λ r a, map (λ x, fsub x a) r) (rows m) v).

(** The product of [a] (p by q) and [b] (q by r). *)
Definition matmul (a b : matrix F) : matrix F :=
  Matrix (shape0 a) (shape1 b)
         (map (λ r, map (λ j, fsum (zip_with fmul r (column j b)))
                        (seq 0 (shape1 b)))
              (rows a)).

(** [np.dot(a, b)] on two-dimensional arrays. *)
Definition np_dot (a b : matrix F) : result (matrix F) :=
  if bool_decide (shape1 a = shape0 b) then ok (matmul a b)
  else raise ValueError.

Definition scale (m : matrix F) (s : F) : matrix F :=
  Matrix (shape0 m) (shape1 m) (map (map (λ x, fmul x s)) (rows m)).

(** [a.squeeze()]: axes of length one are dropped. *)
Definition squeeze (m : matrix F) : ndarray F :=
  match shape0 m, shape1 m with
  | 1%nat, 1%nat => Arr0 (nth 0 (column 0 m) f0)
  | 1%nat, _ => Arr1 (nth 0 (rows m) [])
  | _, 1%nat => Arr1 (column 0 m)
  | _, _ => Arr2 m
  end.

(** [np.cov(m, rowvar=False)] on a two-dimensional [m] turns the columns
    into rows first, except that releases before 2.0 test
    [X.shape[0] != 1] where later ones test [m.ndim != 1]. *)
Definition cov_transposes (m : matrix F) : bool :=
  bool_decide (shape0 m ≠ 1%nat) || cov_transposes_single_row.

(** [np.cov(m, rowvar=False)] before its final [squeeze]:
<<
  X = array(m, ndmin=2, dtype=dtype)          # a copy
  if not rowvar and X.shape[0] != 1:          # m.ndim != 1 since 2.0
      X = X.T
  if X.shape[0] == 0:
      return np.array([]).reshape(0, 0)
  avg, w_sum = average(X, axis=1, weights=w, returned=True)
  fact = X.shape[1] - ddof                    # ddof = 1
  if fact <= 0:
      fact = 0.0                              # with a RuntimeWarning
  X -= avg[:, None]
  c = dot(X, X.T.conj())
  c *= np.true_divide(1, fact)
  return c.squeeze()
>>
    Where a one-row array is not transposed, its single row is the only
    variable. *)
Definition cov2d (m : matrix F) : matrix F :=
  let X := if cov_transposes m then transpose m else m in
  if bool_decide (shape0 X = 0%nat) then Matrix 0 0 []
  else
    let avg := mean_axis1 X in
    let fact := (shape1 X - 1)%nat in
    let X := sub_column_vector X avg in
    let c := matmul X (transpose X) in
    scale c (fdiv f1 (f_of_nat fact)).

Definition np_cov (m : matrix F) : ndarray F := squeeze (cov2d m).

(** [np.linalg.eigh(a)]:
<<
  _assert_stacked_2d(a)       # a.ndim < 2: LinAlgError
  _assert_stacked_square(a)   # last two dimensions differ: LinAlgError
  w, vt = gufunc(a, ...)      # no convergence: LinAlgError
>> *)
Definition linalg_eigh (a : ndarray F) : result (list F * matrix F) :=
  match a with
  | Arr0 _ | Arr1 _ => raise LinAlgError
  | Arr2 m =>
      if bool_decide (shape0 m = shape1 m) then
        match eigh_solver m with
        | Some wv => ok wv
        | None => raise LinAlgError
        end
      else raise LinAlgError
  end.

(** [v[idx]] for an index array [idx]. *)
Definition take_items {A : Type} (v : list A) (idx : list nat) : result (list A) :=
  mapM (λ i, match v !! i with
             | Some x => ok x
             | None => raise IndexError
             end) idx.

(** [m[:, idx]] for an index array [idx]: a new array. *)
Definition take_columns (m : matrix F) (idx : list nat) : result (matrix F) :=
  rs ← mapM (λ r, take_items r idx) (rows m);
  if bool_decide (Forall (λ i, i < shape1 m)%nat idx)
  then ok (Matrix (shape0 m) (length idx) rs)
  else raise IndexError.

(** The number of entries kept by the slice [:stop] of an axis of
    length [n]. *)
Definition slice_stop (n : nat) (stop : option Z) : nat :=
  match stop with
  | None => n
  | Some k =>
      if bool_decide (k < 0) then Z.to_nat (Z.max 0 (Z.of_nat n + k))
      else Nat.min (Z.to_nat k) n
  end.

(** [m[:, :stop]] *)
Definition slice_columns (m : matrix F) (stop : option Z) : matrix F :=
  let k := slice_stop (shape1 m) stop in
  Matrix (shape0 m) k (map (take k) (rows m)).
End numpy.

(** ** Arrays shared with the caller *)

(** Array objects live in a store; a Python variable holds a reference.
    A statement either yields a value or raises, and in both cases leaves
    a store behind. *)
Definition ref : Type := positive.

Definition stateful (St A : Type) : Type := St → St * result A.

#[global] Instance stateful_ret {St} : MRet (stateful St) := λ A a st, (st, ok a).
#[global] Instance stateful_bind {St} : MBind (stateful St) := λ A B f m st,
  match m st with
  | (st', inr a) => f a st'
  | (st', inl e) => (st', inl e)
  end.

Definition lift {St A : Type} (r : result A) : stateful St A := λ st, (st, r).

Section PCA.
Context `{Numpy}.

Local Abbreviation store := (gmap ref (matrix F)).

(** Read the array a reference points to. *)
Definition deref (r : ref) : stateful store (matrix F) := λ st,
  match st !! r with
  | Some m => (st, ok m)
  | None => (st, raise NameError)
  end.

(** Overwrite, in place, the array a reference points to. *)
Definition assign (r : ref) (m : matrix F) : stateful store unit := λ st,
  (<[r := m]> st, ok tt).

(** [data -= v]: the subtraction writes into the array [data] itself. *)
Definition isub_row_vector (data : ref) (v : list F) : stateful store unit :=
  d ← deref data;
  assign data (sub_row_vector d v).

(**
<<
  def PCA(data, num_components=None):
      data -= data.mean(axis=0)
      R = np.cov(data, rowvar=False)
      V, E = np.linalg.eigh(R)
      idx = np.argsort(V)[::-1]
      E = E[:, idx]
      V = V[idx]
      E = E[:, :num_components]
      return np.dot(E.T, data.T).T, V, E
>>
    [np.cov] works on a copy, indexing with [idx] builds new arrays and
    [np.dot] allocates its result, so only the first statement writes
    to an array the caller can see. *)
Definition PCA (data : ref) (num_components : option Z)
  : stateful store (matrix F * list F * matrix F) :=
  d ← deref data;
  _ ← isub_row_vector data (mean_axis0 d);
  d ← deref data;
  let R := np_cov d in
  '(V, E) ← lift (linalg_eigh R);
  let idx := reverse (argsort V) in
  E ← lift (take_columns E idx);
  V ← lift (take_items V idx);
  let E := slice_columns E num_components in
  X ← lift (np_dot (transpose E) (transpose d));
  mret (transpose X, V, E).

(** *** Notions used to state the properties *)

(** The statements of [PCA] after the first one, as a function of the
    array they read. *)
Definition PCA_value (d : matrix F) (num_components : option Z)
  : result (matrix F * list F * matrix F) :=
  '(V, E) ← linalg_eigh (np_cov d);
  let idx := reverse (argsort V) in
  E ← take_columns E idx;
  V ← take_items V idx;
  let E := slice_columns E num_components in
  X ← np_dot (transpose E) (transpose d);
  ok (transpose X, V, E).

(** Mean-centred data, as the glossary defines it: every entry minus the
    mean of its column. *)
Definition centered (d : matrix F) : matrix F :=
  sub_row_vector d (mean_axis0 d).

(** A vector in non-increasing order: [v[i] >= v[i+1]] at every
    adjacent pair. *)
Definition non_increasing (v : list F) : Prop :=
  ∀ i x x', v !! i = Some x → v !! S i = Some x' → fle x' x = true.

(** A float that is a number: [x <= x] holds of every float but NaN. *)
Definition is_number (x : F) : Prop := fle x x = true.

(** Two outcomes agree up to the sign of each axis: same eigenvalues,
    same shapes, and axis by axis the basis vector and the projected
    coordinate are either both equal or both negated. Two calls that
    raise agree when they raise the same exception. *)
Definition same_up_to_sign (r1 r2 : result (matrix F * list F * matrix F)) : Prop :=
  match r1, r2 with
  | inr (X1, V1, E1), inr (X2, V2, E2) =>
      V1 = V2 ∧
      shape0 X1 = shape0 X2 ∧ shape1 X1 = shape1 X2 ∧
      shape0 E1 = shape0 E2 ∧ shape1 E1 = shape1 E2 ∧
      ∀ j, (column j X2 = column j X1 ∧ column j E2 = column j E1) ∨
           (column j X2 = fneg <$> column j X1 ∧ column j E2 = fneg <$> column j E1)
  | inl e1, inl e2 => e1 = e2
  | _, _ => False
  end.
End PCA.

(** What the script needs of the two library routines: [np.argsort]
    returns a permutation of the positions, which lists the entries in
    ascending order when none of them is NaN (it puts NaN last, where
    [<=] says nothing), and a converged eigen-solver returns one
    eigenvalue per row and a square eigenvector matrix of the same
    size. *)
Class NumpyContract `{Numpy} : Prop := {
  argsort_perm : ∀ v : list F, argsort v ≡ₚ seq 0 (length v);
  argsort_ascending : ∀ (v : list F) i a b x x',
    Forall is_number v →
    argsort v !! i = Some a → argsort v !! S i = Some b →
    v !! a = Some x → v !! b = Some x' → fle x x' = true;
  eigh_solver_shape : ∀ (m : matrix F) w v,
    eigh_solver m = Some (w, v) →
    length w = shape0 m ∧ wf v ∧ shape0 v = shape0 m ∧ shape1 v = shape0 m
}.

(** ** The host application: bmeshes and scene data *)

(** Python's [set(y)] is iterated in an order fixed by the interpreter's
    hash table; only what every such order has in common is used. *)
Class PySet : Type := {
  set_iter : list Z → list Z
}.

Class PySetContract `{PySet} : Prop := {
  set_iter_NoDup : ∀ ys, NoDup (set_iter ys);
  set_iter_elem : ∀ ys v, v ∈ set_iter ys ↔ v ∈ ys
}.

Definition color : Type := (nat * nat * nat * nat)%type.

(** Names asked of the host, such as [f'ScatterMesh {label_idx}']. *)
Definition name : Type := (string * Z)%type.

Section host.
Context `{Numpy}.

(** Geometry added to a bmesh by one [bmesh.ops.create_*] call; the
    last field is the translation vector given to
    [Matrix.Translation]. *)
Inductive primitive : Type :=
| Cube (size : F) (at_ : list F)
| Icosphere (subdivisions : nat) (radius : F) (at_ : list F)
| Cone (segments : nat) (cap_ends : bool) (radius1 radius2 depth : F)
       (at_ : list F).

Record bmesh : Type := BMesh {
  geometry : list primitive;
  converted : bool;   (* [to_mesh] has been called on it *)
  freed : bool        (* [free] has been called on it *)
}.

Record mesh : Type := Mesh {
  mesh_name : name;
  mesh_geometry : list primitive;
  mesh_materials : list name
}.

Record material : Type := Material {
  material_name : name;
  diffuse_color : color;
  specular_intensity : F
}.

Record object : Type := Object {
  object_name : name;
  object_data : name
}.

(** [bm_list] together with the host's data blocks ([bpy.data.meshes],
    [bpy.data.objects], [bpy.data.materials]) and the objects linked to
    the current collection. *)
Record world : Type := World {
  bm_list : list bmesh;
  meshes : list mesh;
  objects : list object;
  materials : list material;
  collection : list name
}.

Definition bmesh_new : bmesh := BMesh [] false false.

(** [Matrix.Translation(x)] takes a vector of three or four components
    and rejects any other. *)
Definition matrix_translation (x : list F) : result (list F) :=
  if bool_decide (length x = 3%nat ∨ length x = 4%nat) then ok x
  else raise ValueError.

(** A [bmesh.ops.create_*] call: a freed bmesh cannot be used. *)
Definition bmesh_add (p : primitive) (bm : bmesh) : result bmesh :=
  if freed bm then raise ReferenceError
  else ok (BMesh (geometry bm ++ [p]) (converted bm) (freed bm)).

(** [bm.to_mesh(mesh)] and [bm.free()]. *)
Definition bmesh_to_mesh (bm : bmesh) : result bmesh :=
  if freed bm then raise ReferenceError
  else ok (BMesh (geometry bm) true (freed bm)).

Definition bmesh_free (bm : bmesh) : result bmesh :=
  ok (BMesh (geometry bm) (converted bm) true).

(** Apply an operation to the object [bm_list[label_idx]]. *)
Definition on_bmesh (label_idx : Z) (op : bmesh → result bmesh)
  : stateful world bmesh := λ w,
  match py_index (length (bm_list w)) label_idx with
  | inl e => (w, inl e)
  | inr j =>
      match bm_list w !! j with
      | None => (w, raise IndexError)
      | Some bm =>
          match op bm with
          | inl e => (w, inl e)
          | inr bm' =>
              (World (<[j := bm']> (bm_list w)) (meshes w) (objects w)
                     (materials w) (collection w), ok bm')
          end
      end
  end.

(** A host call that cannot fail. *)
Definition modify {St : Type} (f : St → St) : stateful St unit := λ st, (f st, ok tt).

Definition set_bm_list (bms : list bmesh) (w : world) : world :=
  World bms (meshes w) (objects w) (materials w) (collection w).

(** [bpy.data.meshes.new(n)] *)
Definition meshes_new (n : name) (w : world) : world :=
  World (bm_list w) (meshes w ++ [Mesh n [] []]) (objects w) (materials w)
        (collection w).

(** The mesh created last receives the geometry of a bmesh. *)
Definition mesh_fill (bm : bmesh) (w : world) : world :=
  World (bm_list w)
        (alter (λ m, Mesh (mesh_name m) (geometry bm) (mesh_materials m))
               (pred (length (meshes w))) (meshes w))
        (objects w) (materials w) (collection w).

(** [bpy.data.objects.new(n, mesh)] and
    [bpy.context.collection.objects.link(obj)] *)
Definition objects_new_linked (obj : object) (w : world) : world :=
  World (bm_list w) (meshes w) (objects w ++ [obj]) (materials w)
        (collection w ++ [object_name obj]).

(** [bpy.data.materials.new(n)] with its colour and specular intensity,
    appended to the material slots of the mesh created last. *)
Definition materials_new_appended (mat : material) (w : world) : world :=
  World (bm_list w)
        (alter (λ m, Mesh (mesh_name m) (mesh_geometry m)
                          (mesh_materials m ++ [material_name mat]))
               (pred (length (meshes w))) (meshes w))
        (objects w) (materials w ++ [mat]) (collection w).

Definition colors : list color :=
  [(1, 0, 0, 1); (0, 1, 0, 1); (0, 0, 1, 1);
   (1, 1, 0, 1); (1, 0, 1, 1); (0, 1, 1, 1)]%nat.

(** [for ... in ...: body], the body acting on the host. *)
Fixpoint for_each_st {St A : Type} (body : A → stateful St unit) (xs : list A)
  : stateful St unit :=
  match xs with
  | [] => mret tt
  | x :: xs' => _ ← body x; for_each_st body xs'
  end.

Section create_scatter.
Context `{PySet}.

(** Body of the first loop: one primitive per data point, added to the
    bmesh of the point's label.
<<
        T = Matrix.Translation(x)
        if label_idx % 3 == 0:
            bmesh.ops.create_cube(bm_list[label_idx], size=size, matrix=T)
        elif label_idx % 3 == 1:
            bmesh.ops.create_icosphere(bm_list[label_idx], subdivisions=2,
                                       radius=size / 2, matrix=T)
        else:
            bmesh.ops.create_cone(bm_list[label_idx], segments=6,
                                  cap_ends=True, radius1=size / 2, radius2=0,
                                  depth=size, matrix=T)
>> *)
Definition add_point (size : F) (p : list F * Z) : stateful world unit :=
  let '(x, label_idx) := p in
  let two := f_of_nat 2 in
  T ← lift (matrix_translation x);
  if bool_decide (label_idx `mod` 3 = 0) then
    _ ← on_bmesh label_idx (bmesh_add (Cube size T)); mret tt
  else if bool_decide (label_idx `mod` 3 = 1) then
    _ ← on_bmesh label_idx (bmesh_add (Icosphere 2 (fdiv size two) T)); mret tt
  else
    _ ← on_bmesh label_idx
          (bmesh_add (Cone 6 true (fdiv size two) f0 size T));
    mret tt.

(** Body of the second loop:
<<
    mesh = bpy.data.meshes.new(f'ScatterMesh {label_idx}')
    bm_list[label_idx].to_mesh(mesh)
    bm_list[label_idx].free()
    obj = bpy.data.objects.new(f'ScatterObject {label_idx}', mesh)
    bpy.context.collection.objects.link(obj)
    mat = bpy.data.materials.new(f'ScatterMaterial {label_idx}')
    mat.diffuse_color = color
    mat.specular_intensity = 0.0
    obj.data.materials.append(mat)
    objects.append(obj)
>> *)
Definition add_object (p : Z * color) : stateful world object :=
  let '(label_idx, c) := p in
  let mesh_n : name := ("ScatterMesh"%string, label_idx) in
  let obj := Object ("ScatterObject"%string, label_idx) mesh_n in
  let mat := Material ("ScatterMaterial"%string, label_idx) c f0 in
  _ ← modify (meshes_new mesh_n);
  bm ← on_bmesh label_idx bmesh_to_mesh;
  _ ← modify (mesh_fill bm);
  _ ← on_bmesh label_idx bmesh_free;
  _ ← modify (objects_new_linked obj);
  _ ← modify (materials_new_appended mat);
  mret obj.

Fixpoint add_objects (ps : list (Z * color)) : stateful world (list object) :=
  match ps with
  | [] => mret []
  | p :: ps' =>
      obj ← add_object p;
      objs ← add_objects ps';
      mret (obj :: objs)
  end.

(**
<<
def create_scatter(X, y, size=0.25):
    label_indices = set(y)
    colors = [...]
    bm_list = [bmesh.new() for _ in label_indices]
    for x, label_idx in zip(X, y):
        ...
    objects = []
    for label_idx, color in zip(label_indices, colors):
        ...
    return objects
>> *)
Definition create_scatter (X : list (list F)) (y : list Z) (size : F)
  : stateful world (list object) :=
  let label_indices := set_iter y in
  _ ← modify (set_bm_list (map (λ _, bmesh_new) label_indices));
  _ ← for_each_st (add_point size) (zip X y);
  add_objects (zip label_indices colors).
End create_scatter.

(** *** Notions used to state the properties *)

(** The object and the material made for a label. *)
Definition scatter_object (label_idx : Z) : object :=
  Object ("ScatterObject"%string, label_idx) ("ScatterMesh"%string, label_idx).

Definition scatter_material (p : Z * color) : material :=
  Material ("ScatterMaterial"%string, p.1) p.2 f0.

(** A bmesh on which neither [to_mesh] nor [free] has been called. *)
Definition pending (bm : bmesh) : Prop := converted bm = false ∧ freed bm = false.

(** A bmesh that has been turned into a mesh and freed. *)
Definition released (bm : bmesh) : Prop := converted bm = true ∧ freed bm = true.

(** The host data is the same in both worlds; only [bm_list] may
    differ. *)
Definition same_data (w w' : world) : Prop :=
  meshes w' = meshes w ∧ objects w' = objects w ∧
  materials w' = materials w ∧ collection w' = collection w.
End host.

(** ** A concrete kernel over the rationals

    Exact rational arithmetic, a stable insertion sort for [np.argsort],
    and an eigen-solver that handles diagonal matrices (eigenvalues on the
    diagonal, the identity as eigenvector matrix) and reports no
    convergence otherwise. The kernel serves to run the script on
    concrete arrays. *)

Fixpoint insert_index (key : nat → Q) (i : nat) (sorted : list nat) : list nat :=
  match sorted with
  | [] => [i]
  | j :: sorted' =>
      if Qle_bool (key i) (key j) then i :: sorted
      else j :: insert_index key i sorted'
  end.

Definition argsort_Q (v : list Q) : list nat :=
  foldr (insert_index (λ i, nth i v 0%Q)) [] (seq 0 (length v)).

Definition entry_Q (m : matrix Q) (i j : nat) : Q := nth j (nth i (rows m) []) 0%Q.

Definition is_diagonal (m : matrix Q) : bool :=
  forallb (λ i, forallb (λ j, bool_decide (i = j) || Qeq_bool (entry_Q m i j) 0)
                        (seq 0 (shape1 m)))
          (seq 0 (shape0 m)).

Definition identity_Q (n : nat) : matrix Q :=
  Matrix n n (map (λ i, map (λ j, if bool_decide (i = j) then 1%Q else 0%Q) (seq 0 n))
                  (seq 0 n)).

Definition diagonal_eigh (m : matrix Q) : option (list Q * matrix Q) :=
  if is_diagonal m
  then Some (map (λ i, entry_Q m i i) (seq 0 (shape0 m)), identity_Q (shape0 m))
  else None.

#[global] Instance rational_numpy : Numpy := {|
  F := Q;
  cov_transposes_single_row := false;
  f_of_nat n := inject_Z (Z.of_nat n);
  fadd := Qplus;
  fsub := Qminus;
  fmul := Qmult;
  fdiv := Qdiv;
  fle := Qle_bool;
  argsort := argsort_Q;
  eigh_solver := diagonal_eigh
|}.

(** Distinct integers in ascending order: the order in which CPython
    iterates a set of small non-negative integers (each hashes to itself
    and lands in the slot of its own value). *)
#[global] Instance ascending_pyset : PySet := {|
  set_iter ys := merge_sort Z.le (elements (list_to_set ys : gset Z))
|}.

(** ** Sample inputs *)

(** The four corners of a square, one point per row. *)
Definition square_corners : matrix (@F rational_numpy) :=
  Matrix 4 2 [[0; 0]; [2; 0]; [0; 2]; [2; 2]]%Q.

(** The four corners of a rectangle twice as high as wide: the variance
    along the second axis is four times that along the first. *)
Definition rectangle_corners : matrix (@F rational_numpy) :=
  Matrix 4 2 [[0; 0]; [2; 0]; [0; 4]; [2; 4]]%Q.

(** The eigenvalues that the solver finds for the centred rectangle, in
    the solver's order. *)
Definition rectangle_eigenvalues : list (@F rational_numpy) :=
  Eval vm_compute in
    match eigh_solver (cov2d (centered rectangle_corners)) with
    | Some (w, _) => w
    | None => []
    end.

(** Two observations of a single variable. *)
Definition single_column : matrix (@F rational_numpy) := Matrix 2 1 [[1]; [2]]%Q.

(** A single observation of two variables. *)
Definition single_row : matrix (@F rational_numpy) := Matrix 1 2 [[1; 2]]%Q.

(** Seven points at the origin, and a host with no data yet. *)
Definition seven_points : list (list (@F rational_numpy)) := replicate 7 [0; 0; 0]%Q.

Definition empty_world : world (H := rational_numpy) := World [] [] [] [] [].

(** A store in which the reference [1] is bound to the array [d]. *)
Definition bound (d : matrix (@F rational_numpy)) : gmap ref (matrix (@F rational_numpy)) :=
  {[1%positive := d]}.

(** ** Class-sorted label columns *)

(** A list of class names in which equal names are contiguous, as in the
    iris file, where the rows of a class follow each other: a name seen at
    two rows is the name of every row in between. *)
Definition grouped (names : list string) : Prop :=
  ∀ i j k n, (i ≤ j ≤ k)%nat →
             names !! i = Some n → names !! k = Some n → names !! j = Some n.

(** ** Notions for the properties of [create_scatter] *)

Section scatter_notions.
Context `{Numpy}.

(** The primitive that the first loop of [create_scatter] makes of a data
    point: a cube, an icosphere or a cone by the label modulo 3, placed at
    the point. *)
Definition primitive_of (size : F) (p : list F * Z) : primitive :=
  if bool_decide (p.2 `mod` 3 = 0) then Cube size p.1
  else if bool_decide (p.2 `mod` 3 = 1) then Icosphere 2 (fdiv size (f_of_nat 2)) p.1
  else Cone 6 true (fdiv size (f_of_nat 2)) f0 size p.1.

(** The data points with a given label, in the order of the data. *)
Definition points_of (label_idx : Z) (ps : list (list F * Z)) : list (list F * Z) :=
  filter (λ p, p.2 = label_idx) ps.

(** A label that [bm_list[label_idx]] accepts when the list has [n]
    entries. *)
Definition valid_index (n : nat) (label_idx : Z) : Prop :=
  - Z.of_nat n ≤ label_idx < Z.of_nat n.
End scatter_notions.

(** Four points in space, for labels 0, 1, 0, 2. *)
Definition four_points : list (list (@F rational_numpy)) :=
  [[0; 0; 0]; [1; 0; 0]; [0; 1; 0]; [0; 0; 1]]%Q.

(** ** [load_iris]: the whole manual fallback *)

Section load_iris_manual.
Context `{Numpy}.

(** [float(s)] as [astype(float)] applies it to a field; [None] when the
    string is not a number. *)
Variable parse_float : string → option F.

(** [iris_data[:, :4].astype(dtype=float)]: the slice keeps at most four
    columns; a field that is not a number raises [ValueError]. *)
Definition astype_float (m : matrix string) : result (matrix F) :=
  rs ← mapM (mapM (λ s, match parse_float s with
                        | Some x => ok x
                        | None => raise ValueError
                        end)) (rows m);
  ok (Matrix (shape0 m) (shape1 m) rs).

Definition first_four_columns (m : matrix string) : matrix string :=
  Matrix (shape0 m) (Nat.min 4 (shape1 m)) (map (take 4) (rows m)).

(** [iris_data[:, 4]]: the fifth column, if there is one. *)
Definition fifth_column (m : matrix string) : result (list string) :=
  if bool_decide (4 < shape1 m)%nat
  then mapM (λ r, match r !! 4%nat with
                  | Some s => ok s
                  | None => raise IndexError
                  end) (rows m)
  else raise IndexError.

(**
<<
        iris_data = np.genfromtxt(path, dtype='str', delimiter=',')
        X = iris_data[:, :4].astype(dtype=float)
        y = np.ndarray((X.shape[0],), dtype=int)
        labels, idx = [], 0
        for i, label in enumerate(iris_data[:, 4]):
            ...
        X = PCA(X, 3)[0]
    return X, y, labels
>>
    from the two-dimensional array of strings that [genfromtxt] has
    read. [X] is a new array, bound here to the reference [1] of a store
    of its own; [PCA] centres it in place and the projection replaces
    it. *)
Definition load_iris_manual (iris_data : matrix string)
  : result (matrix F * list Z * list string) :=
  X ← astype_float (first_four_columns iris_data);
  column ← fifth_column iris_data;
  '(y, labels) ← load_iris column;
  '(X, _, _) ← (PCA 1%positive (Some 3) {[1%positive := X]}).2;
  ok (X, y, labels).
End load_iris_manual.

(** ** [utils.bmesh_to_object] *)

Section bmesh_to_object.
Context `{Numpy}.

(** Data blocks with the names asked of the host (the host may alter a
    name that is taken). *)
Record named_mesh : Type := NamedMesh {
  named_mesh_name : string;
  named_mesh_geometry : list primitive
}.

Record named_object : Type := NamedObject {
  named_object_name : string;
  named_object_data : string
}.

(** The bmeshes a script holds references to, [bpy.data.meshes],
    [bpy.data.objects], and the objects linked to the scene's
    collection. *)
Record scene : Type := Scene {
  bmeshes : gmap ref bmesh;
  scene_meshes : list named_mesh;
  scene_objects : list named_object;
  scene_linked : list string
}.

(** A method call on the bmesh a reference points to. *)
Definition bmesh_call (bm : ref) (op : bmesh → result bmesh)
  : stateful scene bmesh := λ s,
  match bmeshes s !! bm with
  | None => (s, raise NameError)
  | Some b =>
      match op b with
      | inl e => (s, inl e)
      | inr b' =>
          (Scene (<[bm := b']> (bmeshes s)) (scene_meshes s) (scene_objects s)
                 (scene_linked s), ok b')
      end
  end.

Definition scene_meshes_new (n : string) (s : scene) : scene :=
  Scene (bmeshes s) (scene_meshes s ++ [NamedMesh n []]) (scene_objects s)
        (scene_linked s).

Definition scene_mesh_fill (b : bmesh) (s : scene) : scene :=
  Scene (bmeshes s)
        (alter (λ m, NamedMesh (named_mesh_name m) (geometry b))
               (pred (length (scene_meshes s))) (scene_meshes s))
        (scene_objects s) (scene_linked s).

Definition scene_objects_new_linked (o : named_object) (s : scene) : scene :=
  Scene (bmeshes s) (scene_meshes s) (scene_objects s ++ [o])
        (scene_linked s ++ [named_object_name o]).

(**
<<
def bmesh_to_object(bm, name='Object'):
    mesh = bpy.data.meshes.new(name + 'Mesh')
    bm.to_mesh(mesh)
    bm.free()
    obj = bpy.data.objects.new(name, mesh)
    bpy.context.scene.collection.objects.link(obj)
    return obj
>> *)
Definition bmesh_to_object (bm : ref) (name : string)
  : stateful scene named_object :=
  let mesh_n := String.append name "Mesh" in
  _ ← modify (scene_meshes_new mesh_n);
  b ← bmesh_call bm bmesh_to_mesh;
  _ ← modify (scene_mesh_fill b);
  _ ← bmesh_call bm bmesh_free;
  let obj := NamedObject name mesh_n in
  _ ← modify (scene_objects_new_linked obj);
  mret obj.
End bmesh_to_object.

(** ** Host calls that can raise more than the exceptions above *)

Inductive host_exn : Type :=
| Python (e : exn)      (* one of the exceptions above *)
| TypeError
| ZeroDivisionError
| OverflowError.

Definition host_result (A : Type) : Type := (host_exn + A)%type.

Definition hbind {A B : Type} (m : host_result A) (f : A → host_result B)
  : host_result B :=
  match m with
  | inl e => inl e
  | inr a => f a
  end.

#[global] Instance host_result_ret : MRet host_result := λ A a, inr a.
#[global] Instance host_result_bind : MBind host_result := λ A B f m, hbind m f.

(** An exception of the first kind, raised in the richer setting. *)
Definition python {A : Type} (r : result A) : host_result A :=
  match r with
  | inl e => inl (Python e)
  | inr a => inr a
  end.

Definition hostful (St A : Type) : Type := St → St * host_result A.

#[global] Instance hostful_ret {St} : MRet (hostful St) := λ A a st, (st, inr a).
#[global] Instance hostful_bind {St} : MBind (hostful St) := λ A B f m st,
  match m st with
  | (st', inr a) => f a st'
  | (st', inl e) => (st', inl e)
  end.

Definition hlift {St A : Type} (r : host_result A) : hostful St A := λ st, (st, r).

Definition hmodify {St : Type} (f : St → St) : hostful St unit := λ st, (f st, inr tt).

(** ** [create_labels] *)

Section create_labels.
Context `{Numpy} `{PySet}.

(** [math.pi] *)
Variable pi : F.

(** The decimal constants [0.8] and [0.6]. *)
Definition f_0_8 : F := fdiv (f_of_nat 8) (f_of_nat 10).
Definition f_0_6 : F := fdiv (f_of_nat 6) (f_of_nat 10).

Record font_curve : Type := FontCurve {
  curve_name : string;
  curve_body : string;
  curve_align_x : string;
  curve_align_y : string;
  curve_size : F
}.

(** A [LOCKED_TRACK] constraint; the target is named by its object. *)
Record locked_track : Type := LockedTrack {
  track_target : string;
  track_axis : string;
  lock_axis : string
}.

Record text_object : Type := TextObject {
  text_name : string;
  text_data : string;
  text_location : list F;
  text_rotation_mode : string;
  text_rotation_axis_angle : list F;
  text_constraints : list locked_track
}.

(** [bpy.data.curves], [bpy.data.objects] and the objects linked to the
    current collection. *)
Record label_world : Type := LabelWorld {
  curves : list font_curve;
  texts : list text_object;
  texts_linked : list string
}.

(** [[x for x, idx in zip(X, y) if idx == label_idx]] *)
Definition points_labelled (X : list (list F)) (y : list Z) (label_idx : Z)
  : list (list F) :=
  (filter (λ p, p.2 = label_idx) (zip X y)).*1.

(** [Vector(np.sum(rows, axis=0))]: the sum of no rows at all is the
    scalar [0.0], which is not a sequence; a vector has at least two
    components. *)
Definition vector_of_sum (rs : list (list F)) : host_result (list F) :=
  match rs with
  | [] => inl TypeError
  | r :: _ =>
      let s := map (λ j, fsum (map (λ r, nth j r f0) rs)) (seq 0 (length r)) in
      if bool_decide (2 ≤ length s)%nat then inr s else inl (Python ValueError)
  end.

(** [(y == label_idx).sum()] *)
Definition count_label (y : list Z) (label_idx : Z) : nat :=
  length (filter (λ v, v = label_idx) y).

(** [v / counts] for a vector [v]. *)
Definition vector_div (v : list F) (counts : nat) : host_result (list F) :=
  if bool_decide (counts = 0%nat) then inl ZeroDivisionError
  else inr (map (λ c, fdiv c (f_of_nat counts)) v).

(** [v + Vector((0, 0, 0.8))]: vectors of different sizes do not add. *)
Definition vector_lift (v : list F) : host_result (list F) :=
  if bool_decide (length v = 3%nat) then inr (zip_with fadd v [f0; f0; f_0_8])
  else inl (Python ValueError).

(** The object [bpy.data.objects.new] hands back, before any attribute is
    set. *)
Definition text_object_new (n data : string) : text_object :=
  TextObject n data [f0; f0; f0] "XYZ" [f0; f0; f1; f0] [].

Definition curves_new (c : font_curve) (w : label_world) : label_world :=
  LabelWorld (curves w ++ [c]) (texts w) (texts_linked w).

Definition texts_new (o : text_object) (w : label_world) : label_world :=
  LabelWorld (curves w) (texts w ++ [o]) (texts_linked w).

(** The attributes of the object created last are set and the object is
    linked to the collection. *)
Definition text_placed (o : text_object) (w : label_world) : label_world :=
  LabelWorld (curves w)
             (alter (λ _, o) (pred (length (texts w))) (texts w))
             (texts_linked w ++ [text_name o]).

(** One round of the loop of [create_labels]:
<<
        center = np.sum([x for x, idx in zip(X, y) if idx == label_idx], axis=0)
        counts = (y == label_idx).sum()
        center = Vector(center) / counts
        label = labels[label_idx]
        font_curve = bpy.data.curves.new(type="FONT", name=label)
        font_curve.body = label
        font_curve.align_x = 'CENTER'
        font_curve.align_y = 'BOTTOM'
        font_curve.size = 0.6
        obj = bpy.data.objects.new(f"Label {label}", font_curve)
        obj.location = center + Vector((0, 0, 0.8))
        obj.rotation_mode = 'AXIS_ANGLE'
        obj.rotation_axis_angle = (pi / 2, 1, 0, 0)
        bpy.context.collection.objects.link(obj)
        if camera is not None:
            constraint = obj.constraints.new('LOCKED_TRACK')
            constraint.target = camera
            constraint.track_axis = 'TRACK_Z'
            constraint.lock_axis = 'LOCK_Y'
        objects.append(obj)
>> *)
Definition create_label (X : list (list F)) (y : list Z) (labels : list string)
    (camera : option string) (label_idx : Z) : hostful label_world text_object :=
  center ← hlift (vector_of_sum (points_labelled X y label_idx));
  center ← hlift (vector_div center (count_label y label_idx));
  label ← hlift (python (py_getitem labels label_idx));
  _ ← hmodify (curves_new (FontCurve label label "CENTER" "BOTTOM" f_0_6));
  let n := String.append "Label " label in
  _ ← hmodify (texts_new (text_object_new n label));
  location ← hlift (vector_lift center);
  let obj :=
    TextObject n label location "AXIS_ANGLE" [fdiv pi (f_of_nat 2); f1; f0; f0]
               match camera with
               | Some c => [LockedTrack c "TRACK_Z" "LOCK_Y"]
               | None => []
               end in
  _ ← hmodify (text_placed obj);
  mret obj.

Fixpoint create_labels_loop (X : list (list F)) (y : list Z) (labels : list string)
    (camera : option string) (label_indices : list Z)
  : hostful label_world (list text_object) :=
  match label_indices with
  | [] => mret []
  | label_idx :: rest =>
      obj ← create_label X y labels camera label_idx;
      objs ← create_labels_loop X y labels camera rest;
      mret (obj :: objs)
  end.

(**
<<
def create_labels(X, y, labels, camera=None):
    label_indices = set(y)
    objects = []
    for label_idx in label_indices:
        ...
    return objects
>> *)
Definition create_labels (X : list (list F)) (y : list Z) (labels : list string)
    (camera : option string) : hostful label_world (list text_object) :=
  create_labels_loop X y labels camera (set_iter y).

(** *** Notions used to state the properties *)

(** The mean of the points labelled [label_idx], as the loop computes
    it. *)
Definition centroid (X : list (list F)) (y : list Z) (label_idx : Z) : list F :=
  map (λ j, fdiv (fsum (map (λ r, nth j r f0) (points_labelled X y label_idx)))
                 (f_of_nat (count_label y label_idx)))
      (seq 0 3).

(** The text object a label ends up with. *)
Definition label_object (X : list (list F)) (y : list Z) (camera : option string)
    (label_idx : Z) (label : string) : text_object :=
  TextObject (String.append "Label " label) label
             (zip_with fadd (centroid X y label_idx) [f0; f0; f_0_8])
             "AXIS_ANGLE" [fdiv pi (f_of_nat 2); f1; f0; f0]
             match camera with
             | Some c => [LockedTrack c "TRACK_Z" "LOCK_Y"]
             | None => []
             end.
End create_labels.

(** ** [utils.rainbow_lights] *)

Section rainbow_lights.
Context `{Numpy}.

(** [math.pi], [pow] with exponent [2.2] and [colorsys.hsv_to_rgb] on
    the values they are given here (a finite hue in [0, 1), and colour
    components in [0.4, 1]); [math.sin] and [math.cos], which have no
    value on an infinite argument.  The host's operator
    [bpy.ops.object.add] is taken in a context where it can run. *)
Variable pi : F.
Variable sin cos : F → option F.
Variable pow_2_2 : F → F.
Variable hsv_to_rgb : F → F → F → F * F * F.

(**
<<
TAU = 2 * pi
>> *)
Definition TAU : F := fmul (f_of_nat 2) pi.

(** [float(n)] for an integer: integers that round to 2^1024 or more are
    too large for a float. *)
Definition float_max_int : Z := 2 ^ 1024 - 2 ^ 970.

Definition py_float (n : Z) : host_result F :=
  if bool_decide (Z.abs n < float_max_int) then
    inr (if bool_decide (n < 0) then fneg (f_of_nat (Z.to_nat (- n)))
         else f_of_nat (Z.to_nat n))
  else inl OverflowError.

(** A call of a function of [math]: [ValueError] (math domain error)
    where it has no value. *)
Definition math_call (f : F → option F) (x : F) : host_result F :=
  match f x with
  | Some v => inr v
  | None => inl (Python ValueError)
  end.

Record light : Type := Light {
  light_location : list F;
  light_type : string;
  light_color : list F;
  light_energy : F
}.

(** One round: the state is the list of light objects of the scene.
<<
        t = float(i) / float(n)
        pos = (r * sin(TAU * t), r * cos(TAU * t), r * sin(freq * TAU * t))
        bpy.ops.object.add(type='LIGHT', location=pos)
        obj = bpy.context.object
        obj.data.type = 'POINT'
        color = tuple(pow(c, 2.2) for c in colorsys.hsv_to_rgb(t, 0.6, 1))
        obj.data.color = color
        obj.data.energy = energy
>> *)
Definition rainbow_light (r : F) (n : Z) (freq energy : F) (i : Z)
  : hostful (list light) unit :=
  fi ← hlift (py_float i);
  fn ← hlift (py_float n);
  t ← hlift (if bool_decide (n = 0) then inl ZeroDivisionError
             else inr (fdiv fi fn));
  s1 ← hlift (math_call sin (fmul TAU t));
  c1 ← hlift (math_call cos (fmul TAU t));
  s2 ← hlift (math_call sin (fmul (fmul freq TAU) t));
  let pos := [fmul r s1; fmul r c1; fmul r s2] in
  let '(cr, cg, cb) := hsv_to_rgb t (fdiv (f_of_nat 6) (f_of_nat 10)) f1 in
  let color := [pow_2_2 cr; pow_2_2 cg; pow_2_2 cb] in
  hmodify (λ lights, lights ++ [Light pos "POINT" color energy]).

Fixpoint for_each_host {St A : Type} (body : A → hostful St unit) (xs : list A)
  : hostful St unit :=
  match xs with
  | [] => mret tt
  | x :: xs' => _ ← body x; for_each_host body xs'
  end.

(**
<<
def rainbow_lights(r=5, n=100, freq=2, energy=0.1):
    for i in range(n):
        ...
>> *)
Definition rainbow_lights (r : F) (n : Z) (freq energy : F)
  : hostful (list light) unit :=
  for_each_host (rainbow_light r n freq energy) (seqZ 0 n).

(** The value of [t] in round [i]. *)
Definition rainbow_t (n i : Z) : F :=
  fdiv (f_of_nat (Z.to_nat i)) (f_of_nat (Z.to_nat n)).

(** A light as [rainbow_lights] leaves it. *)
Definition rainbow_point (energy : F) (l : light) : Prop :=
  light_type l = "POINT"%string ∧ light_energy l = energy ∧
  length (light_location l) = 3%nat ∧ length (light_color l) = 3%nat.

(** [l] is the light of round [i]: the sines and the cosine are defined
    at the round's angles and give its place. *)
Definition rainbow_light_at (r : F) (n : Z) (freq energy : F) (i : Z)
    (l : light) : Prop :=
  let t := rainbow_t n i in
  ∃ s1 c1 s2,
    sin (fmul TAU t) = Some s1 ∧ cos (fmul TAU t) = Some c1 ∧
    sin (fmul (fmul freq TAU) t) = Some s2 ∧
    l = Light [fmul r s1; fmul r c1; fmul r s2] "POINT"
              (let '(cr, cg, cb) :=
                 hsv_to_rgb t (fdiv (f_of_nat 6) (f_of_nat 10)) f1 in
               [pow_2_2 cr; pow_2_2 cg; pow_2_2 cb])
              energy.
End rainbow_lights.

(** A scene holding one live bmesh with a unit cube at the origin. *)
Definition unit_cube : primitive (H := rational_numpy) := Cube 1%Q [0; 0; 0]%Q.

Definition one_cube_scene : scene (H := rational_numpy) :=
  Scene {[1%positive := BMesh [unit_cube] false false]} [] [] [].

(** A reader of the three numerals of the sample file below. *)
Definition parse_small (s : string) : option (@F rational_numpy) :=
  if String.eqb s "0" then Some 0%Q
  else if String.eqb s "1" then Some 1%Q
  else if String.eqb s "-1" then Some (-1)%Q
  else None.

(** Four rows of a file in the format of [iris.data], and the same rows
    with one measurement that is not a number. *)
Definition four_flowers : matrix string :=
  Matrix 4 5 [["1"; "0"; "0"; "0"; "Iris-setosa"];
              ["-1"; "0"; "0"; "0"; "Iris-setosa"];
              ["0"; "1"; "0"; "0"; "Iris-versicolor"];
              ["0"; "-1"; "0"; "0"; "Iris-virginica"]]%string.

Definition four_flowers_misprint : matrix string :=
  Matrix 4 5 [["1"; "0"; "0"; "0"; "Iris-setosa"];
              ["-1"; "0"; "0"; "0"; "Iris-setosa"];
              ["0"; "1"; "0"; "?"; "Iris-versicolor"];
              ["0"; "-1"; "0"; "0"; "Iris"]]%string.

(** The measurements of [four_flowers]. *)
Definition four_flowers_measurements : matrix (@F rational_numpy) :=
  Matrix 4 4 [[1; 0; 0; 0]; [-1; 0; 0; 0]; [0; 1; 0; 0]; [0; -1; 0; 0]]%Q.

(** What the manual branch returns for [four_flowers]. *)
Definition four_flowers_loaded
  : matrix (@F rational_numpy) * list Z * list string :=
  Eval vm_compute in
    match load_iris_manual parse_small four_flowers with
    | inr loaded => loaded
    | inl _ => (Matrix 0 0 [], [], [])
    end.

(** * Properties *)

(** ** The result monad *)

Lemma rbind_ok {A B : Type} (m : result A) (f : A → result B) (b : B) :
  m ≫= f = inr b ↔ ∃ a, m = inr a ∧ f a = inr b.
Proof.
  destruct m as [e|a]; simpl; split.
  - discriminate.
  - intros (a & Ha & _). discriminate.
  - eauto.
  - intros (a' & Ha & Hf). by simplify_eq.
Qed.

Lemma py_index_nonneg (n : nat) (i : Z) :
  0 ≤ i < Z.of_nat n → py_index n i = ok (Z.to_nat i).
Proof. intros Hi. unfold py_index. by rewrite bool_decide_eq_true_2. Qed.

Lemma py_index_above (n : nat) (i : Z) :
  Z.of_nat n ≤ i → py_index n i = raise IndexError.
Proof.
  intros Hi. unfold py_index.
  rewrite !bool_decide_eq_false_2; [done | lia | lia].
Qed.

(** ** [load_iris] *)

Lemma split_cons (s : string) : ∃ piece pieces, split hyphen s = piece :: pieces.
Proof.
  induction s as [|c s (piece & pieces & IH)]; simpl; [by eauto|].
  case_bool_decide; [by eauto|]. rewrite IH. eauto.
Qed.

Lemma split_hyphen_free (s : string) :
  has_hyphen s = false → split hyphen s = [s].
Proof.
  induction s as [|c s IH]; simpl; [done|].
  intros [Hc Hs]%orb_false_iff.
  apply bool_decide_eq_false in Hc.
  rewrite bool_decide_eq_false_2 by done.
  by rewrite IH.
Qed.

Lemma split_at_first_hyphen (p s : string) :
  has_hyphen p = false →
  split hyphen (String.append p (String hyphen s)) = p :: split hyphen s.
Proof.
  induction p as [|c p IH]; simpl.
  - done.
  - intros [Hc Hp]%orb_false_iff.
    apply bool_decide_eq_false in Hc.
    rewrite bool_decide_eq_false_2 by done.
    by rewrite IH.
Qed.

Lemma class_name_pieces (a b : string) (rest : list string) (field : string) :
  split hyphen field = a :: b :: rest → class_name field = ok b.
Proof.
  intros Hs. unfold class_name, py_getitem. rewrite Hs.
  rewrite py_index_nonneg by (simpl; lia). done.
Qed.

Lemma class_name_no_hyphen (field : string) :
  has_hyphen field = false → class_name field = raise IndexError.
Proof.
  intros Hs. unfold class_name, py_getitem.
  rewrite split_hyphen_free by done.
  by rewrite py_index_above by (simpl; lia).
Qed.

(** The loop, for a column whose fields all have a class name: [labels]
    collects the names in order of first appearance, and the value written
    to [y] at each row is the number of labels collected so far, less
    one. *)
Lemma load_iris_step_ok (st : targets) (field n : string) :
  class_name field = ok n →
  idx st = Z.of_nat (length (labels st)) →
  load_iris_step st field =
    ok (Targets (see (labels st) n)
                (Z.of_nat (length (see (labels st) n)))
                (y st ++ [Z.of_nat (length (see (labels st) n)) - 1])).
Proof.
  intros Hn Hidx. unfold load_iris_step, see. rewrite Hn. simpl.
  case_bool_decide; simpl; rewrite ?length_app, Hidx; simpl; [done|].
  by rewrite Nat2Z.inj_add.
Qed.

Lemma for_each_load_iris_step (column names : list string) (st : targets) :
  mapM class_name column = ok names →
  idx st = Z.of_nat (length (labels st)) →
  for_each load_iris_step column st =
    ok (Targets (foldl see (labels st) names)
                (Z.of_nat (length (foldl see (labels st) names)))
                (y st ++ map (rank_so_far (labels st) names) (seq 0 (length names)))).
Proof.
  revert names st.
  induction column as [|field column IH]; intros names st Hnames Hidx.
  - simpl in Hnames. injection Hnames as <-. simpl.
    rewrite <- Hidx, app_nil_r. by destruct st.
  - simpl in Hnames. unfold ok in Hnames.
    apply rbind_ok in Hnames as (n & Hn & Hnames).
    apply rbind_ok in Hnames as (ns & Hns & Hnames).
    injection Hnames as <-.
    cbn [for_each]. rewrite (load_iris_step_ok st field n) by done.
    simpl (_ ≫= _). rewrite (IH ns) by done.
    cbn [labels y foldl length seq map]. rewrite <- app_assoc.
    do 3 f_equal. simpl. f_equal.
    rewrite <- seq_shift, map_map. by apply map_ext.
Qed.

Lemma load_iris_characterised (column names : list string) :
  mapM class_name column = ok names →
  load_iris column =
    ok (map (rank_so_far [] names) (seq 0 (length names)), first_seen names).
Proof.
  intros Hnames. unfold load_iris.
  by rewrite (for_each_load_iris_step column names).
Qed.

Lemma after_first_hyphen_app (p s : string) :
  has_hyphen p = false →
  after_first_hyphen (String.append p (String hyphen s)) = Some s.
Proof.
  induction p as [|c p IH]; simpl; [done|].
  intros [Hc Hp]%orb_false_iff.
  apply bool_decide_eq_false in Hc.
  rewrite bool_decide_eq_false_2 by done. auto.
Qed.

(** C1, at rows whose classes interleave: the fourth row is a setosa row,
    the class first seen at position 0 of the label list, yet [load_iris]
    gives it the target 2, the position of the class added last. The label
    list is in order of first appearance. *)
Theorem load_iris_interleaved_rows :
  let column := ["x-setosa"; "x-versicolor"; "x-virginica"; "x-setosa"]%string in
  let names := ["setosa"; "versicolor"; "virginica"; "setosa"]%string in
  load_iris column = ok ([0; 1; 2; 2], first_seen names) ∧
  first_seen names = ["setosa"; "versicolor"; "virginica"]%string ∧
  index_of "setosa" (first_seen names) = Some 0%nat.
Proof. repeat split. Qed.

(** A field whose class name itself contains a hyphen: of ["x-a-b"] the
    loop keeps ["a"], while the part after the first hyphen is ["a-b"]. *)
Lemma class_name_cut_at_second_hyphen :
  class_name "x-a-b" = ok "a"%string ∧
  after_first_hyphen "x-a-b" = Some "a-b"%string.
Proof. split; reflexivity. Qed.

(** What [label.split('-')[1]] keeps: the piece between the first hyphen
    and the next one, or the end of the field when there is no other
    hyphen; in that second case it is the whole part after the first
    hyphen. *)
Lemma class_name_between_hyphens (p c : string) :
  has_hyphen p = false →
  has_hyphen c = false →
  (class_name (String.append p (String hyphen c)) = ok c ∧
   after_first_hyphen (String.append p (String hyphen c)) = Some c) ∧
  ∀ r, class_name (String.append p (String hyphen (String.append c (String hyphen r))))
       = ok c.
Proof.
  intros Hp Hc. repeat split.
  - apply (class_name_pieces p c []).
    by rewrite split_at_first_hyphen, split_hyphen_free.
  - by apply after_first_hyphen_app.
  - intros r. destruct (split_cons r) as (piece & pieces & Hr).
    apply (class_name_pieces p c (piece :: pieces)).
    by rewrite !split_at_first_hyphen, Hr.
Qed.

Lemma class_name_between_hyphens_witness :
  (class_name "Iris-setosa" = ok "setosa"%string ∧
   after_first_hyphen "Iris-setosa" = Some "setosa"%string) ∧
  ∀ r, class_name (String.append "Iris-setosa-" r) = ok "setosa"%string.
Proof.
  exact (class_name_between_hyphens "Iris" "setosa" eq_refl eq_refl).
Defined.

(** C2, on class names that contain a hyphen: the fields ["x-a-b"],
    ["x-a-c"] and ["y-a"] have three different parts after the first
    hyphen, ["a-b"], ["a-c"] and ["a"], yet the loop keeps ["a"] of each
    of them, and [load_iris] returns a single class for the three rows. *)
Theorem load_iris_hyphenated_class_names :
  let column := ["x-a-b"; "x-a-c"; "y-a"]%string in
  after_first_hyphen <$> column = [Some "a-b"; Some "a-c"; Some "a"]%string ∧
  mapM class_name column = ok ["a"; "a"; "a"]%string ∧
  load_iris column = ok ([0; 0; 0], ["a"]%string).
Proof. repeat split. Qed.

(** ** Arrays *)

Lemma mapM_ok_Forall2 {A B : Type} (f : A → result B) (l : list A) (k : list B) :
  mapM f l = ok k ↔ Forall2 (λ a b, f a = ok b) l k.
Proof.
  revert k. induction l as [|a l IH]; intros k; simpl.
  - split; [intros [= <-]; constructor | by inversion 1].
  - split.
    + intros (b & Hb & Hk)%rbind_ok. apply rbind_ok in Hk as (k' & Hk' & [= <-]).
      constructor; [done | by apply IH].
    + inversion 1 as [|? b ? k' Hb Hk']; subst.
      apply IH in Hk'. rewrite Hb. simpl. rewrite Hk'. done.
Qed.

Lemma take_items_ok {A : Type} (v : list A) (idx : list nat) (k : list A) :
  take_items v idx = ok k ↔ Forall2 (λ i x, v !! i = Some x) idx k.
Proof.
  unfold take_items. rewrite mapM_ok_Forall2.
  split; intros Hf; eapply Forall2_impl; try exact Hf; simpl; intros i x.
  - destruct (v !! i); [by intros [= ->] | discriminate].
  - by intros ->.
Qed.

Lemma take_items_in_range {A : Type} (v : list A) (idx : list nat) :
  Forall (λ i, i < length v)%nat idx →
  ∃ k, take_items v idx = ok k ∧ length k = length idx.
Proof.
  induction 1 as [|i idx Hi _ (k & Hk & Hlen)].
  - by exists [].
  - destruct (lookup_lt_is_Some_2 v i Hi) as [x Hx].
    exists (x :: k). split; [|simpl; by rewrite Hlen].
    apply take_items_ok. constructor; [done | by apply take_items_ok].
Qed.

Section arrays.
Context `{Numpy}.

Lemma length_column (j : nat) (m : matrix F) :
  length (column j m) = length (rows m).
Proof. unfold column. by rewrite length_map. Qed.

Lemma wf_transpose (m : matrix F) : wf m → wf (transpose m).
Proof.
  intros [Hrows _]. split; simpl.
  - by rewrite length_map, length_seq.
  - apply Forall_forall. intros r (j & -> & _)%list_elem_of_fmap.
    by rewrite length_column.
Qed.

Lemma wf_matmul (a b : matrix F) : wf a → wf (matmul a b).
Proof.
  intros [Hrows _]. split; simpl.
  - by rewrite length_map.
  - apply Forall_forall. intros r (r' & -> & _)%list_elem_of_fmap.
    by rewrite length_map, length_seq.
Qed.

Lemma wf_slice_columns (m : matrix F) (stop : option Z) :
  wf m → wf (slice_columns m stop).
Proof.
  intros [Hrows Hcols]. split; simpl.
  - by rewrite length_map.
  - apply Forall_forall. intros r (r' & -> & Hr')%list_elem_of_fmap.
    rewrite Forall_forall in Hcols. rewrite length_take, (Hcols r' Hr').
    destruct stop as [k|]; simpl; [|lia].
    case_bool_decide; lia.
Qed.

Lemma take_columns_ok (m : matrix F) (idx : list nat) :
  wf m →
  Forall (λ i, i < shape1 m)%nat idx →
  ∃ m', take_columns m idx = ok m' ∧ wf m' ∧
        shape0 m' = shape0 m ∧ shape1 m' = length idx.
Proof.
  intros [Hrows Hcols] Hidx. unfold take_columns.
  assert (∃ rs, mapM (λ r, take_items r idx) (rows m) = ok rs ∧
                length rs = length (rows m) ∧
                Forall (λ r, length r = length idx) rs) as (rs & -> & Hlen & Hrs).
  { clear Hrows. induction Hcols as [|r rs' Hr _ (rs & Hrs & Hlen & Hall)].
    - exists []. by repeat split.
    - destruct (take_items_in_range r idx) as (k & Hk & Hklen).
      { by rewrite Hr. }
      exists (k :: rs). repeat split.
      + apply mapM_ok_Forall2. constructor; [done | by apply mapM_ok_Forall2].
      + simpl. by rewrite Hlen.
      + by constructor. }
  simpl. rewrite bool_decide_eq_true_2 by done.
  eexists. split; [done|]. repeat split; simpl; [congruence | done].
Qed.

Lemma cov_transposes_rows (m : matrix F) :
  shape0 m ≠ 1%nat → cov_transposes m = true.
Proof. intros HN. unfold cov_transposes. by rewrite bool_decide_eq_true_2. Qed.

Lemma shape_cov2d (m : matrix F) :
  cov_transposes m = true → shape1 m ≠ 0%nat →
  shape0 (cov2d m) = shape1 m ∧ shape1 (cov2d m) = shape1 m.
Proof.
  intros HT HD. unfold cov2d. rewrite HT. simpl.
  by rewrite bool_decide_eq_false_2 by done.
Qed.

(** [np.cov] of a single column is a zero-dimensional array, and so is,
    before numpy 2.0, that of a single row. *)
Lemma np_cov_one_column (m : matrix F) :
  cov_transposes m = true → shape1 m = 1%nat → ∃ x, np_cov m = Arr0 x.
Proof.
  intros HT HD. unfold np_cov, squeeze.
  destruct (shape_cov2d m) as [-> ->]; [done | lia |].
  rewrite HD. eauto.
Qed.

Lemma np_cov_not_transposed (m : matrix F) :
  cov_transposes m = false → ∃ x, np_cov m = Arr0 x.
Proof.
  intros HT. unfold np_cov, squeeze, cov2d. rewrite HT.
  apply orb_false_iff in HT as [HN%bool_decide_eq_false _].
  assert (shape0 m = 1%nat) as HN1 by (destruct (decide (shape0 m = 1%nat)); done).
  rewrite bool_decide_eq_false_2 by lia. simpl. rewrite HN1. eauto.
Qed.

Lemma np_cov_matrix (m : matrix F) :
  cov_transposes m = true → (2 ≤ shape1 m)%nat → np_cov m = Arr2 (cov2d m).
Proof.
  intros HT HD. unfold np_cov, squeeze.
  destruct (shape_cov2d m) as [-> ->]; [done | lia |].
  destruct (shape1 m) as [|[|D]]; [lia | lia | done].
Qed.
End arrays.

(** ** [PCA] *)

Section PCA_facts.
Context `{Numpy}.

Local Abbreviation store := (gmap ref (matrix F)).

(** The first statement centres the caller's array in place; what is
    returned is computed from the centred array. *)
Lemma PCA_run (st : store) (data : ref) (d : matrix F) (k : option Z) :
  st !! data = Some d →
  PCA data k st = (<[data := centered d]> st, PCA_value (centered d) k).
Proof.
  intros Hd. unfold PCA, PCA_value, isub_row_vector, centered.
  unfold mbind, stateful_bind, deref, assign, lift, mret, stateful_ret.
  unfold ok, raise, result_bind, rbind.
  rewrite Hd. simpl. rewrite Hd. simpl. rewrite lookup_insert_eq.
  set (c := sub_row_vector d (mean_axis0 d)).
  destruct (linalg_eigh (np_cov c)) as [e|[V E]]; [done|].
  destruct (take_columns E (reverse (argsort V))) as [e|E']; [done|].
  destruct (take_items V (reverse (argsort V))) as [e|V']; [done|].
  by destruct (np_dot _ _) as [e|X].
Qed.

Lemma PCA_unbound (st : store) (data : ref) (k : option Z) :
  st !! data = None → PCA data k st = (st, raise NameError).
Proof.
  intros Hd. unfold PCA.
  unfold mbind, stateful_bind, deref. by rewrite Hd.
Qed.

Lemma wf_centered (d : matrix F) : wf d → wf (centered d).
Proof.
  intros [Hrows Hcols]. split; simpl.
  - by rewrite length_map.
  - apply Forall_forall. intros r (r' & -> & Hr')%list_elem_of_fmap.
    rewrite Forall_forall in Hcols.
    rewrite length_zip_with, (Hcols r' Hr').
    unfold mean_axis0. rewrite length_map, length_seq. lia.
Qed.

Lemma item_centered (d : matrix F) (i j : nat) (x : F) :
  wf d →
  item d i j = Some x →
  item (centered d) i j
    = Some (fsub x (fdiv (fsum (column j d)) (f_of_nat (shape0 d)))).
Proof.
  intros [_ Hcols]. unfold item. simpl.
  destruct (rows d !! i) as [r|] eqn:Hr; simpl; [|done].
  intros Hx. rewrite list_lookup_fmap, Hr. simpl.
  rewrite lookup_zip_with, Hx. simpl.
  assert (j < shape1 d)%nat as Hj.
  { rewrite Forall_forall in Hcols.
    rewrite <- (Hcols r) by (by eapply list_elem_of_lookup_2).
    by eapply lookup_lt_Some. }
  unfold mean_axis0. rewrite list_lookup_fmap, lookup_seq_lt by done. done.
Qed.

Lemma PCA_value_one_column (d : matrix F) (k : option Z) :
  shape1 d = 1%nat → PCA_value d k = raise LinAlgError.
Proof.
  intros HD. unfold PCA_value.
  destruct (cov_transposes d) eqn:HT.
  - by destruct (np_cov_one_column d HT HD) as [x ->].
  - by destruct (np_cov_not_transposed d HT) as [x ->].
Qed.

Lemma PCA_value_not_transposed (d : matrix F) (k : option Z) :
  cov_transposes d = false → PCA_value d k = raise LinAlgError.
Proof.
  intros HT. unfold PCA_value.
  by destruct (np_cov_not_transposed d HT) as [x ->].
Qed.

Lemma PCA_value_no_convergence (d : matrix F) (k : option Z) :
  cov_transposes d = true → (2 ≤ shape1 d)%nat →
  eigh_solver (cov2d d) = None →
  PCA_value d k = raise LinAlgError.
Proof.
  intros HT HD Hs. unfold PCA_value.
  rewrite np_cov_matrix by done. simpl.
  destruct (shape_cov2d d) as [-> ->]; [done | lia |].
  rewrite bool_decide_eq_true_2 by done. by rewrite Hs.
Qed.

Context `{!NumpyContract}.

Lemma argsort_in_range (w : list F) :
  Forall (λ i, i < length w)%nat (reverse (argsort w)).
Proof.
  apply Forall_forall. intros i Hi. rewrite elem_of_reverse in Hi.
  rewrite (argsort_perm w) in Hi.
  by apply elem_of_seq in Hi as [_ Hi].
Qed.

Lemma length_argsort (w : list F) : length (argsort w) = length w.
Proof. by rewrite (argsort_perm w), length_seq. Qed.

(** On at least two columns, and on rows that [np.cov] takes as
    observations, [PCA] returns whenever the eigen-solver converges. *)
Lemma PCA_value_returns (d : matrix F) (k : option Z) (w : list F) (v : matrix F) :
  wf d →
  cov_transposes d = true → (2 ≤ shape1 d)%nat →
  eigh_solver (cov2d d) = Some (w, v) →
  ∃ X V E,
    PCA_value d k = ok (X, V, E) ∧
    take_items w (reverse (argsort w)) = ok V ∧
    length V = shape1 d ∧
    (wf X ∧ shape0 X = shape0 d ∧ shape1 X = slice_stop (shape1 d) k) ∧
    (wf E ∧ shape0 E = shape1 d ∧ shape1 E = slice_stop (shape1 d) k).
Proof.
  intros Hwf HT HD Hs. unfold PCA_value.
  rewrite np_cov_matrix by done. simpl.
  destruct (shape_cov2d d) as [Hc0 Hc1]; [done | lia |].
  rewrite Hc0, Hc1, bool_decide_eq_true_2 by done. rewrite Hs. simpl.
  destruct (eigh_solver_shape _ _ _ Hs) as (Hw & Hv & Hv0 & Hv1).
  rewrite Hc0 in Hw, Hv0, Hv1.
  pose proof (argsort_in_range w) as Hidx.
  destruct (take_columns_ok v (reverse (argsort w))) as (E & -> & HE & HE0 & HE1).
  { done. } { by rewrite Hv1, <- Hw. }
  rewrite length_reverse, length_argsort, Hw in HE1.
  destruct (take_items_in_range w (reverse (argsort w)) Hidx) as (V & HV & HVlen).
  rewrite length_reverse, length_argsort, Hw in HVlen.
  simpl. rewrite HV. simpl.
  unfold np_dot. simpl. rewrite bool_decide_eq_true_2 by congruence. simpl.
  eexists _, V, _. split; [done|]. split; [done|]. split; [done|].
  pose proof (wf_slice_columns E k HE) as HEk.
  split; (split; [|simpl; rewrite ?HE1, ?HE0, ?Hv0; done]).
  - apply wf_transpose, wf_matmul, wf_transpose, HEk.
  - done.
Qed.

(** Conversely, a call that returns had at least two columns to work on,
    rows taken as observations, and a solver that converged. *)
Lemma PCA_value_ok_inv (d : matrix F) (k : option Z) X V E :
  PCA_value d k = ok (X, V, E) →
  cov_transposes d = true ∧ (shape1 d = 0%nat ∨ 2 ≤ shape1 d)%nat ∧
  (shape1 d ≠ 0%nat → ∃ w v, eigh_solver (cov2d d) = Some (w, v)).
Proof.
  intros Hok.
  destruct (cov_transposes d) eqn:HT; [|by rewrite PCA_value_not_transposed in Hok].
  destruct (decide (shape1 d = 1%nat)) as [HD1|HD1].
  { by rewrite PCA_value_one_column in Hok. }
  split; [done|]. split; [lia|]. intros HD0.
  destruct (eigh_solver (cov2d d)) as [[w v]|] eqn:Hs; [by eauto|].
  rewrite PCA_value_no_convergence in Hok by (done || lia). done.
Qed.
End PCA_facts.

(** ** The rational kernel meets the contract *)

Lemma insert_index_perm (key : nat → Q) (i : nat) (l : list nat) :
  insert_index key i l ≡ₚ i :: l.
Proof.
  induction l as [|j l IH]; simpl; [done|].
  destruct (Qle_bool (key i) (key j)); [done|].
  by rewrite IH, Permutation_swap.
Qed.

Lemma insert_index_sorted (key : nat → Q) (i : nat) (l : list nat) :
  Sorted (λ a b, Qle_bool (key a) (key b) = true) l →
  Sorted (λ a b, Qle_bool (key a) (key b) = true) (insert_index key i l).
Proof.
  induction 1 as [|j l Hl IH Hhd]; simpl.
  - by repeat constructor.
  - destruct (Qle_bool (key i) (key j)) eqn:Hij.
    + constructor; [by constructor | by constructor].
    + constructor; [done|].
      assert (Qle_bool (key j) (key i) = true) as Hji.
      { apply Qle_bool_iff. destruct (Qlt_le_dec (key j) (key i)) as [Hlt|Hle].
        - by apply Qlt_le_weak.
        - apply Qle_bool_iff in Hle. congruence. }
      destruct Hhd as [|k l' Hjk]; simpl.
      * by constructor.
      * destruct (Qle_bool (key i) (key k)); by constructor.
  Qed.

Lemma Sorted_adjacent {A : Type} (R : A → A → Prop) (l : list A) (i : nat) (a b : A) :
  Sorted R l → l !! i = Some a → l !! S i = Some b → R a b.
Proof.
  intros Hl. revert i. induction Hl as [|x l Hl IH Hhd]; intros i; [done|].
  destruct i as [|i]; simpl.
  - intros [= ->] Hb. destruct Hhd as [|y l' Hxy]; [done|].
    simpl in Hb. by injection Hb as ->.
  - apply IH.
Qed.

Lemma argsort_Q_sorted (v : list Q) (ks : list nat) :
  Sorted (λ a b, Qle_bool (nth a v 0%Q) (nth b v 0%Q) = true)
         (foldr (insert_index (λ i, nth i v 0%Q)) [] ks).
Proof.
  induction ks as [|k ks IH]; simpl; [constructor|].
  by apply (insert_index_sorted (λ i, nth i v 0%Q)).
Qed.

Lemma argsort_Q_perm (v : list Q) (ks : list nat) :
  foldr (insert_index (λ i, nth i v 0%Q)) [] ks ≡ₚ ks.
Proof.
  induction ks as [|k ks IH]; simpl; [done|].
  by rewrite insert_index_perm, IH.
Qed.

Lemma wf_identity_Q (n : nat) : wf (identity_Q n).
Proof.
  split; simpl.
  - by rewrite length_map, length_seq.
  - apply Forall_forall. intros r (i & -> & _)%list_elem_of_fmap.
    by rewrite length_map, length_seq.
Qed.

#[global] Instance rational_numpy_contract : NumpyContract (H := rational_numpy).
Proof.
  split.
  - intros v. apply argsort_Q_perm.
  - intros v i a b x x' _ Ha Hb Hx Hx'. simpl in *.
    pose proof (Sorted_adjacent _ _ i a b (argsort_Q_sorted v _) Ha Hb) as Hab.
    simpl in Hab.
    by rewrite (nth_lookup_Some v a 0%Q x), (nth_lookup_Some v b 0%Q x') in Hab.
  - intros m w v. simpl. unfold diagonal_eigh.
    destruct (is_diagonal m); [|done]. intros [= <- <-].
    split; [by rewrite length_map, length_seq|].
    split; [apply wf_identity_Q | done].
Qed.

#[global] Instance ascending_pyset_contract : PySetContract (H := ascending_pyset).
Proof.
  split; simpl.
  - intros ys. rewrite merge_sort_Permutation. apply NoDup_elements.
  - intros ys v. rewrite merge_sort_Permutation, elem_of_elements.
    apply elem_of_list_to_set.
Qed.

(** ** What [PCA] returns *)

Section PCA_claims.
Context `{Numpy} `{!NumpyContract}.

Local Abbreviation store := (gmap ref (matrix F)).

Lemma slice_stop_wide (n : nat) (k : Z) :
  Z.of_nat n < k → slice_stop n (Some k) = n.
Proof.
  intros Hk. unfold slice_stop.
  rewrite bool_decide_eq_false_2 by lia. lia.
Qed.

Lemma slice_stop_within (n : nat) (k : Z) :
  1 ≤ k ≤ Z.of_nat n → Z.of_nat (slice_stop n (Some k)) = k.
Proof.
  intros Hk. unfold slice_stop.
  rewrite bool_decide_eq_false_2 by lia. lia.
Qed.

Lemma PCA_value_eigenvalues (d : matrix F) (k : option Z) X V E :
  PCA_value d k = ok (X, V, E) →
  ∃ w, take_items w (reverse (argsort w)) = ok V.
Proof.
  unfold PCA_value, ok. intros Hok.
  apply rbind_ok in Hok as ([w v] & _ & Hok).
  apply rbind_ok in Hok as (E' & _ & Hok).
  apply rbind_ok in Hok as (V' & HV & Hok).
  apply rbind_ok in Hok as (X' & _ & Hok).
  injection Hok as _ <- _. by exists w.
Qed.

Lemma take_items_argsort_non_increasing (w V : list F) :
  Forall is_number w →
  take_items w (reverse (argsort w)) = ok V → non_increasing V.
Proof.
  intros Hw HV%take_items_ok i x x' Hx Hx'.
  destruct (Forall2_lookup_r _ _ _ _ _ HV Hx) as (a & Ha & Hwa).
  destruct (Forall2_lookup_r _ _ _ _ _ HV Hx') as (b & Hb & Hwb).
  apply reverse_lookup_Some in Ha as [Ha Hi].
  apply reverse_lookup_Some in Hb as [Hb Hi'].
  apply (argsort_ascending w (length (argsort w) - S (S i)) b a); [done|done| |done|done].
  by replace (S (length (argsort w) - S (S i))) with (length (argsort w) - S i)%nat by lia.
Qed.

Lemma Forall2_lookup_perm {A : Type} (w : list A) (l l' : list nat) (k : list A) :
  l ≡ₚ l' →
  Forall2 (λ i x, w !! i = Some x) l k →
  ∃ k', k ≡ₚ k' ∧ Forall2 (λ i x, w !! i = Some x) l' k'.
Proof.
  intros Hperm. revert k.
  induction Hperm as [|i l l' _ IH|i j l|l l' l'' _ IH1 _ IH2]; intros k Hk.
  - exists k. by inversion Hk.
  - inversion Hk as [|? x ? k0 Hx Hk0]; subst.
    destruct (IH k0 Hk0) as (k' & Hperm' & Hk').
    exists (x :: k'). split; [by constructor | by constructor].
  - inversion Hk as [|? x ? k0 Hx Hk0]; subst.
    inversion Hk0 as [|? x' ? k1 Hx' Hk1]; subst.
    exists (x' :: x :: k1). split; [by constructor | by repeat constructor].
  - destruct (IH1 k Hk) as (k' & Hperm' & Hk').
    destruct (IH2 k' Hk') as (k'' & Hperm'' & Hk'').
    exists k''. split; [by etrans | done].
Qed.

(** The eigenvalues returned are those of the solver, rearranged. *)
Lemma take_items_argsort_perm (w V : list F) :
  take_items w (reverse (argsort w)) = ok V → V ≡ₚ w.
Proof.
  intros HV%take_items_ok.
  destruct (Forall2_lookup_perm w (reverse (argsort w)) (seq 0 (length w)) V)
    as (V' & Hperm & HV'); [|done|].
  { by rewrite reverse_Permutation, (argsort_perm w). }
  rewrite Hperm. replace V' with w; [done|].
  apply list_eq. intros i.
  pose proof (Forall2_length _ _ _ HV') as Hlen. rewrite length_seq in Hlen.
  destruct (decide (i < length w)%nat) as [Hi|Hi].
  - destruct (lookup_lt_is_Some_2 V' i) as [x Hx]; [lia|].
    pose proof (Forall2_lookup_lr _ _ _ i i x HV' (lookup_seq_lt 0 _ _ Hi) Hx) as Hw.
    simpl in Hw. by rewrite Hx.
  - by rewrite !lookup_ge_None_2 by lia.
Qed.

Lemma same_up_to_sign_refl (r : result (matrix F * list F * matrix F)) :
  same_up_to_sign r r.
Proof.
  destruct r as [e|[[X V] E]]; simpl; [done|].
  repeat split. intros j. by left.
Qed.

(** C3, amended: on an array of at least two rows and two columns on
    which the eigen-solver converges, a request for more components than
    there are columns raises nothing and yields a projection exactly as
    wide as the input, along the full square basis. *)
Theorem PCA_wide_request (st : store) (data : ref) (d : matrix F) (k : Z)
    (w : list F) (v : matrix F) :
  st !! data = Some d →
  wf d →
  (2 ≤ shape0 d)%nat → (2 ≤ shape1 d)%nat →
  Z.of_nat (shape1 d) < k →
  eigh_solver (cov2d (centered d)) = Some (w, v) →
  ∃ X V E,
    (PCA data (Some k) st).2 = ok (X, V, E) ∧
    (wf X ∧ shape0 X = shape0 d ∧ shape1 X = shape1 d) ∧
    (wf E ∧ shape0 E = shape1 d ∧ shape1 E = shape1 d).
Proof.
  intros Hd Hwf HN HD Hk Hs. rewrite (PCA_run st data d) by done. simpl.
  destruct (PCA_value_returns (centered d) (Some k) w v)
    as (X & V & E & -> & _ & _ & HX & HE);
    [by apply wf_centered | apply cov_transposes_rows; simpl; lia | done..|].
  change (shape0 (centered d)) with (shape0 d) in HX.
  change (shape1 (centered d)) with (shape1 d) in HX, HE.
  rewrite slice_stop_wide in HX, HE by done.
  by exists X, V, E.
Qed.

(** Whatever [PCA] returns as projected matrix for 1 <= k <= D has N rows
    of k entries. *)
Lemma PCA_returned_projection_shape (st : store) (data : ref) (d : matrix F)
    (k : Z) X V E :
  st !! data = Some d →
  wf d →
  shape0 d ≠ 0%nat →
  1 ≤ k ≤ Z.of_nat (shape1 d) →
  (PCA data (Some k) st).2 = ok (X, V, E) →
  wf X ∧ shape0 X = shape0 d ∧ Z.of_nat (shape1 X) = k.
Proof.
  intros Hd Hwf HN Hk. rewrite (PCA_run st data d) by done. simpl.
  pose proof (wf_centered d Hwf) as Hc. intros Hok.
  destruct (PCA_value_ok_inv (centered d) (Some k) X V E Hok)
    as (HT & [HD0|HD2] & Hs); [simpl in HD0; lia|].
  destruct Hs as (w & v & Hs); [simpl; lia|].
  destruct (PCA_value_returns (centered d) (Some k) w v)
    as (X' & V' & E' & Hok' & _ & _ & (HX & HX0 & HX1) & _); [done..|].
  rewrite Hok in Hok'. injection Hok' as <- <- <-.
  change (shape0 (centered d)) with (shape0 d) in HX0.
  change (shape1 (centered d)) with (shape1 d) in HX1.
  rewrite HX1. by rewrite slice_stop_within.
Qed.

(** C5, amended: on an array of N >= 2 rows and D >= 2 columns on which
    the eigen-solver converges, and for 1 <= k <= D, [PCA] returns, and
    the projected matrix it returns has exactly N rows of k entries. *)
Theorem PCA_projection_shape (st : store) (data : ref) (d : matrix F) (k : Z)
    (w : list F) (v : matrix F) :
  st !! data = Some d →
  wf d →
  (2 ≤ shape0 d)%nat → (2 ≤ shape1 d)%nat →
  1 ≤ k ≤ Z.of_nat (shape1 d) →
  eigh_solver (cov2d (centered d)) = Some (w, v) →
  ∃ X V E,
    (PCA data (Some k) st).2 = ok (X, V, E) ∧
    wf X ∧ shape0 X = shape0 d ∧ Z.of_nat (shape1 X) = k.
Proof.
  intros Hd Hwf HN HD Hk Hs. rewrite (PCA_run st data d) by done. simpl.
  destruct (PCA_value_returns (centered d) (Some k) w v)
    as (X & V & E & -> & _ & _ & (HX & HX0 & HX1) & _);
    [by apply wf_centered | apply cov_transposes_rows; simpl; lia | done..|].
  change (shape0 (centered d)) with (shape0 d) in HX0.
  change (shape1 (centered d)) with (shape1 d) in HX1.
  exists X, V, E. split; [done|]. split; [done|]. split; [done|].
  rewrite HX1. by rewrite slice_stop_within.
Qed.

(** C6, amended: on an array of at least two rows and two columns on
    which the eigen-solver converges to eigenvalues none of which is
    NaN, [PCA] returns the eigenvalue vector: the solver's eigenvalues
    rearranged, one for each column, in non-increasing order,
    [V[i] >= V[i+1]] at every adjacent pair. *)
Theorem PCA_eigenvalues_non_increasing (st : store) (data : ref) (d : matrix F)
    (k : option Z) (w : list F) (v : matrix F) :
  st !! data = Some d →
  wf d →
  (2 ≤ shape0 d)%nat → (2 ≤ shape1 d)%nat →
  eigh_solver (cov2d (centered d)) = Some (w, v) →
  Forall is_number w →
  ∃ X V E,
    (PCA data k st).2 = ok (X, V, E) ∧
    V ≡ₚ w ∧ length V = shape1 d ∧ non_increasing V.
Proof.
  intros Hd Hwf HN HD Hs Hw. rewrite (PCA_run st data d) by done. simpl.
  destruct (PCA_value_returns (centered d) k w v)
    as (X & V & E & -> & HV & Hlen & _);
    [by apply wf_centered | apply cov_transposes_rows; simpl; lia | done..|].
  exists X, V, E. split; [done|].
  split; [by apply take_items_argsort_perm|].
  split; [done|].
  by apply (take_items_argsort_non_increasing w).
Qed.

(** C8: two calls on arrays holding equal values, with the same number
    of components, have the same outcome (hence the same outcome up to
    the sign of each axis) and leave the same values in their arrays,
    whatever else the two stores hold. *)
Theorem PCA_deterministic (st1 st2 : store) (data1 data2 : ref) (d : matrix F)
    (k : option Z) :
  st1 !! data1 = Some d →
  st2 !! data2 = Some d →
  (PCA data1 k st1).2 = (PCA data2 k st2).2 ∧
  (PCA data1 k st1).1 !! data1 = (PCA data2 k st2).1 !! data2 ∧
  same_up_to_sign (PCA data1 k st1).2 (PCA data2 k st2).2.
Proof.
  intros Hd1 Hd2.
  rewrite (PCA_run st1 data1 d), (PCA_run st2 data2 d) by done. simpl.
  rewrite !lookup_insert_eq. repeat split. apply same_up_to_sign_refl.
Qed.

(** C9: after the call the caller's array holds, entry by entry, the
    original value minus the mean of its column; it keeps its shape,
    and every other array of the store is as it was. This holds whether
    the call returns or raises past its first statement. *)
Theorem PCA_centres_in_place (st : store) (data : ref) (d : matrix F)
    (k : option Z) :
  st !! data = Some d →
  wf d →
  ∃ d',
    (PCA data k st).1 = <[data := d']> st ∧
    (wf d' ∧ shape0 d' = shape0 d ∧ shape1 d' = shape1 d) ∧
    ∀ i j x, item d i j = Some x →
             item d' i j
               = Some (fsub x (fdiv (fsum (column j d)) (f_of_nat (shape0 d)))).
Proof.
  intros Hd Hwf. exists (centered d).
  rewrite (PCA_run st data d) by done. simpl.
  split; [done|]. split; [by split; [apply wf_centered|]|].
  intros i j x. by apply item_centered.
Qed.
End PCA_claims.

(** ** [PCA] on the sample inputs *)

Lemma wf_square_corners : wf square_corners.
Proof. split; [reflexivity | by repeat constructor]. Defined.

Lemma wf_rectangle_corners : wf rectangle_corners.
Proof. split; [reflexivity | by repeat constructor]. Defined.

(** C3 fails on a single column: [np.cov] squeezes the 1-by-1 covariance
    to a zero-dimensional array, which [np.linalg.eigh] rejects, so a
    request for two components of a 2-by-1 array raises. *)
Lemma PCA_wide_request_single_column :
  (PCA (H := rational_numpy) 1%positive (Some 2) (bound single_column)).2
    = raise LinAlgError.
Proof. vm_compute. reflexivity. Qed.

Lemma PCA_wide_request_witness :
  ∃ X V E,
    (PCA 1%positive (Some 5) (bound square_corners)).2 = ok (X, V, E) ∧
    (wf X ∧ shape0 X = 4%nat ∧ shape1 X = 2%nat) ∧
    (wf E ∧ shape0 E = 2%nat ∧ shape1 E = 2%nat).
Proof.
  eapply (PCA_wide_request (bound square_corners) 1%positive square_corners 5).
  - reflexivity.
  - exact wf_square_corners.
  - simpl; lia.
  - simpl; lia.
  - simpl; lia.
  - reflexivity.
Defined.

(** C5 fails on a single column: for the 2-by-1 array and k = 1 the call
    raises and there is no projected matrix. *)
Lemma PCA_projection_shape_single_column :
  (1 ≤ 1 ≤ Z.of_nat (shape1 single_column)) ∧
  (PCA (H := rational_numpy) 1%positive (Some 1) (bound single_column)).2
    = raise LinAlgError.
Proof. split; [simpl; lia | vm_compute; reflexivity]. Qed.

Lemma PCA_projection_shape_witness :
  ∃ X V E,
    (PCA 1%positive (Some 1) (bound rectangle_corners)).2 = ok (X, V, E) ∧
    wf X ∧ shape0 X = 4%nat ∧ Z.of_nat (shape1 X) = 1.
Proof.
  eapply (PCA_projection_shape (bound rectangle_corners) 1%positive
            rectangle_corners 1).
  - reflexivity.
  - exact wf_rectangle_corners.
  - simpl; lia.
  - simpl; lia.
  - simpl; lia.
  - reflexivity.
Defined.

(** The solver lists the variances of the rectangle in ascending order,
    4/3 then 16/3; [PCA] returns them in descending order. *)
Lemma rectangle_eigenvalues_ascending :
  Forall2 Qeq rectangle_eigenvalues [4 # 3; 16 # 3]%Q.
Proof. repeat constructor. Qed.

Lemma PCA_rectangle_eigenvalues :
  ∃ X V E,
    (PCA 1%positive None (bound rectangle_corners)).2 = ok (X, V, E) ∧
    Forall2 Qeq V [16 # 3; 4 # 3]%Q.
Proof. eexists _, _, _. split; [reflexivity|]. repeat constructor. Qed.

(** C6 fails on a single column: the call on the 2-by-1 array raises and
    returns no eigenvalue vector. *)
Lemma PCA_eigenvalues_single_column :
  (PCA (H := rational_numpy) 1%positive None (bound single_column)).2
    = raise LinAlgError.
Proof. vm_compute. reflexivity. Qed.

Lemma PCA_eigenvalues_non_increasing_witness :
  ∃ X V E,
    (PCA 1%positive None (bound rectangle_corners)).2 = ok (X, V, E) ∧
    V ≡ₚ rectangle_eigenvalues ∧ length V = 2%nat ∧ non_increasing V.
Proof.
  eapply (PCA_eigenvalues_non_increasing (bound rectangle_corners) 1%positive
            rectangle_corners None rectangle_eigenvalues).
  - reflexivity.
  - exact wf_rectangle_corners.
  - simpl; lia.
  - simpl; lia.
  - reflexivity.
  - repeat constructor.
Defined.

Lemma PCA_deterministic_witness :
  let st1 := bound square_corners in
  let st2 := <[2%positive := square_corners]> (bound single_row) in
  (PCA 1%positive (Some 1) st1).2 = (PCA 2%positive (Some 1) st2).2 ∧
  (PCA 1%positive (Some 1) st1).1 !! 1%positive
    = (PCA 2%positive (Some 1) st2).1 !! 2%positive ∧
  same_up_to_sign (PCA 1%positive (Some 1) st1).2 (PCA 2%positive (Some 1) st2).2.
Proof.
  intros st1 st2.
  apply (PCA_deterministic st1 st2 1%positive 2%positive square_corners (Some 1));
    reflexivity.
Defined.

Lemma PCA_centres_in_place_witness :
  ∃ d',
    (PCA 1%positive (Some 1) (bound square_corners)).1
      = <[1%positive := d']> (bound square_corners) ∧
    (wf d' ∧ shape0 d' = 4%nat ∧ shape1 d' = 2%nat) ∧
    ∀ i j x, item square_corners i j = Some x →
             item d' i j
               = Some (fsub x (fdiv (fsum (column j square_corners)) (f_of_nat 4))).
Proof.
  apply (PCA_centres_in_place (bound square_corners) 1%positive square_corners
           (Some 1)).
  - reflexivity.
  - exact wf_square_corners.
Defined.

(** ** [create_scatter] *)

Section create_scatter_facts.
Context `{Numpy}.

Lemma on_bmesh_ok (w : world) (label_idx : Z) (op : bmesh → result bmesh)
    (bm bm' : bmesh) :
  0 ≤ label_idx < Z.of_nat (length (bm_list w)) →
  bm_list w !! Z.to_nat label_idx = Some bm →
  op bm = ok bm' →
  on_bmesh label_idx op w
    = (set_bm_list (<[Z.to_nat label_idx := bm']> (bm_list w)) w, ok bm').
Proof.
  intros Hl Hbm Hop. unfold on_bmesh.
  rewrite py_index_nonneg by done. unfold ok. by rewrite Hbm, Hop.
Qed.

Lemma on_bmesh_out_of_range (w : world) (label_idx : Z) (op : bmesh → result bmesh) :
  Z.of_nat (length (bm_list w)) ≤ label_idx →
  on_bmesh label_idx op w = (w, raise IndexError).
Proof.
  intros Hl. unfold on_bmesh. by rewrite py_index_above.
Qed.

Lemma matrix_translation_ok (x : list F) :
  length x = 3%nat ∨ length x = 4%nat → matrix_translation x = ok x.
Proof. intros Hx. unfold matrix_translation. by rewrite bool_decide_eq_true_2. Qed.

(** One data point of three or four coordinates whose label is a valid
    position of [bm_list]: a primitive goes to the bmesh at that position,
    nothing else moves. *)
Lemma add_point_ok (size : F) (x : list F) (label_idx : Z) (w : world) (bm : bmesh) :
  length x = 3%nat ∨ length x = 4%nat →
  0 ≤ label_idx < Z.of_nat (length (bm_list w)) →
  bm_list w !! Z.to_nat label_idx = Some bm →
  freed bm = false →
  ∃ p, add_point size (x, label_idx) w
       = (set_bm_list (<[Z.to_nat label_idx :=
                           BMesh (geometry bm ++ [p]) (converted bm) false]>
                         (bm_list w)) w,
          ok tt).
Proof.
  intros Hx Hl Hbm Hfreed. unfold add_point.
  assert (∀ p, bmesh_add p bm = ok (BMesh (geometry bm ++ [p]) (converted bm) false))
    as Hadd.
  { intros p. unfold bmesh_add. by rewrite Hfreed. }
  rewrite matrix_translation_ok by done.
  unfold mbind, stateful_bind, lift, ok.
  repeat case_bool_decide; eexists;
    by rewrite (on_bmesh_ok w label_idx _ bm _ Hl Hbm (Hadd _)).
Qed.

(** A data point whose label is not below the number of bmeshes. *)
Lemma add_point_out_of_range (size : F) (x : list F) (label_idx : Z) (w : world) :
  length x = 3%nat ∨ length x = 4%nat →
  Z.of_nat (length (bm_list w)) ≤ label_idx →
  add_point size (x, label_idx) w = (w, raise IndexError).
Proof.
  intros Hx Hl. unfold add_point. rewrite matrix_translation_ok by done.
  unfold mbind, stateful_bind, lift, ok.
  repeat case_bool_decide; by rewrite on_bmesh_out_of_range.
Qed.

(** The first loop, when every point has three or four coordinates and
    every label is a valid position: all bmeshes stay pending and the host
    data is not touched. *)
Lemma for_each_add_point (size : F) (ps : list (list F * Z)) (w : world) :
  Forall (λ p, (length p.1 = 3%nat ∨ length p.1 = 4%nat) ∧
               0 ≤ p.2 < Z.of_nat (length (bm_list w))) ps →
  Forall pending (bm_list w) →
  ∃ w', for_each_st (add_point size) ps w = (w', ok tt) ∧
        length (bm_list w') = length (bm_list w) ∧
        Forall pending (bm_list w') ∧
        same_data w w'.
Proof.
  revert w. induction ps as [|[x l] ps IH]; intros w Hps Hpend.
  - exists w. by repeat split.
  - inversion Hps as [|? ? [Hx Hl] Hps']; subst. simpl in Hx, Hl.
    destruct (lookup_lt_is_Some_2 (bm_list w) (Z.to_nat l)) as [bm Hbm]; [lia|].
    assert (pending bm) as [Hconv Hfreed].
    { rewrite Forall_forall in Hpend. apply Hpend.
      by eapply list_elem_of_lookup_2. }
    destruct (add_point_ok size x l w bm Hx Hl Hbm Hfreed) as [p Hstep].
    cbn [for_each_st]. unfold mbind at 1, stateful_bind at 1. rewrite Hstep.
    set (w1 := set_bm_list _ w).
    assert (length (bm_list w1) = length (bm_list w)) as Hlen.
    { unfold w1. simpl. by rewrite length_insert. }
    destruct (IH w1) as (w' & Hrun & Hlen' & Hpend' & Hsame).
    + by rewrite Hlen.
    + unfold w1. simpl. apply Forall_insert; [done|]. by split.
    + exists w'. split; [done|]. split; [congruence|]. split; [done|].
      destruct Hsame as (? & ? & ? & ?). by repeat split.
Qed.

Lemma alter_last {A : Type} (f : A → A) (l : list A) (x : A) :
  alter f (pred (length (l ++ [x]))) (l ++ [x]) = l ++ [f x].
Proof.
  rewrite length_app. simpl. rewrite Nat.add_1_r. simpl.
  rewrite <- (Nat.add_0_r (length l)). by rewrite alter_app_r.
Qed.

(** One round of the second loop on a bmesh that has not been freed. *)
Lemma add_object_ok (label_idx : Z) (c : color) (w : world) (bm : bmesh) :
  0 ≤ label_idx < Z.of_nat (length (bm_list w)) →
  bm_list w !! Z.to_nat label_idx = Some bm →
  freed bm = false →
  add_object (label_idx, c) w
    = (World (<[Z.to_nat label_idx := BMesh (geometry bm) true true]> (bm_list w))
             (meshes w ++ [Mesh ("ScatterMesh"%string, label_idx) (geometry bm)
                                [("ScatterMaterial"%string, label_idx)]])
             (objects w ++ [scatter_object label_idx])
             (materials w ++ [scatter_material (label_idx, c)])
             (collection w ++ [("ScatterObject"%string, label_idx)]),
       ok (scatter_object label_idx)).
Proof.
  intros Hl Hbm Hfreed. unfold add_object.
  unfold mbind, stateful_bind, modify. simpl.
  rewrite (on_bmesh_ok _ label_idx bmesh_to_mesh bm (BMesh (geometry bm) true false));
    [|done|done|by unfold bmesh_to_mesh; rewrite Hfreed].
  simpl.
  rewrite (on_bmesh_ok _ label_idx bmesh_free (BMesh (geometry bm) true false)
             (BMesh (geometry bm) true true));
    [|by simpl; rewrite length_insert
     |by simpl; apply list_lookup_insert_eq, Nat2Z.inj_lt; lia
     |done].
  simpl. unfold mesh_fill, materials_new_appended, objects_new_linked,
    set_bm_list, meshes_new, mret, stateful_ret. simpl.
  rewrite list_insert_insert_eq, !alter_last. done.
Qed.

(** The second loop over distinct labels that are valid positions of
    bmeshes not yet freed: one mesh, one linked object and one material
    per label, in order; the bmesh of each label ends released and no
    other bmesh is touched. *)
Lemma add_objects_ok (ps : list (Z * color)) (w : world) :
  NoDup ps.*1 →
  Forall (λ l, 0 ≤ l < Z.of_nat (length (bm_list w))) ps.*1 →
  (∀ l bm, l ∈ ps.*1 → bm_list w !! Z.to_nat l = Some bm → freed bm = false) →
  ∃ w',
    add_objects ps w = (w', ok (scatter_object <$> ps.*1)) ∧
    length (bm_list w') = length (bm_list w) ∧
    objects w' = objects w ++ (scatter_object <$> ps.*1) ∧
    materials w' = materials w ++ (scatter_material <$> ps) ∧
    collection w' = collection w ++ (object_name <$> (scatter_object <$> ps.*1)) ∧
    mesh_name <$> meshes w'
      = (mesh_name <$> meshes w) ++ ((λ l, ("ScatterMesh"%string, l)) <$> ps.*1) ∧
    (∀ j, j ∉ Z.to_nat <$> ps.*1 → bm_list w' !! j = bm_list w !! j) ∧
    (∀ l, l ∈ ps.*1 → ∃ bm, bm_list w' !! Z.to_nat l = Some bm ∧ released bm).
Proof.
  revert w. induction ps as [|[l c] ps IH]; intros w Hnd Hrange Hfreed.
  - exists w. simpl. rewrite !app_nil_r. repeat split; try done.
    intros l Hl. by apply elem_of_nil in Hl.
  - simpl in Hnd, Hrange.
    apply NoDup_cons in Hnd as [Hl_new Hnd].
    apply Forall_cons in Hrange as [Hl Hrange].
    destruct (lookup_lt_is_Some_2 (bm_list w) (Z.to_nat l)) as [bm Hbm]; [lia|].
    assert (freed bm = false) as Hbm_freed.
    { apply (Hfreed l bm); [simpl; left | done]. }
    pose proof (add_object_ok l c w bm Hl Hbm Hbm_freed) as Hstep.
    set (w1 := World _ _ _ _ _) in Hstep.
    assert (length (bm_list w1) = length (bm_list w)) as Hlen1.
    { unfold w1. simpl. by rewrite length_insert. }
    assert (∀ l', l' ∈ ps.*1 → Z.to_nat l' ≠ Z.to_nat l) as Hother.
    { intros l' Hl' Heq. rewrite Forall_forall in Hrange.
      specialize (Hrange l' Hl'). assert (l' = l) as -> by lia. done. }
    destruct (IH w1) as (w' & Hrun & Hlen & Hobjs & Hmats & Hcoll & Hmeshes & Hframe & Hrel).
    + done.
    + by rewrite Hlen1.
    + intros l' bm' Hl' Hbm'. apply (Hfreed l' bm'); [simpl; by right|].
      unfold w1 in Hbm'. simpl in Hbm'.
      rewrite list_lookup_insert_ne in Hbm'; [done|]. intros Heq.
      by apply (Hother l' Hl').
    + exists w'. cbn [add_objects]. unfold mbind at 1, stateful_bind at 1.
      rewrite Hstep. unfold mbind at 1, stateful_bind at 1. rewrite Hrun.
      split; [done|]. split; [congruence|].
      unfold w1 in Hobjs, Hmats, Hcoll, Hmeshes. simpl in Hobjs, Hmats, Hcoll, Hmeshes.
      split; [by rewrite Hobjs, <- app_assoc|].
      split; [by rewrite Hmats, <- app_assoc|].
      split; [by rewrite Hcoll, <- app_assoc|].
      split; [by rewrite Hmeshes, fmap_app, <- app_assoc|].
      split.
      * intros j Hj. simpl in Hj. apply not_elem_of_cons in Hj as [Hjl Hj].
        rewrite (Hframe j Hj). unfold w1. simpl.
        by rewrite list_lookup_insert_ne.
      * intros l' Hl'. simpl in Hl'. apply elem_of_cons in Hl' as [->|Hl'].
        -- exists (BMesh (geometry bm) true true). split; [|done].
           rewrite Hframe.
           ++ unfold w1. simpl. apply list_lookup_insert_eq. lia.
           ++ intros (l' & Heq & Hl')%list_elem_of_fmap.
              by apply (Hother l' Hl').
        -- by apply Hrel.
Qed.
End create_scatter_facts.

Section create_scatter_claims.
Context `{Numpy} `{PySet} `{!PySetContract}.

(** Labels that form the range 0 .. m-1 give a set of m elements. *)
Lemma set_iter_range (y : list Z) (m : nat) :
  (∀ v, v ∈ y ↔ 0 ≤ v < Z.of_nat m) →
  length (set_iter y) = m ∧
  Forall (λ l, 0 ≤ l < Z.of_nat m) (set_iter y).
Proof.
  intros Hy. split.
  - transitivity (length (Z.of_nat <$> seq 0 m));
      [|by rewrite length_fmap, length_seq].
    apply Permutation_length, NoDup_Permutation.
    + apply set_iter_NoDup.
    + apply (NoDup_fmap_2 _), NoDup_seq.
    + intros v. rewrite set_iter_elem, Hy, list_elem_of_fmap. split.
      * intros Hv. exists (Z.to_nat v). split; [lia|]. apply elem_of_seq. lia.
      * intros (n & -> & Hn%elem_of_seq). lia.
  - apply Forall_forall. intros l Hl. by apply Hy, set_iter_elem.
Qed.

Lemma fst_zip_colors (ls : list Z) :
  (6 < length ls)%nat → (zip ls colors).*1 = take 6 ls.
Proof.
  intros Hlen.
  do 7 (destruct ls as [|? ls]; [simpl in Hlen; lia|]). done.
Qed.

Lemma zip_colors_take (ls : list Z) :
  (6 < length ls)%nat → zip ls colors = zip (take 6 ls) colors.
Proof.
  intros Hlen.
  do 7 (destruct ls as [|? ls]; [simpl in Hlen; lia|]). done.
Qed.

(** C10, amended: when the labels are exactly 0, 1, ..., m-1 with
    m > 6, [create_scatter] raises nothing; it makes one mesh, one linked
    object and one material for each of the first six labels of the
    set's iteration order and releases their bmeshes; each of the
    remaining m - 6 labels gets no object and no material, and its
    bmesh is left neither converted nor freed. The points are vectors of
    three (or four) coordinates, as [Matrix.Translation] wants. *)
Theorem create_scatter_first_six (X : list (list F)) (y : list Z) (size : F)
    (w : world) (m : nat) :
  Forall (λ x, length x = 3%nat ∨ length x = 4%nat) X →
  (∀ v, v ∈ y ↔ 0 ≤ v < Z.of_nat m) →
  (6 < m)%nat →
  let kept := take 6 (set_iter y) in
  let dropped := drop 6 (set_iter y) in
  ∃ w',
    create_scatter X y size w = (w', ok (scatter_object <$> kept)) ∧
    (length kept = 6%nat ∧ length dropped = (m - 6)%nat) ∧
    objects w' = objects w ++ (scatter_object <$> kept) ∧
    materials w' = materials w ++ (scatter_material <$> zip kept colors) ∧
    mesh_name <$> meshes w'
      = (mesh_name <$> meshes w) ++ ((λ l, ("ScatterMesh"%string, l)) <$> kept) ∧
    (∀ l, l ∈ kept → ∃ bm, bm_list w' !! Z.to_nat l = Some bm ∧ released bm) ∧
    (∀ l, l ∈ dropped →
          (l ∉ kept) ∧ ∃ bm, bm_list w' !! Z.to_nat l = Some bm ∧ pending bm).
Proof.
  intros HX Hy Hm kept dropped.
  destruct (set_iter_range y m Hy) as [Hlen Hrange].
  unfold create_scatter.
  unfold mbind at 1, stateful_bind at 1, modify.
  set (w0 := set_bm_list _ w).
  assert (length (bm_list w0) = m) as Hlen0.
  { unfold w0. simpl. by rewrite length_map. }
  destruct (for_each_add_point size (zip X y) w0)
    as (w1 & Hloop1 & Hlen1 & Hpend1 & Hm1 & Ho1 & Hmat1 & Hc1).
  { apply Forall_forall. intros [x l] Hp. rewrite Hlen0. simpl. split.
    - rewrite Forall_forall in HX. by apply HX, (elem_of_zip_l x l X y).
    - by apply Hy, (elem_of_zip_r x l X y). }
  { unfold w0. simpl. apply Forall_forall.
    by intros bm (l & -> & _)%list_elem_of_fmap. }
  rewrite Hlen0 in Hlen1.
  unfold mbind at 1, stateful_bind at 1. rewrite Hloop1.
  pose proof (set_iter_NoDup y) as Hnd.
  rewrite <- (take_drop 6 (set_iter y)) in Hnd, Hrange.
  fold kept dropped in Hnd, Hrange.
  apply NoDup_app in Hnd as (Hnd_kept & Hdisjoint & _).
  apply Forall_app in Hrange as [Hrange_kept Hrange_dropped].
  destruct (add_objects_ok (zip (set_iter y) colors) w1)
    as (w' & Hloop2 & Hlen2 & Hobjs & Hmats & Hcoll & Hmeshes & Hframe & Hrel).
  { rewrite fst_zip_colors by lia. done. }
  { rewrite fst_zip_colors, Hlen1 by lia. done. }
  { intros l bm _ Hbm. rewrite Forall_forall in Hpend1.
    by apply (Hpend1 bm), (list_elem_of_lookup_2 _ (Z.to_nat l)). }
  rewrite fst_zip_colors in Hloop2, Hobjs, Hmeshes, Hframe, Hrel by lia.
  rewrite zip_colors_take in Hmats by lia.
  fold kept in Hloop2, Hobjs, Hmeshes, Hframe, Hrel, Hmats.
  exists w'. split; [done|].
  split.
  { unfold kept, dropped. rewrite length_take, length_drop. lia. }
  unfold w0 in Ho1, Hmat1, Hm1. simpl in Ho1, Hmat1, Hm1.
  split; [by rewrite Hobjs, Ho1|].
  split; [by rewrite Hmats, Hmat1|].
  split; [by rewrite Hmeshes, Hm1|].
  split; [done|].
  intros l Hl.
  assert (l ∉ kept) as Hl_kept by (intros Hk; by apply (Hdisjoint l Hk)).
  split; [done|].
  rewrite Forall_forall in Hrange_dropped, Hrange_kept.
  pose proof (Hrange_dropped l Hl) as Hl_range.
  destruct (lookup_lt_is_Some_2 (bm_list w1) (Z.to_nat l)) as [bm Hbm]; [lia|].
  exists bm. split.
  - rewrite Hframe; [done|].
    intros (l' & Heq & Hl')%list_elem_of_fmap.
    pose proof (Hrange_kept l' Hl'). assert (l = l') as -> by lia. done.
  - rewrite Forall_forall in Hpend1.
    by apply Hpend1, (list_elem_of_lookup_2 _ (Z.to_nat l)).
Qed.
End create_scatter_claims.

(** C10 fails on labels that skip a value: with the seven labels
    0, 1, 2, 3, 4, 5, 7 there are seven bmeshes, at positions 0 to 6, and
    the point labelled 7 makes [bm_list[7]] raise in the first loop. *)
Lemma create_scatter_skipped_label :
  (create_scatter (H := rational_numpy) (H0 := ascending_pyset)
     seven_points [0; 1; 2; 3; 4; 5; 7] 1%Q empty_world).2
    = raise IndexError.
Proof. vm_compute. reflexivity. Qed.

Lemma create_scatter_first_six_witness :
  let y := [0; 1; 2; 3; 4; 5; 6] in
  let kept := take 6 (set_iter y) in
  let dropped := drop 6 (set_iter y) in
  ∃ w',
    create_scatter seven_points y 1%Q empty_world
      = (w', ok (scatter_object <$> kept)) ∧
    (length kept = 6%nat ∧ length dropped = (7 - 6)%nat) ∧
    objects w' = objects empty_world ++ (scatter_object <$> kept) ∧
    materials w' = materials empty_world ++ (scatter_material <$> zip kept colors) ∧
    mesh_name <$> meshes w'
      = (mesh_name <$> meshes empty_world)
          ++ ((λ l, ("ScatterMesh"%string, l)) <$> kept) ∧
    (∀ l, l ∈ kept → ∃ bm, bm_list w' !! Z.to_nat l = Some bm ∧ released bm) ∧
    (∀ l, l ∈ dropped →
          (l ∉ kept) ∧ ∃ bm, bm_list w' !! Z.to_nat l = Some bm ∧ pending bm).
Proof.
  apply (create_scatter_first_six seven_points [0; 1; 2; 3; 4; 5; 6] 1%Q
           empty_world 7).
  - repeat constructor.
  - intros v. rewrite !elem_of_cons, elem_of_nil. lia.
  - lia.
Defined.

(** * Further properties *)

(** ** [load_iris]: which columns are accepted, and what the targets are *)

Lemma has_hyphen_split (s : string) :
  has_hyphen s = true → ∃ a b rest, split hyphen s = a :: b :: rest.
Proof.
  induction s as [|c s IH]; simpl; [done|].
  case_bool_decide as Hc; simpl.
  - intros _. destruct (split_cons s) as (piece & pieces & ->). eauto.
  - intros (a & b & rest & ->)%IH. eauto.
Qed.

Lemma class_name_hyphen (field : string) :
  has_hyphen field = true → ∃ c, class_name field = ok c.
Proof.
  intros (a & b & rest & Hs)%has_hyphen_split.
  exists b. by apply (class_name_pieces a b rest).
Qed.

Lemma mapM_class_name_total (column : list string) :
  Forall (λ f, has_hyphen f = true) column →
  ∃ names, mapM class_name column = ok names.
Proof.
  induction 1 as [|f column Hf _ (names & Hnames)]; [by exists []|].
  destruct (class_name_hyphen f Hf) as [c Hc].
  exists (c :: names). apply mapM_ok_Forall2.
  constructor; [done | by apply mapM_ok_Forall2].
Qed.

Lemma for_each_load_iris_step_raises (column : list string) (st : targets) :
  Exists (λ f, has_hyphen f = false) column →
  for_each load_iris_step column st = raise IndexError.
Proof.
  intros Hex. revert st.
  induction Hex as [f column Hf|f column _ IH]; intros st; cbn [for_each].
  - assert (load_iris_step st f = raise IndexError) as ->; [|done].
    unfold load_iris_step. by rewrite class_name_no_hyphen.
  - destruct (load_iris_step st f) as [e|st'] eqn:Hstep; simpl; [|apply IH].
    unfold load_iris_step in Hstep.
    destruct (has_hyphen f) eqn:Hf.
    + destruct (class_name_hyphen f Hf) as [c Hc]. by rewrite Hc in Hstep.
    + rewrite class_name_no_hyphen in Hstep by done. by injection Hstep as <-.
Qed.

Lemma load_iris_ok_names (column : list string) (ys : list Z) (ls : list string) :
  load_iris column = ok (ys, ls) →
  ∃ names, mapM class_name column = ok names ∧
           ys = map (rank_so_far [] names) (seq 0 (length names)) ∧
           ls = first_seen names ∧
           length names = length column.
Proof.
  intros Hok.
  assert (Forall (λ f, has_hyphen f = true) column) as Hall.
  { apply Forall_forall. intros f Hf.
    destruct (has_hyphen f) eqn:Hh; [done|]. exfalso.
    assert (Exists (λ f, has_hyphen f = false) column) as Hex.
    { apply Exists_exists. eauto. }
    unfold load_iris in Hok.
    by rewrite (for_each_load_iris_step_raises column _ Hex) in Hok. }
  destruct (mapM_class_name_total column Hall) as [names Hnames].
  exists names. rewrite (load_iris_characterised column names Hnames) in Hok.
  injection Hok as <- <-. repeat split; [done|].
  apply mapM_ok_Forall2 in Hnames. by rewrite (Forall2_length _ _ _ Hnames).
Qed.

(** X1: [load_iris] accepts a label column exactly when every field
    contains a hyphen, and then writes one target per row; a single field
    without hyphen makes the whole call raise [IndexError]. *)
Theorem load_iris_accepts_hyphenated_columns (column : list string) :
  (Forall (λ f, has_hyphen f = true) column →
   ∃ ys ls, load_iris column = ok (ys, ls) ∧ length ys = length column) ∧
  (Exists (λ f, has_hyphen f = false) column →
   load_iris column = raise IndexError).
Proof.
  split.
  - intros Hall. destruct (mapM_class_name_total column Hall) as [names Hnames].
    rewrite (load_iris_characterised column names Hnames).
    eexists _, _. split; [done|].
    apply mapM_ok_Forall2 in Hnames.
    by rewrite length_map, length_seq, (Forall2_length _ _ _ Hnames).
  - intros Hex. unfold load_iris.
    by rewrite (for_each_load_iris_step_raises column _ Hex).
Qed.

Lemma elem_of_see (seen : list string) (x n : string) :
  n ∈ see seen x ↔ n ∈ seen ∨ n = x.
Proof.
  unfold see. case_bool_decide as Hx.
  - split; [by left | intros [?| ->]; done].
  - rewrite elem_of_app, list_elem_of_singleton. done.
Qed.

Lemma NoDup_see (seen : list string) (x : string) :
  NoDup seen → NoDup (see seen x).
Proof.
  intros Hnd. unfold see. case_bool_decide as Hx; [done|].
  apply NoDup_app. split; [done|]. split; [|apply NoDup_singleton].
  intros n Hn ->%list_elem_of_singleton. done.
Qed.

Lemma see_extends (seen : list string) (x : string) :
  ∃ ext, see seen x = seen ++ ext ∧ (length ext ≤ 1)%nat.
Proof.
  unfold see. case_bool_decide.
  - exists []. rewrite app_nil_r. split; [done | simpl; lia].
  - exists [x]. split; [done | simpl; lia].
Qed.

Lemma foldl_see_extends (seen names : list string) :
  ∃ ext, foldl see seen names = seen ++ ext.
Proof.
  revert seen. induction names as [|x names IH]; intros seen; simpl.
  - exists []. by rewrite app_nil_r.
  - destruct (see_extends seen x) as (ext1 & -> & _).
    destruct (IH (seen ++ ext1)) as (ext2 & ->).
    exists (ext1 ++ ext2). by rewrite app_assoc.
Qed.

Lemma elem_of_foldl_see (seen names : list string) (n : string) :
  n ∈ foldl see seen names ↔ n ∈ seen ∨ n ∈ names.
Proof.
  revert seen. induction names as [|x names IH]; intros seen; simpl.
  - rewrite elem_of_nil. tauto.
  - rewrite IH, elem_of_see, elem_of_cons. tauto.
Qed.

Lemma NoDup_foldl_see (seen names : list string) :
  NoDup seen → NoDup (foldl see seen names).
Proof.
  revert seen. induction names as [|x names IH]; intros seen Hnd; simpl; [done|].
  by apply IH, NoDup_see.
Qed.

Lemma first_seen_snoc (names : list string) (x : string) :
  first_seen (names ++ [x]) = see (first_seen names) x.
Proof. unfold first_seen. by rewrite foldl_snoc. Qed.

Lemma first_seen_nonempty (names : list string) :
  names ≠ [] → (1 ≤ length (first_seen names))%nat.
Proof.
  destruct names as [|x names]; [done|]. intros _.
  unfold first_seen. cbn [foldl].
  destruct (foldl_see_extends (see [] x) names) as (ext & ->).
  rewrite length_app. change (see [] x) with [x]. simpl. lia.
Qed.

Lemma first_seen_take_extends (names : list string) (i : nat) :
  ∃ ext, first_seen names = first_seen (take i names) ++ ext.
Proof.
  destruct (foldl_see_extends (first_seen (take i names)) (drop i names))
    as [ext Hext].
  exists ext. rewrite <- Hext. unfold first_seen.
  by rewrite <- foldl_app, take_drop.
Qed.

(** The target written at row [i]. *)
Lemma load_iris_target (names : list string) (i : nat) :
  (i < length names)%nat →
  map (rank_so_far [] names) (seq 0 (length names)) !! i
    = Some (Z.of_nat (length (first_seen (take (S i) names))) - 1).
Proof.
  intros Hi. by rewrite list_lookup_fmap, lookup_seq_lt.
Qed.

Lemma load_iris_target_inv (names : list string) (i : nat) (v : Z) :
  map (rank_so_far [] names) (seq 0 (length names)) !! i = Some v →
  (i < length names)%nat ∧
  v = Z.of_nat (length (first_seen (take (S i) names))) - 1.
Proof.
  intros Hv. pose proof (lookup_lt_Some _ _ _ Hv) as Hi.
  rewrite length_map, length_seq in Hi.
  rewrite load_iris_target in Hv by done. injection Hv as <-. done.
Qed.

(** Every number of labels between one and the final number is reached
    at some row. *)
Lemma first_seen_lengths_reached (names : list string) (c : nat) :
  (1 ≤ c ≤ length (first_seen names))%nat →
  ∃ i, (i < length names)%nat ∧ length (first_seen (take (S i) names)) = c.
Proof.
  revert c. induction names as [|x names IH] using rev_ind; intros c Hc.
  - simpl in Hc. lia.
  - rewrite first_seen_snoc in Hc.
    destruct (see_extends (first_seen names) x) as (ext & Hsee & Hext).
    rewrite Hsee, length_app in Hc.
    destruct (decide (c ≤ length (first_seen names))%nat) as [Hle|Hgt].
    + destruct (IH c) as (i & Hi & Hlen); [lia|].
      exists i. rewrite length_app. simpl. split; [lia|].
      by rewrite take_app_le by lia.
    + exists (length names). rewrite length_app. simpl. split; [lia|].
      rewrite take_ge by (rewrite length_app; simpl; lia).
      rewrite first_seen_snoc, Hsee, length_app. lia.
Qed.

(** X2: the label list that [load_iris] returns holds the class names of
    the column (the second piece of each field), each once, in order of
    first appearance. *)
Theorem load_iris_labels_first_seen (column : list string) (ys : list Z)
    (ls : list string) :
  load_iris column = ok (ys, ls) →
  ∃ names,
    Forall2 (λ field n, class_name field = ok n) column names ∧
    ls = first_seen names ∧
    NoDup ls ∧
    (∀ n, n ∈ ls ↔ n ∈ names).
Proof.
  intros (names & Hnames & _ & -> & _)%load_iris_ok_names.
  exists names. split; [by apply mapM_ok_Forall2|]. split; [done|].
  split; [apply NoDup_foldl_see, NoDup_nil_2|].
  intros n. unfold first_seen. rewrite elem_of_foldl_see, elem_of_nil. tauto.
Qed.

(** The values written to the targets are exactly the positions of the
    label list. *)
Lemma load_iris_target_values (names : list string) (v : Z) :
  v ∈ map (rank_so_far [] names) (seq 0 (length names))
  ↔ 0 ≤ v < Z.of_nat (length (first_seen names)).
Proof.
  split.
  - intros (i & Hv)%list_elem_of_lookup_1.
    apply load_iris_target_inv in Hv as [Hi ->].
    pose proof (first_seen_nonempty (take (S i) names)) as Hne.
    destruct (first_seen_take_extends names (S i)) as (ext & Hext).
    rewrite Hext, length_app.
    assert (take (S i) names ≠ []) as Hprefix.
    { destruct names; simpl in *; [lia | done]. }
    specialize (Hne Hprefix). lia.
  - intros Hv.
    destruct (first_seen_lengths_reached names (Z.to_nat (v + 1)))
      as (i & Hi & Hlen); [lia|].
    apply list_elem_of_lookup. exists i.
    rewrite load_iris_target by done. f_equal. lia.
Qed.

(** X3: the targets that [load_iris] returns start at 0, never decrease,
    grow by at most one from a row to the next, and take exactly the
    values 0 .. len(labels)-1: each is a valid position of the label list
    and every position is used. *)
Theorem load_iris_targets_range (column : list string) (ys : list Z)
    (ls : list string) :
  load_iris column = ok (ys, ls) →
  (∀ v, v ∈ ys ↔ 0 ≤ v < Z.of_nat (length ls)) ∧
  (∀ v, ys !! 0%nat = Some v → v = 0) ∧
  (∀ i a b, ys !! i = Some a → ys !! S i = Some b → a ≤ b ≤ a + 1).
Proof.
  intros (names & _ & -> & -> & _)%load_iris_ok_names.
  split; [|split].
  - intros v. apply load_iris_target_values.
  - intros v Hv. apply load_iris_target_inv in Hv as [Hi ->].
    destruct names as [|x names]; [simpl in Hi; lia|]. done.
  - intros i a b Ha Hb.
    apply load_iris_target_inv in Ha as [Hi ->].
    apply load_iris_target_inv in Hb as [Hi' ->].
    destruct (lookup_lt_is_Some_2 names (S i) Hi') as [x Hx].
    rewrite (take_S_r names (S i) x Hx), first_seen_snoc.
    destruct (see_extends (first_seen (take (S i) names)) x) as (ext & -> & Hext).
    rewrite length_app. lia.
Qed.

Lemma index_of_app_l (n : string) (l k : list string) (p : nat) :
  index_of n l = Some p → index_of n (l ++ k) = Some p.
Proof.
  revert p. induction l as [|m l IH]; intros p; simpl; [done|].
  case_bool_decide; [done|].
  destruct (index_of n l) as [q|]; simpl; [|done].
  intros [= <-]. by rewrite (IH q).
Qed.

Lemma index_of_snoc_new (n : string) (l : list string) :
  n ∉ l → index_of n (l ++ [n]) = Some (length l).
Proof.
  induction l as [|m l IH]; simpl.
  - intros _. by rewrite bool_decide_eq_true_2.
  - intros [Hm Hl]%not_elem_of_cons.
    rewrite bool_decide_eq_false_2 by done. by rewrite IH.
Qed.

Lemma index_of_last (n : string) (l : list string) :
  NoDup l → last l = Some n → index_of n l = Some (pred (length l)).
Proof.
  intros Hnd [l' ->]%last_Some.
  apply NoDup_app in Hnd as (_ & Hdisj & _).
  rewrite index_of_snoc_new, length_app; simpl.
  - f_equal. lia.
  - intros Hn. apply (Hdisj n Hn). by apply list_elem_of_singleton.
Qed.

Lemma grouped_take (names : list string) (i : nat) :
  grouped names → grouped (take i names).
Proof.
  intros Hg a b c n Habc Ha Hc.
  pose proof (lookup_lt_Some _ _ _ Hc) as Hlt. rewrite length_take in Hlt.
  rewrite lookup_take_lt in Ha, Hc |- * by lia.
  by apply (Hg a b c).
Qed.

(** In a class-sorted column the class added last is the class of the
    current row. *)
Lemma grouped_last (names : list string) :
  grouped names → names ≠ [] → last (first_seen names) = last names.
Proof.
  induction names as [|x names IH] using rev_ind; [done|]. intros Hg _.
  rewrite first_seen_snoc, last_snoc. unfold see.
  case_bool_decide as Hx; [|by rewrite last_snoc].
  unfold first_seen in Hx. apply elem_of_foldl_see in Hx as [Hx|Hx].
  { by apply elem_of_nil in Hx. }
  apply list_elem_of_lookup_1 in Hx as [i Hi].
  pose proof (lookup_lt_Some _ _ _ Hi) as Hlt.
  assert (names ≠ []) as Hne by (intros ->; simpl in Hlt; lia).
  assert (grouped names) as Hg'.
  { rewrite <- (take_app_length names [x]). by apply grouped_take. }
  rewrite (IH Hg' Hne), last_lookup.
  rewrite <- (lookup_app_l names [x]) by lia.
  apply (Hg i (pred (length names)) (length names)); [lia | |].
  - by rewrite lookup_app_l by lia.
  - by rewrite list_lookup_middle.
Qed.

(** X4: on a class-sorted column (equal class names contiguous, as in
    the iris file) the target of every row is the position of the row's
    own class in the returned label list. *)
Theorem load_iris_grouped_targets (column names : list string) (ys : list Z)
    (ls : list string) :
  load_iris column = ok (ys, ls) →
  mapM class_name column = ok names →
  grouped names →
  ∀ i n, names !! i = Some n →
         ∃ p, index_of n ls = Some p ∧ ys !! i = Some (Z.of_nat p).
Proof.
  intros Hok Hnames Hg i n Hn.
  rewrite (load_iris_characterised column names Hnames) in Hok.
  injection Hok as <- <-.
  pose proof (lookup_lt_Some _ _ _ Hn) as Hi.
  set (prefix := take (S i) names).
  assert (last prefix = Some n) as Hlast.
  { unfold prefix. by rewrite (take_S_r names i n Hn), last_snoc. }
  assert (prefix ≠ []) as Hne by (intros Heq; by rewrite Heq in Hlast).
  pose proof (grouped_last prefix (grouped_take names (S i) Hg) Hne) as Hfs.
  rewrite Hlast in Hfs.
  assert (NoDup (first_seen prefix)) as Hnd by apply NoDup_foldl_see, NoDup_nil_2.
  pose proof (index_of_last n _ Hnd Hfs) as Hidx.
  pose proof (first_seen_nonempty prefix Hne) as Hlen.
  exists (pred (length (first_seen prefix))). split.
  - destruct (first_seen_take_extends names (S i)) as (ext & ->).
    by apply index_of_app_l.
  - rewrite load_iris_target by done. fold prefix. f_equal. lia.
Qed.

(** X5: in general the label at the position written to row [i] is the
    class that entered the label list last among rows 0 .. i, whatever
    the class of row [i] itself. *)
Theorem load_iris_target_names_latest_class (column names : list string)
    (ys : list Z) (ls : list string) :
  load_iris column = ok (ys, ls) →
  mapM class_name column = ok names →
  ∀ i v, ys !! i = Some v →
         0 ≤ v ∧ ls !! Z.to_nat v = last (first_seen (take (S i) names)).
Proof.
  intros Hok Hnames i v Hv.
  rewrite (load_iris_characterised column names Hnames) in Hok.
  injection Hok as <- <-.
  apply load_iris_target_inv in Hv as [Hi ->].
  assert (take (S i) names ≠ []) as Hne.
  { destruct names; simpl in *; [lia | done]. }
  pose proof (first_seen_nonempty _ Hne) as Hlen.
  split; [lia|].
  destruct (first_seen_take_extends names (S i)) as (ext & ->).
  rewrite lookup_app_l by lia. rewrite last_lookup. f_equal. lia.
Qed.

Lemma grouped_sample : grouped ["setosa"; "setosa"; "versicolor"]%string.
Proof.
  intros i j k n Hijk Hi Hk.
  destruct i as [|[|[|i]]], k as [|[|[|k]]]; simplify_eq/=;
    destruct j as [|[|[|j]]]; simpl; done || lia.
Defined.

Lemma load_iris_labels_first_seen_witness :
  ∃ names,
    Forall2 (λ field n, class_name field = ok n)
            ["Iris-setosa"; "Iris-versicolor"; "Iris-setosa"]%string names ∧
    ["setosa"; "versicolor"]%string = first_seen names ∧
    NoDup ["setosa"; "versicolor"]%string ∧
    (∀ n, n ∈ ["setosa"; "versicolor"]%string ↔ n ∈ names).
Proof.
  exact (load_iris_labels_first_seen
           ["Iris-setosa"; "Iris-versicolor"; "Iris-setosa"]%string
           [0; 1; 1] ["setosa"; "versicolor"]%string eq_refl).
Defined.

Lemma load_iris_targets_range_witness :
  (∀ v, v ∈ [0; 1; 1] ↔ 0 ≤ v < 2) ∧
  (∀ v, [0; 1; 1] !! 0%nat = Some v → v = 0) ∧
  (∀ i a b, [0; 1; 1] !! i = Some a → [0; 1; 1] !! S i = Some b → a ≤ b ≤ a + 1).
Proof.
  exact (load_iris_targets_range
           ["Iris-setosa"; "Iris-versicolor"; "Iris-setosa"]%string
           [0; 1; 1] ["setosa"; "versicolor"]%string eq_refl).
Defined.

Lemma load_iris_grouped_targets_witness :
  ∃ p, index_of "versicolor"%string ["setosa"; "versicolor"]%string = Some p ∧
       [0; 0; 1] !! 2%nat = Some (Z.of_nat p).
Proof.
  exact (load_iris_grouped_targets
           ["Iris-setosa"; "Iris-setosa"; "Iris-versicolor"]%string
           ["setosa"; "setosa"; "versicolor"]%string
           [0; 0; 1] ["setosa"; "versicolor"]%string eq_refl eq_refl grouped_sample
           2%nat "versicolor"%string eq_refl).
Defined.

Lemma load_iris_target_names_latest_class_witness :
  0 ≤ 1 ∧
  ["setosa"; "versicolor"]%string !! Z.to_nat 1
    = last (first_seen (take 3 ["setosa"; "versicolor"; "setosa"]%string)).
Proof.
  exact (load_iris_target_names_latest_class
           ["Iris-setosa"; "Iris-versicolor"; "Iris-setosa"]%string
           ["setosa"; "versicolor"; "setosa"]%string
           [0; 1; 1] ["setosa"; "versicolor"]%string eq_refl eq_refl
           2%nat 1 eq_refl).
Defined.

(** ** [PCA]: outcomes, widths, eigenpairs and projected entries *)

Section PCA_further.
Context `{Numpy} `{!NumpyContract}.

Local Abbreviation store := (gmap ref (matrix F)).

(** The steps of a call that returns. *)
Lemma PCA_value_ok_parts (d : matrix F) (k : option Z) X V E :
  PCA_value d k = ok (X, V, E) →
  ∃ w v E1,
    np_cov d = Arr2 (cov2d d) ∧
    eigh_solver (cov2d d) = Some (w, v) ∧
    take_columns v (reverse (argsort w)) = ok E1 ∧
    take_items w (reverse (argsort w)) = ok V ∧
    E = slice_columns E1 k ∧
    shape1 (transpose E) = shape0 (transpose d) ∧
    X = transpose (matmul (transpose E) (transpose d)).
Proof.
  unfold PCA_value, ok. intros Hok.
  apply rbind_ok in Hok as ([w v] & Heigh & Hok).
  apply rbind_ok in Hok as (E1 & HE1 & Hok).
  apply rbind_ok in Hok as (V' & HV & Hok).
  apply rbind_ok in Hok as (M & HM & Hok).
  injection Hok as <- <- <-.
  exists w, v, E1.
  assert (np_cov d = Arr2 (cov2d d) ∧ eigh_solver (cov2d d) = Some (w, v))
    as [Hcov Hs].
  { unfold linalg_eigh in Heigh.
    destruct (np_cov d) as [x|u|m] eqn:Hcov; [done|done|].
    assert (m = cov2d d) as ->.
    { unfold np_cov, squeeze in Hcov.
      destruct (shape0 (cov2d d)) as [|[|?]], (shape1 (cov2d d)) as [|[|?]];
        by simplify_eq. }
    split; [done|].
    case_bool_decide; [|done].
    destruct (eigh_solver (cov2d d)) as [[w' v']|]; [|done].
    by injection Heigh as -> ->. }
  unfold np_dot in HM. case_bool_decide as Hshape; [|done].
  injection HM as <-. done.
Qed.

(** X6: on a well-formed array with at least one column, a call of [PCA]
    either returns or raises [LinAlgError], nothing else. It raises when
    the array has a single column, when [np.cov] keeps a single row as
    the only variable, or when the eigen-solver does not converge, and in
    each case the caller's array has already been centred; otherwise it
    returns. *)
Theorem PCA_raises_only_LinAlgError (st : store) (data : ref) (d : matrix F)
    (k : option Z) :
  st !! data = Some d →
  wf d →
  shape1 d ≠ 0%nat →
  (shape1 d = 1%nat ∨ cov_transposes d = false ∨
   eigh_solver (cov2d (centered d)) = None →
   PCA data k st = (<[data := centered d]> st, raise LinAlgError)) ∧
  (shape1 d ≠ 1%nat → cov_transposes d = true →
   is_Some (eigh_solver (cov2d (centered d))) →
   ∃ X V E, PCA data k st = (<[data := centered d]> st, ok (X, V, E))).
Proof.
  intros Hd Hwf HD. rewrite (PCA_run st data d) by done. split.
  - intros Hfail. f_equal.
    destruct (decide (shape1 d = 1%nat)) as [HD1|HD1].
    { by apply PCA_value_one_column. }
    destruct (cov_transposes d) eqn:HT.
    + destruct Hfail as [?|[?|Hs]]; [done|done|].
      apply PCA_value_no_convergence; [done | simpl; lia | done].
    + by apply PCA_value_not_transposed.
  - intros HD1 HT [[w v] Hs].
    destruct (PCA_value_returns (centered d) k w v)
      as (X & V & E & -> & _); [by apply wf_centered | done | simpl; lia | done |].
    by exists X, V, E.
Qed.

(** X7: whatever [PCA] returns, the basis and the projection have as many
    columns as the slice [:num_components] keeps of D columns: all D
    without a count, min(k, D) for k >= 0, hence none for k = 0, and
    max(0, D + k) for a negative k; the eigenvalue vector is not cut and
    keeps its D entries. *)
Theorem PCA_slice_widths (st : store) (data : ref) (d : matrix F)
    (k : option Z) X V E :
  st !! data = Some d →
  wf d →
  shape1 d ≠ 0%nat →
  (PCA data k st).2 = ok (X, V, E) →
  (wf X ∧ shape0 X = shape0 d ∧ shape1 X = shape1 E) ∧
  (wf E ∧ shape0 E = shape1 d) ∧
  length V = shape1 d ∧
  Z.of_nat (shape1 E)
    = match k with
      | None => Z.of_nat (shape1 d)
      | Some k => if bool_decide (k < 0) then Z.max 0 (Z.of_nat (shape1 d) + k)
                  else Z.min k (Z.of_nat (shape1 d))
      end.
Proof.
  intros Hd Hwf HD. rewrite (PCA_run st data d) by done. simpl. intros Hok.
  destruct (PCA_value_ok_inv (centered d) k X V E Hok)
    as (HT & [HD0|HD2] & Hs); [done|].
  destruct Hs as (w & v & Hs); [done|].
  destruct (PCA_value_returns (centered d) k w v)
    as (X' & V' & E' & Hok' & _ & HV & (HX & HX0 & HX1) & (HE & HE0 & HE1));
    [by apply wf_centered | done..|].
  rewrite Hok in Hok'. injection Hok' as <- <- <-.
  change (shape0 (centered d)) with (shape0 d) in HX0.
  change (shape1 (centered d)) with (shape1 d) in HX1, HE0, HE1, HV.
  split; [by rewrite HX1, HE1|]. split; [done|]. split; [done|].
  rewrite HE1. unfold slice_stop. destruct k as [k|]; [|done].
  case_bool_decide; lia.
Qed.

Lemma take_items_nth (r r' : list F) (idx : list nat) (j a : nat) :
  take_items r idx = ok r' →
  idx !! j = Some a →
  nth j r' f0 = nth a r f0.
Proof.
  intros Hr%take_items_ok Ha.
  destruct (Forall2_lookup_l _ _ _ _ _ Hr Ha) as (x & Hx & Hrx).
  by rewrite (nth_lookup_Some _ _ _ _ Hx), (nth_lookup_Some _ _ _ _ Hrx).
Qed.

Lemma take_columns_column (m m' : matrix F) (idx : list nat) (j a : nat) :
  take_columns m idx = ok m' →
  idx !! j = Some a →
  column j m' = column a m.
Proof.
  unfold take_columns, ok. intros Hm Ha.
  apply rbind_ok in Hm as (rs & Hrs & Hm).
  case_bool_decide; [|done]. injection Hm as <-.
  apply mapM_ok_Forall2 in Hrs. unfold column. simpl.
  induction Hrs as [|r r' rows' rs Hr _ IH]; simpl; [done|].
  f_equal; [|done]. by apply (take_items_nth r r' idx).
Qed.

Lemma slice_columns_column (m : matrix F) (stop : option Z) (j : nat) :
  (j < shape1 (slice_columns m stop))%nat →
  column j (slice_columns m stop) = column j m.
Proof.
  simpl. intros Hj. unfold column. simpl. rewrite map_map.
  apply map_ext. intros r. rewrite !nth_lookup.
  by rewrite lookup_take_lt.
Qed.

(** X8: sorting keeps eigenvalues and eigenvectors together. There is a
    permutation [idx] of the positions 0 .. D-1 such that the returned
    eigenvalue at position [j] is the solver's eigenvalue at position
    [idx[j]] and column [j] of the returned basis is the solver's
    eigenvector column [idx[j]]. *)
Theorem PCA_keeps_eigenpairs (st : store) (data : ref) (d : matrix F)
    (k : option Z) (w : list F) (v : matrix F) X V E :
  st !! data = Some d →
  wf d →
  shape1 d ≠ 0%nat →
  eigh_solver (cov2d (centered d)) = Some (w, v) →
  (PCA data k st).2 = ok (X, V, E) →
  ∃ idx,
    idx ≡ₚ seq 0 (shape1 d) ∧
    Forall2 (λ a x, w !! a = Some x) idx V ∧
    ∀ j a, idx !! j = Some a → (j < shape1 E)%nat → column j E = column a v.
Proof.
  intros Hd Hwf HD Hs. rewrite (PCA_run st data d) by done. simpl. intros Hok.
  destruct (PCA_value_ok_parts _ _ _ _ _ Hok)
    as (w' & v' & E1 & Hcov & Hs' & HE1 & HV & -> & _ & _).
  rewrite Hs in Hs'. injection Hs' as <- <-.
  destruct (PCA_value_ok_inv (centered d) k X V _ Hok) as (HT & _ & _).
  destruct (shape_cov2d (centered d) HT) as [Hc0 _]; [done|].
  destruct (eigh_solver_shape _ _ _ Hs) as (Hw & _).
  exists (reverse (argsort w)). split; [|split].
  - rewrite reverse_Permutation, (argsort_perm w), Hw, Hc0. done.
  - by apply take_items_ok.
  - intros j a Ha Hj. rewrite slice_columns_column by done.
    by apply (take_columns_column v E1 (reverse (argsort w))).
Qed.

Lemma row_as_columns (r : list F) (D : nat) :
  length r = D → map (λ j, nth j r f0) (seq 0 D) = r.
Proof.
  intros Hlen. apply list_eq. intros i.
  rewrite list_lookup_fmap.
  destruct (decide (i < D)%nat) as [Hi|Hi].
  - rewrite lookup_seq_lt by done. simpl.
    destruct (nth_lookup_or_length r i f0) as [->|?]; [done | lia].
  - rewrite lookup_seq_ge by lia. simpl.
    by rewrite lookup_ge_None_2 by lia.
Qed.

Lemma column_transpose (m : matrix F) (i : nat) (r : list F) :
  wf m → rows m !! i = Some r → column i (transpose m) = r.
Proof.
  intros [_ Hcols] Hr. unfold column at 1. simpl. rewrite map_map.
  rewrite <- (row_as_columns r (shape1 m)).
  - apply map_ext. intros j. unfold column.
    rewrite (nth_lookup_Some _ i f0 (nth j r f0)); [done|].
    by rewrite list_lookup_fmap, Hr.
  - rewrite Forall_forall in Hcols. by eapply Hcols, list_elem_of_lookup_2.
Qed.

(** X9: every entry of the projected matrix is the dot product of a
    centred row with a column of the returned basis: entry (i, j) is the
    sum over the columns of [E[:, j] * data[i, :]], taken on the centred
    data. *)
Theorem PCA_projection_entries (st : store) (data : ref) (d : matrix F)
    (k : option Z) X V E :
  st !! data = Some d →
  wf d →
  (PCA data k st).2 = ok (X, V, E) →
  ∀ i j r, rows (centered d) !! i = Some r →
           (j < shape1 E)%nat →
           item X i j = Some (fsum (zip_with fmul (column j E) r)).
Proof.
  intros Hd Hwf Hok i j r Hr Hj.
  rewrite (PCA_run st data d) in Hok by done. cbn [snd] in Hok.
  destruct (PCA_value_ok_parts _ _ _ _ _ Hok)
    as (w & v & E1 & _ & _ & _ & _ & _ & _ & ->).
  pose proof (wf_centered d Hwf) as Hc.
  assert (i < shape0 (centered d))%nat as Hi.
  { destruct Hc as [<- _]. by eapply lookup_lt_Some. }
  set (c := centered d) in *.
  set (M := matmul (transpose E) (transpose c)).
  assert (rows (transpose M) !! i = Some (column i M)) as HXi.
  { unfold transpose at 1. cbn [rows].
    rewrite list_lookup_fmap, lookup_seq_lt by done. done. }
  unfold item. rewrite HXi. cbn [mbind option_bind].
  unfold column at 1, M, matmul. cbn [rows transpose shape1].
  rewrite !list_lookup_fmap, lookup_seq_lt by done. cbn [fmap option_fmap option_map].
  f_equal.
  rewrite (nth_lookup_Some _ i f0
             (fsum (zip_with fmul (column j E) (column i (transpose c))))).
  - by rewrite (column_transpose c i r).
  - by rewrite list_lookup_fmap, lookup_seq_lt.
Qed.
End PCA_further.

Lemma wf_single_column : wf single_column.
Proof. split; [reflexivity | by repeat constructor]. Defined.

Lemma PCA_raises_only_LinAlgError_witness :
  PCA 1%positive None (bound single_column)
    = (<[1%positive := centered single_column]> (bound single_column),
       raise LinAlgError).
Proof.
  destruct (PCA_raises_only_LinAlgError (bound single_column) 1%positive
              single_column None) as [Hraises _].
  - reflexivity.
  - exact wf_single_column.
  - simpl; lia.
  - apply Hraises. left. reflexivity.
Defined.

Lemma PCA_slice_widths_witness :
  ∃ X V E,
    (PCA 1%positive (Some (-1)) (bound square_corners)).2 = ok (X, V, E) ∧
    (wf X ∧ shape0 X = 4%nat ∧ shape1 X = shape1 E) ∧
    (wf E ∧ shape0 E = 2%nat) ∧
    length V = 2%nat ∧
    Z.of_nat (shape1 E) = 1.
Proof.
  eexists _, _, _. split; [reflexivity|].
  apply (PCA_slice_widths (bound square_corners) 1%positive square_corners
           (Some (-1))).
  - reflexivity.
  - exact wf_square_corners.
  - simpl; lia.
  - reflexivity.
Defined.

Lemma PCA_keeps_eigenpairs_witness :
  ∃ w v X V E,
    eigh_solver (cov2d (centered square_corners)) = Some (w, v) ∧
    (PCA 1%positive None (bound square_corners)).2 = ok (X, V, E) ∧
    ∃ idx,
      idx ≡ₚ seq 0 2 ∧
      Forall2 (λ a x, w !! a = Some x) idx V ∧
      ∀ j a, idx !! j = Some a → (j < shape1 E)%nat → column j E = column a v.
Proof.
  eexists _, _, _, _, _. split; [reflexivity|]. split; [reflexivity|].
  eapply (PCA_keeps_eigenpairs (bound square_corners) 1%positive square_corners
            None).
  - reflexivity.
  - exact wf_square_corners.
  - simpl; lia.
  - reflexivity.
  - reflexivity.
Defined.

Lemma PCA_projection_entries_witness :
  ∃ X V E,
    (PCA 1%positive (Some 1) (bound square_corners)).2 = ok (X, V, E) ∧
    ∀ i j r, rows (centered square_corners) !! i = Some r →
             (j < shape1 E)%nat →
             item X i j = Some (fsum (zip_with fmul (column j E) r)).
Proof.
  eexists _, _, _. split; [reflexivity|].
  eapply (PCA_projection_entries (bound square_corners) 1%positive square_corners
            (Some 1)).
  - reflexivity.
  - exact wf_square_corners.
  - reflexivity.
Defined.

(** ** [create_scatter]: invalid labels, few labels, and the geometry *)

Lemma py_index_valid (n : nat) (i : Z) :
  - Z.of_nat n ≤ i < Z.of_nat n → ∃ j, py_index n i = ok j ∧ (j < n)%nat.
Proof.
  intros Hi. unfold py_index. case_bool_decide.
  - exists (Z.to_nat i). split; [done | lia].
  - rewrite bool_decide_eq_true_2 by lia.
    exists (Z.to_nat (Z.of_nat n + i)). split; [done | lia].
Qed.

Lemma py_index_invalid (n : nat) (i : Z) :
  ¬ (- Z.of_nat n ≤ i < Z.of_nat n) → py_index n i = raise IndexError.
Proof.
  intros Hi. unfold py_index. by rewrite !bool_decide_eq_false_2 by lia.
Qed.

Section create_scatter_further.
Context `{Numpy}.

Lemma on_bmesh_at (w : world) (label_idx : Z) (op : bmesh → result bmesh)
    (j : nat) (bm bm' : bmesh) :
  py_index (length (bm_list w)) label_idx = ok j →
  bm_list w !! j = Some bm →
  op bm = ok bm' →
  on_bmesh label_idx op w = (set_bm_list (<[j := bm']> (bm_list w)) w, ok bm').
Proof.
  intros Hj Hbm Hop. unfold on_bmesh. rewrite Hj. unfold ok.
  by rewrite Hbm, Hop.
Qed.

Lemma on_bmesh_invalid (w : world) (label_idx : Z) (op : bmesh → result bmesh) :
  ¬ valid_index (length (bm_list w)) label_idx →
  on_bmesh label_idx op w = (w, raise IndexError).
Proof.
  intros Hl. unfold on_bmesh. by rewrite py_index_invalid.
Qed.

Lemma add_point_at (size : F) (x : list F) (label_idx : Z) (w : world)
    (j : nat) (bm : bmesh) :
  length x = 3%nat ∨ length x = 4%nat →
  py_index (length (bm_list w)) label_idx = ok j →
  bm_list w !! j = Some bm →
  freed bm = false →
  add_point size (x, label_idx) w
    = (set_bm_list (<[j := BMesh (geometry bm ++ [primitive_of size (x, label_idx)])
                                 (converted bm) false]> (bm_list w)) w,
       ok tt).
Proof.
  intros Hx Hj Hbm Hfreed. unfold add_point, primitive_of.
  assert (∀ p, bmesh_add p bm = ok (BMesh (geometry bm ++ [p]) (converted bm) false))
    as Hadd.
  { intros p. unfold bmesh_add. by rewrite Hfreed. }
  rewrite matrix_translation_ok by done.
  unfold mbind, stateful_bind, lift, ok. cbn [fst snd].
  repeat case_bool_decide;
    by rewrite (on_bmesh_at w label_idx _ j bm _ Hj Hbm (Hadd _)).
Qed.

Lemma add_point_invalid (size : F) (x : list F) (label_idx : Z) (w : world) :
  length x = 3%nat ∨ length x = 4%nat →
  ¬ valid_index (length (bm_list w)) label_idx →
  add_point size (x, label_idx) w = (w, raise IndexError).
Proof.
  intros Hx Hl. unfold add_point. rewrite matrix_translation_ok by done.
  unfold mbind, stateful_bind, lift, ok.
  repeat case_bool_decide; by rewrite on_bmesh_invalid.
Qed.

Lemma same_data_refl (w : world) : same_data w w.
Proof. by repeat split. Qed.

Lemma same_data_trans (w1 w2 w3 : world) :
  same_data w1 w2 → same_data w2 w3 → same_data w1 w3.
Proof.
  intros (? & ? & ? & ?) (? & ? & ? & ?). repeat split; congruence.
Qed.

(** The first loop stops with [IndexError] at the first label that is
    not a valid position, having touched bmeshes only. *)
Lemma first_loop_raises (size : F) (ps : list (list F * Z)) (w : world) (n : nat) :
  length (bm_list w) = n →
  Forall (λ p, length p.1 = 3%nat ∨ length p.1 = 4%nat) ps →
  Forall pending (bm_list w) →
  Exists (λ p, ¬ valid_index n p.2) ps →
  ∃ w', for_each_st (add_point size) ps w = (w', raise IndexError) ∧
        same_data w w'.
Proof.
  intros Hn H3d Hpend Hex. revert w Hn Hpend H3d.
  induction ps as [|[x l] ps IH]; intros w Hn Hpend H3d.
  { by apply Exists_nil in Hex. }
  apply Forall_cons in H3d as [Hx H3d]. simpl in Hx.
  cbn [for_each_st]. unfold mbind at 1, stateful_bind at 1.
  destruct (decide (valid_index n l)) as [Hl|Hl].
  - destruct (py_index_valid n l Hl) as (j & Hj & Hjn).
    destruct (lookup_lt_is_Some_2 (bm_list w) j) as [bm Hbm]; [lia|].
    assert (pending bm) as [Hconv Hfreed].
    { rewrite Forall_forall in Hpend. by eapply Hpend, list_elem_of_lookup_2. }
    rewrite <- Hn in Hj.
    rewrite (add_point_at size x l w j bm Hx Hj Hbm Hfreed).
    set (w1 := set_bm_list _ w).
    destruct (IH) with (w := w1) as (w' & Hrun & Hsame).
    + apply Exists_cons in Hex as [Hhd|Htl]; [done | done].
    + unfold w1. simpl. by rewrite length_insert.
    + unfold w1. simpl. apply Forall_insert; [done|]. by split.
    + done.
    + exists w'. split; [done|].
      apply (same_data_trans w w1 w'); [by repeat split | done].
  - rewrite <- Hn in Hl. rewrite (add_point_invalid size x l w Hx Hl).
    exists w. split; [done | apply same_data_refl].
Qed.

(** The first loop on labels 0 .. n-1: every point adds its primitive to
    the bmesh of its label, in the order of the data. *)
Lemma first_loop_geometry (size : F) (ps : list (list F * Z)) (w : world) :
  Forall (λ p, (length p.1 = 3%nat ∨ length p.1 = 4%nat) ∧
               0 ≤ p.2 < Z.of_nat (length (bm_list w))) ps →
  Forall pending (bm_list w) →
  ∃ w', for_each_st (add_point size) ps w = (w', ok tt) ∧
        ∀ l bm, 0 ≤ l → bm_list w !! Z.to_nat l = Some bm →
                bm_list w' !! Z.to_nat l
                  = Some (BMesh (geometry bm ++ (primitive_of size <$> points_of l ps))
                                false false).
Proof.
  revert w. induction ps as [|[x l0] ps IH]; intros w Hps Hpend.
  - exists w. split; [done|]. intros l bm _ Hbm. simpl. rewrite app_nil_r.
    assert (pending bm) as [Hconv Hfreed].
    { rewrite Forall_forall in Hpend. by eapply Hpend, list_elem_of_lookup_2. }
    rewrite Hbm. destruct bm; simpl in *; by subst.
  - apply Forall_cons in Hps as [[Hx Hl0] Hps]. simpl in Hx, Hl0.
    destruct (lookup_lt_is_Some_2 (bm_list w) (Z.to_nat l0)) as [bm0 Hbm0]; [lia|].
    assert (pending bm0) as [Hconv0 Hfreed0].
    { rewrite Forall_forall in Hpend. by eapply Hpend, list_elem_of_lookup_2. }
    pose proof (py_index_nonneg _ _ Hl0) as Hj.
    cbn [for_each_st]. unfold mbind at 1, stateful_bind at 1.
    rewrite (add_point_at size x l0 w _ bm0 Hx Hj Hbm0 Hfreed0).
    set (w1 := set_bm_list _ w).
    destruct (IH w1) as (w' & Hrun & Hgeo).
    + unfold w1. simpl. by rewrite length_insert.
    + unfold w1. simpl. apply Forall_insert; [done|]. by split.
    + exists w'. split; [done|]. intros l bm Hl Hbm.
      unfold points_of. destruct (decide (l0 = l)) as [->|Hne].
      * rewrite filter_cons_True by done. rewrite fmap_cons.
        rewrite (Hgeo l (BMesh (geometry bm0 ++ [primitive_of size (x, l)])
                               (converted bm0) false)); [|done|].
        -- simpl. rewrite <- app_assoc. simpl. by simplify_eq.
        -- unfold w1. simpl. apply list_lookup_insert_eq. by eapply lookup_lt_Some.
      * rewrite filter_cons_False by done.
        apply Hgeo; [done|]. unfold w1. simpl.
        rewrite list_lookup_insert_ne by lia. done.
Qed.

(** The second loop hands each bmesh's geometry over to the mesh it
    creates. *)
Lemma add_objects_meshes (ps : list (Z * color)) (w : world) :
  NoDup ps.*1 →
  Forall (λ l, 0 ≤ l < Z.of_nat (length (bm_list w))) ps.*1 →
  (∀ l bm, l ∈ ps.*1 → bm_list w !! Z.to_nat l = Some bm → freed bm = false) →
  ∃ w' objs,
    add_objects ps w = (w', ok objs) ∧
    meshes w' = meshes w ++
      ((λ p, Mesh ("ScatterMesh"%string, p.1)
                  (from_option geometry [] (bm_list w !! Z.to_nat p.1))
                  [("ScatterMaterial"%string, p.1)]) <$> ps).
Proof.
  revert w. induction ps as [|[l c] ps IH]; intros w Hnd Hrange Hfreed.
  - exists w, []. simpl. by rewrite app_nil_r.
  - simpl in Hnd, Hrange.
    apply NoDup_cons in Hnd as [Hl_new Hnd].
    apply Forall_cons in Hrange as [Hl Hrange].
    destruct (lookup_lt_is_Some_2 (bm_list w) (Z.to_nat l)) as [bm Hbm]; [lia|].
    assert (freed bm = false) as Hbm_freed.
    { apply (Hfreed l bm); [simpl; left | done]. }
    pose proof (add_object_ok l c w bm Hl Hbm Hbm_freed) as Hstep.
    set (w1 := World _ _ _ _ _) in Hstep.
    assert (∀ l', l' ∈ ps.*1 → Z.to_nat l' ≠ Z.to_nat l) as Hother.
    { intros l' Hl' Heq. rewrite Forall_forall in Hrange.
      specialize (Hrange l' Hl'). assert (l' = l) as -> by lia. done. }
    assert (∀ l', l' ∈ ps.*1 → bm_list w1 !! Z.to_nat l' = bm_list w !! Z.to_nat l')
      as Hsame.
    { intros l' Hl'. unfold w1. simpl.
      apply list_lookup_insert_ne. intros Heq. by apply (Hother l' Hl'). }
    destruct (IH w1) as (w' & objs & Hrun & Hmeshes).
    + done.
    + unfold w1 at 1. simpl. by rewrite length_insert.
    + intros l' bm' Hl' Hbm'. rewrite (Hsame l' Hl') in Hbm'.
      apply (Hfreed l' bm'); [simpl; by right | done].
    + exists w', (scatter_object l :: objs).
      cbn [add_objects]. unfold mbind at 1, stateful_bind at 1.
      rewrite Hstep. unfold mbind at 1, stateful_bind at 1. rewrite Hrun.
      split; [done|]. rewrite Hmeshes. unfold w1 at 1. cbn [meshes].
      rewrite <- app_assoc. f_equal. cbn [fmap list_fmap]. simpl.
      rewrite Hbm. simpl. f_equal.
      apply list_fmap_ext. intros i [l' c'] Hp. simpl.
      rewrite Hsame; [done|].
      apply list_elem_of_fmap. exists (l', c'). split; [done|].
      by eapply list_elem_of_lookup_2.
Qed.

Lemma fst_zip_colors_take (ls : list Z) : (zip ls colors).*1 = take 6 ls.
Proof. do 7 (destruct ls as [|? ls]; [done|]). done. Qed.

Lemma zip_colors_take_any (ls : list Z) : zip ls colors = zip (take 6 ls) colors.
Proof. do 7 (destruct ls as [|? ls]; [done|]). done. Qed.
End create_scatter_further.

Section create_scatter_further_claims.
Context `{Numpy} `{PySet} `{!PySetContract}.

Lemma zip_points_3d (X : list (list F)) (y : list Z) :
  Forall (λ x, length x = 3%nat ∨ length x = 4%nat) X →
  Forall (λ p : list F * Z, length p.1 = 3%nat ∨ length p.1 = 4%nat) (zip X y).
Proof.
  intros HX. apply Forall_forall. intros [x l] Hp. simpl.
  rewrite Forall_forall in HX. by apply HX, (elem_of_zip_l x l X y).
Qed.

Lemma fresh_bm_list_pending (ls : list Z) :
  Forall pending (map (λ _, bmesh_new) ls).
Proof.
  apply Forall_forall. by intros bm (l & -> & _)%list_elem_of_fmap.
Qed.

(** X10: a label that is not a valid position of [bm_list] (one entry per
    distinct label) at a point that the first loop reaches makes
    [create_scatter] raise [IndexError] before any mesh, object or
    material exists: the host data is as it was. *)
Theorem create_scatter_invalid_label (X : list (list F)) (y : list Z) (size : F)
    (w : world) :
  Forall (λ x, length x = 3%nat ∨ length x = 4%nat) X →
  Exists (λ p, ¬ valid_index (length (set_iter y)) p.2) (zip X y) →
  ∃ w', create_scatter X y size w = (w', raise IndexError) ∧ same_data w w'.
Proof.
  intros HX Hex. unfold create_scatter.
  unfold mbind at 1, stateful_bind at 1, modify.
  set (w0 := set_bm_list _ w).
  destruct (first_loop_raises size (zip X y) w0 (length (set_iter y)))
    as (w' & Hrun & Hsame).
  - unfold w0. simpl. by rewrite length_map.
  - by apply zip_points_3d.
  - apply fresh_bm_list_pending.
  - done.
  - exists w'. unfold mbind at 1, stateful_bind at 1. rewrite Hrun.
    split; [done|]. apply (same_data_trans w w0 w'); [by repeat split | done].
Qed.

(** X11: with labels exactly 0 .. m-1 and at most six of them, every
    label gets its object, in the set's order, and every bmesh ends
    converted and freed: nothing is left behind. *)
Theorem create_scatter_at_most_six (X : list (list F)) (y : list Z) (size : F)
    (w : world) (m : nat) :
  Forall (λ x, length x = 3%nat ∨ length x = 4%nat) X →
  (∀ v, v ∈ y ↔ 0 ≤ v < Z.of_nat m) →
  (m ≤ 6)%nat →
  ∃ w',
    create_scatter X y size w = (w', ok (scatter_object <$> set_iter y)) ∧
    length (set_iter y) = m ∧
    objects w' = objects w ++ (scatter_object <$> set_iter y) ∧
    materials w' = materials w ++ (scatter_material <$> zip (set_iter y) colors) ∧
    length (bm_list w') = m ∧
    Forall released (bm_list w').
Proof.
  intros HX Hy Hm.
  destruct (set_iter_range y m Hy) as [Hlen Hrange].
  unfold create_scatter.
  unfold mbind at 1, stateful_bind at 1, modify.
  set (w0 := set_bm_list _ w).
  assert (length (bm_list w0) = m) as Hlen0.
  { unfold w0. simpl. by rewrite length_map. }
  destruct (for_each_add_point size (zip X y) w0)
    as (w1 & Hloop1 & Hlen1 & Hpend1 & Hm1 & Ho1 & Hmat1 & Hc1).
  { apply Forall_forall. intros [x l] Hp. rewrite Hlen0. simpl. split.
    - rewrite Forall_forall in HX. by apply HX, (elem_of_zip_l x l X y).
    - by apply Hy, (elem_of_zip_r x l X y). }
  { apply fresh_bm_list_pending. }
  rewrite Hlen0 in Hlen1.
  unfold mbind at 1, stateful_bind at 1. rewrite Hloop1.
  assert ((zip (set_iter y) colors).*1 = set_iter y) as Hfst.
  { rewrite fst_zip_colors_take. apply take_ge. lia. }
  destruct (add_objects_ok (zip (set_iter y) colors) w1)
    as (w' & Hloop2 & Hlen2 & Hobjs & Hmats & Hcoll & Hmeshes & Hframe & Hrel).
  { rewrite Hfst. apply set_iter_NoDup. }
  { by rewrite Hfst, Hlen1. }
  { intros l bm _ Hbm. rewrite Forall_forall in Hpend1.
    by apply (Hpend1 bm), (list_elem_of_lookup_2 _ (Z.to_nat l)). }
  rewrite Hfst in Hloop2, Hobjs, Hrel.
  exists w'. split; [done|]. split; [done|].
  unfold w0 in Ho1, Hmat1. simpl in Ho1, Hmat1.
  split; [by rewrite Hobjs, Ho1|].
  split; [by rewrite Hmats, Hmat1|].
  split; [congruence|].
  apply Forall_forall. intros bm (j & Hj)%list_elem_of_lookup_1.
  pose proof (lookup_lt_Some _ _ _ Hj) as Hjm.
  destruct (Hrel (Z.of_nat j)) as (bm' & Hbm' & Hreleased).
  { apply set_iter_elem, Hy. lia. }
  rewrite Nat2Z.id in Hbm'. by simplify_eq.
Qed.

(** X12: with labels exactly 0 .. m-1, the mesh made for a label holds
    one primitive per data point of that label, in the order of the data,
    each at its point and of the shape the label selects (cube,
    icosphere or cone by the label modulo 3), and one material slot. A
    label beyond the sixth has had the same geometry built in its bmesh,
    which is then left there. *)
Theorem create_scatter_mesh_geometry (X : list (list F)) (y : list Z) (size : F)
    (w : world) (m : nat) :
  Forall (λ x, length x = 3%nat ∨ length x = 4%nat) X →
  (∀ v, v ∈ y ↔ 0 ≤ v < Z.of_nat m) →
  ∃ w' objs,
    create_scatter X y size w = (w', ok objs) ∧
    meshes w' = meshes w ++
      ((λ l, Mesh ("ScatterMesh"%string, l)
                  (primitive_of size <$> points_of l (zip X y))
                  [("ScatterMaterial"%string, l)]) <$> take 6 (set_iter y)) ∧
    ∀ l, l ∈ drop 6 (set_iter y) →
         ∃ bm, bm_list w' !! Z.to_nat l = Some bm ∧
               geometry bm = primitive_of size <$> points_of l (zip X y).
Proof.
  intros HX Hy.
  destruct (set_iter_range y m Hy) as [Hlen Hrange].
  unfold create_scatter.
  unfold mbind at 1, stateful_bind at 1, modify.
  set (w0 := set_bm_list _ w).
  assert (length (bm_list w0) = m) as Hlen0.
  { unfold w0. simpl. by rewrite length_map. }
  assert (Forall (λ p : list F * Z,
                    (length p.1 = 3%nat ∨ length p.1 = 4%nat) ∧
                    0 ≤ p.2 < Z.of_nat (length (bm_list w0))) (zip X y)) as Hps.
  { apply Forall_forall. intros [x l] Hp. rewrite Hlen0. simpl. split.
    - rewrite Forall_forall in HX. by apply HX, (elem_of_zip_l x l X y).
    - by apply Hy, (elem_of_zip_r x l X y). }
  pose proof (fresh_bm_list_pending (set_iter y)) as Hpend0.
  destruct (for_each_add_point size (zip X y) w0 Hps Hpend0)
    as (w1 & Hloop1 & Hlen1 & Hpend1 & Hm1 & _).
  destruct (first_loop_geometry size (zip X y) w0 Hps Hpend0)
    as (w1' & Hloop1' & Hgeo).
  rewrite Hloop1 in Hloop1'. injection Hloop1' as <-.
  rewrite Hlen0 in Hlen1.
  assert (∀ l, l ∈ set_iter y →
               bm_list w1 !! Z.to_nat l
                 = Some (BMesh (primitive_of size <$> points_of l (zip X y))
                               false false)) as Hgeo1.
  { intros l Hl. rewrite Forall_forall in Hrange. specialize (Hrange l Hl).
    apply (Hgeo l bmesh_new); [lia|]. unfold w0. simpl.
    rewrite list_lookup_fmap.
    destruct (lookup_lt_is_Some_2 (set_iter y) (Z.to_nat l)) as [l' ->]; [lia|].
    done. }
  unfold mbind at 1, stateful_bind at 1. rewrite Hloop1.
  pose proof (set_iter_NoDup y) as Hnd.
  rewrite <- (take_drop 6 (set_iter y)) in Hnd, Hrange.
  apply NoDup_app in Hnd as (Hnd_kept & Hdisjoint & _).
  apply Forall_app in Hrange as [Hrange_kept Hrange_dropped].
  assert (∀ l bm, l ∈ (zip (set_iter y) colors).*1 →
                  bm_list w1 !! Z.to_nat l = Some bm → freed bm = false) as Hfreed.
  { intros l bm _ Hbm. rewrite Forall_forall in Hpend1.
    by apply (Hpend1 bm), (list_elem_of_lookup_2 _ (Z.to_nat l)). }
  destruct (add_objects_meshes (zip (set_iter y) colors) w1)
    as (w' & objs & Hloop2 & Hmeshes); [| |done|].
  { by rewrite fst_zip_colors_take. }
  { by rewrite fst_zip_colors_take, Hlen1. }
  destruct (add_objects_ok (zip (set_iter y) colors) w1)
    as (w'' & Hloop2' & _ & _ & _ & _ & _ & Hframe & _); [| |done|].
  { by rewrite fst_zip_colors_take. }
  { by rewrite fst_zip_colors_take, Hlen1. }
  rewrite Hloop2 in Hloop2'. injection Hloop2' as <- _.
  exists w', objs. split; [done|]. split.
  - rewrite Hmeshes. unfold w0 in Hm1. simpl in Hm1. rewrite Hm1. f_equal.
    rewrite zip_colors_take_any.
    assert (length (take 6 (set_iter y)) ≤ length colors)%nat as Hshort.
    { rewrite length_take. change (length colors) with 6%nat. lia. }
    rewrite <- (fst_zip (take 6 (set_iter y)) colors Hshort) at 2.
    rewrite <- list_fmap_compose.
    apply list_fmap_ext. intros i [l c] Hp. simpl.
    rewrite Hgeo1; [done|].
    apply list_elem_of_lookup_2, elem_of_zip_l in Hp.
    rewrite <- (take_drop 6 (set_iter y)). apply elem_of_app. by left.
  - intros l Hl.
    assert (l ∈ set_iter y) as Hl_set.
    { rewrite <- (take_drop 6 (set_iter y)). apply elem_of_app. by right. }
    exists (BMesh (primitive_of size <$> points_of l (zip X y)) false false).
    split; [|done].
    rewrite Hframe; [by apply Hgeo1|].
    rewrite fst_zip_colors_take.
    intros (l' & Heq & Hl')%list_elem_of_fmap.
    rewrite Forall_forall in Hrange_kept, Hrange_dropped.
    pose proof (Hrange_kept l' Hl'). pose proof (Hrange_dropped l Hl).
    assert (l = l') as -> by lia. by apply (Hdisjoint l').
Qed.
End create_scatter_further_claims.

Lemma three_labels (v : Z) : v ∈ [0; 1; 0; 2] ↔ 0 ≤ v < Z.of_nat 3.
Proof. rewrite !elem_of_cons, elem_of_nil. lia. Defined.

Lemma four_points_3d :
  Forall (λ x : list (@F rational_numpy), length x = 3%nat ∨ length x = 4%nat)
         four_points.
Proof. repeat constructor. Defined.

Lemma create_scatter_invalid_label_witness :
  ∃ w', create_scatter seven_points [0; 1; 2; 3; 4; 5; 7] 1%Q empty_world
          = (w', raise IndexError) ∧
        same_data empty_world w'.
Proof.
  apply (create_scatter_invalid_label seven_points [0; 1; 2; 3; 4; 5; 7] 1%Q
           empty_world).
  - repeat constructor.
  - apply Exists_exists. exists ([0; 0; 0]%Q, 7). split.
    + apply list_elem_of_lookup. exists 6%nat. reflexivity.
    + intros [_ Hlt]. vm_compute in Hlt. discriminate.
Defined.

Lemma create_scatter_at_most_six_witness :
  ∃ w',
    create_scatter four_points [0; 1; 0; 2] 1%Q empty_world
      = (w', ok (scatter_object <$> set_iter [0; 1; 0; 2])) ∧
    length (set_iter [0; 1; 0; 2]) = 3%nat ∧
    objects w' = objects empty_world ++ (scatter_object <$> set_iter [0; 1; 0; 2]) ∧
    materials w'
      = materials empty_world
          ++ (scatter_material <$> zip (set_iter [0; 1; 0; 2]) colors) ∧
    length (bm_list w') = 3%nat ∧
    Forall released (bm_list w').
Proof.
  apply (create_scatter_at_most_six four_points [0; 1; 0; 2] 1%Q empty_world 3).
  - exact four_points_3d.
  - exact three_labels.
  - lia.
Defined.

Lemma create_scatter_mesh_geometry_witness :
  ∃ w' objs,
    create_scatter four_points [0; 1; 0; 2] 1%Q empty_world = (w', ok objs) ∧
    meshes w' = meshes empty_world ++
      ((λ l, Mesh ("ScatterMesh"%string, l)
                  (primitive_of 1%Q <$> points_of l (zip four_points [0; 1; 0; 2]))
                  [("ScatterMaterial"%string, l)])
         <$> take 6 (set_iter [0; 1; 0; 2])) ∧
    ∀ l, l ∈ drop 6 (set_iter [0; 1; 0; 2]) →
         ∃ bm, bm_list w' !! Z.to_nat l = Some bm ∧
               geometry bm
                 = primitive_of 1%Q <$> points_of l (zip four_points [0; 1; 0; 2]).
Proof.
  apply (create_scatter_mesh_geometry four_points [0; 1; 0; 2] 1%Q empty_world 3).
  - exact four_points_3d.
  - exact three_labels.
Defined.

(** ** [create_labels] *)

Lemma py_getitem_valid {A : Type} (l : list A) (i : Z) :
  - Z.of_nat (length l) ≤ i < Z.of_nat (length l) → ∃ a, py_getitem l i = ok a.
Proof.
  intros Hi. unfold py_getitem.
  destruct (py_index_valid _ _ Hi) as (j & -> & Hj). simpl.
  destruct (lookup_lt_is_Some_2 l j Hj) as [a ->]. by exists a.
Qed.

Lemma py_getitem_invalid {A : Type} (l : list A) (i : Z) :
  ¬ (- Z.of_nat (length l) ≤ i < Z.of_nat (length l)) →
  py_getitem l i = raise IndexError.
Proof.
  intros Hi. unfold py_getitem. by rewrite py_index_invalid.
Qed.

Lemma py_getitem_nonneg {A : Type} (l : list A) (i : Z) (a : A) :
  0 ≤ i → py_getitem l i = ok a → l !! Z.to_nat i = Some a.
Proof.
  intros Hi. unfold py_getitem, py_index.
  case_bool_decide; simpl.
  - destruct (l !! Z.to_nat i); [by intros [= ->] | done].
  - rewrite bool_decide_eq_false_2 by lia. done.
Qed.

Section create_labels_facts.
Context `{Numpy} `{PySet}.
Variable pi : F.

Lemma points_labelled_nonempty (X : list (list F)) (y : list Z) (l : Z) :
  (length y ≤ length X)%nat → l ∈ y →
  ∃ x rest, points_labelled X y l = x :: rest.
Proof.
  intros Hlen (i & Hi)%list_elem_of_lookup_1.
  destruct (lookup_lt_is_Some_2 X i) as [x Hx].
  { pose proof (lookup_lt_Some _ _ _ Hi). lia. }
  assert ((x, l) ∈ filter (λ p : list F * Z, p.2 = l) (zip X y)) as Hin.
  { apply list_elem_of_filter. split; [done|].
    apply list_elem_of_lookup. exists i.
    by rewrite lookup_zip_with, Hx, Hi. }
  unfold points_labelled.
  destruct (filter _ (zip X y)) as [|p ps]; [by apply elem_of_nil in Hin|].
  simpl. eauto.
Qed.

Lemma points_labelled_3d (X : list (list F)) (y : list Z) (l : Z) :
  Forall (λ x, length x = 3%nat) X →
  Forall (λ x, length x = 3%nat) (points_labelled X y l).
Proof.
  intros HX. apply Forall_forall. intros x (p & -> & Hp)%list_elem_of_fmap.
  apply list_elem_of_filter in Hp as [_ Hp]. destruct p as [x l'].
  rewrite Forall_forall in HX. by apply HX, (elem_of_zip_l x l' X y).
Qed.

Lemma count_label_pos (y : list Z) (l : Z) : l ∈ y → count_label y l ≠ 0%nat.
Proof.
  intros Hl. unfold count_label.
  assert (l ∈ filter (λ v, v = l) y) as Hin by (by apply list_elem_of_filter).
  destruct (filter _ y); [by apply elem_of_nil in Hin | done].
Qed.

Lemma centroid_steps (X : list (list F)) (y : list Z) (l : Z) :
  Forall (λ x, length x = 3%nat) X →
  (length y ≤ length X)%nat →
  l ∈ y →
  ∃ s, vector_of_sum (points_labelled X y l) = inr s ∧
       vector_div s (count_label y l) = inr (centroid X y l) ∧
       vector_lift (centroid X y l)
         = inr (zip_with fadd (centroid X y l) [f0; f0; f_0_8]).
Proof.
  intros HX Hlen Hl.
  destruct (points_labelled_nonempty X y l Hlen Hl) as (x & rest & Hsel).
  pose proof (points_labelled_3d X y l HX) as H3d.
  rewrite Hsel in H3d. apply Forall_cons in H3d as [Hx _].
  eexists. split; [|split].
  - unfold vector_of_sum. rewrite Hsel, <- Hsel, Hx.
    rewrite bool_decide_eq_true_2 by (rewrite length_map, length_seq; lia).
    done.
  - unfold vector_div.
    rewrite bool_decide_eq_false_2 by (by apply count_label_pos).
    unfold centroid. by rewrite map_map.
  - unfold vector_lift.
    rewrite bool_decide_eq_true_2; [done|].
    unfold centroid. by rewrite length_map, length_seq.
Qed.

(** One round of the loop for a label of [y] that [labels] accepts. *)
Lemma create_label_ok (X : list (list F)) (y : list Z) (labels : list string)
    (camera : option string) (l : Z) (label : string) (w : label_world) :
  Forall (λ x, length x = 3%nat) X →
  (length y ≤ length X)%nat →
  l ∈ y →
  py_getitem labels l = ok label →
  create_label pi X y labels camera l w
    = (LabelWorld
         (curves w ++ [FontCurve label label "CENTER" "BOTTOM" f_0_6])
         (texts w ++ [label_object pi X y camera l label])
         (texts_linked w ++ [String.append "Label " label]),
       inr (label_object pi X y camera l label)).
Proof.
  intros HX Hlen Hl Hlabel.
  destruct (centroid_steps X y l HX Hlen Hl) as (s & Hsum & Hdiv & Hlift).
  unfold create_label, mbind, hostful_bind, hlift, hmodify, mret, hostful_ret.
  rewrite Hsum. cbn beta iota. rewrite Hdiv. cbn beta iota.
  rewrite Hlabel. unfold python, ok. cbn beta iota.
  rewrite Hlift. cbn beta iota.
  unfold text_placed, texts_new, curves_new. cbn [curves texts texts_linked text_name].
  by rewrite alter_last.
Qed.

(** One round for a label of [y] that [labels] rejects: the centroid is
    computed, then [labels[label_idx]] raises. *)
Lemma create_label_invalid (X : list (list F)) (y : list Z) (labels : list string)
    (camera : option string) (l : Z) (w : label_world) :
  Forall (λ x, length x = 3%nat) X →
  (length y ≤ length X)%nat →
  l ∈ y →
  ¬ valid_index (length labels) l →
  create_label pi X y labels camera l w = (w, inl (Python IndexError)).
Proof.
  intros HX Hlen Hl Hinvalid.
  destruct (centroid_steps X y l HX Hlen Hl) as (s & Hsum & Hdiv & Hlift).
  unfold create_label, mbind, hostful_bind, hlift, hmodify, mret, hostful_ret.
  rewrite Hsum. cbn beta iota. rewrite Hdiv. cbn beta iota.
  by rewrite py_getitem_invalid by done.
Qed.

Lemma create_labels_loop_ok (X : list (list F)) (y : list Z) (labels : list string)
    (camera : option string) (ls : list Z) (bodies : list string) (w : label_world) :
  Forall (λ x, length x = 3%nat) X →
  (length y ≤ length X)%nat →
  Forall (λ l, l ∈ y) ls →
  Forall2 (λ l b, py_getitem labels l = ok b) ls bodies →
  let objs := zip_with (label_object pi X y camera) ls bodies in
  create_labels_loop pi X y labels camera ls w
    = (LabelWorld
         (curves w ++ ((λ b, FontCurve b b "CENTER" "BOTTOM" f_0_6) <$> bodies))
         (texts w ++ objs)
         (texts_linked w ++ (String.append "Label " <$> bodies)),
       inr objs).
Proof.
  intros HX Hlen Hls Hbodies. revert w Hls.
  induction Hbodies as [|l b ls bodies Hb _ IH]; intros w Hls; simpl.
  - rewrite !app_nil_r. by destruct w.
  - apply Forall_cons in Hls as [Hl Hls].
    unfold mbind at 1, hostful_bind at 1.
    rewrite (create_label_ok X y labels camera l b w HX Hlen Hl Hb).
    unfold mbind at 1, hostful_bind at 1.
    simpl in IH. rewrite IH by done. simpl.
    by rewrite <- !app_assoc.
Qed.

Lemma create_labels_loop_invalid (X : list (list F)) (y : list Z)
    (labels : list string) (camera : option string) (ls : list Z) (w : label_world) :
  Forall (λ x, length x = 3%nat) X →
  (length y ≤ length X)%nat →
  Forall (λ l, l ∈ y) ls →
  Exists (λ l, ¬ valid_index (length labels) l) ls →
  ∃ w', create_labels_loop pi X y labels camera ls w = (w', inl (Python IndexError)).
Proof.
  intros HX Hlen Hls Hex. revert w.
  induction ls as [|l ls IH]; intros w; [by apply Exists_nil in Hex|].
  apply Forall_cons in Hls as [Hl Hls].
  cbn [create_labels_loop]. unfold mbind at 1, hostful_bind at 1.
  destruct (decide (valid_index (length labels) l)) as [Hvalid|Hinvalid].
  - destruct (py_getitem_valid labels l Hvalid) as [b Hb].
    rewrite (create_label_ok X y labels camera l b w HX Hlen Hl Hb).
    apply Exists_cons in Hex as [?|Hex]; [done|].
    destruct (IH Hls Hex (LabelWorld
         (curves w ++ [FontCurve b b "CENTER" "BOTTOM" f_0_6])
         (texts w ++ [label_object pi X y camera l b])
         (texts_linked w ++ [String.append "Label " b]))) as [w' Hw'].
    exists w'. unfold mbind at 1, hostful_bind at 1. by rewrite Hw'.
  - rewrite (create_label_invalid X y labels camera l w HX Hlen Hl Hinvalid).
    by exists w.
Qed.
End create_labels_facts.

Lemma Forall2_lookup_seq {A : Type} (w k : list A) :
  Forall2 (λ i x, w !! i = Some x) (seq 0 (length w)) k → k = w.
Proof.
  intros Hk. apply list_eq. intros i.
  pose proof (Forall2_length _ _ _ Hk) as Hlen. rewrite length_seq in Hlen.
  destruct (decide (i < length w)%nat) as [Hi|Hi].
  - destruct (lookup_lt_is_Some_2 k i) as [x Hx]; [lia|].
    pose proof (Forall2_lookup_lr _ _ _ i i x Hk (lookup_seq_lt 0 _ _ Hi) Hx) as Hw.
    simpl in Hw. by rewrite Hx.
  - by rewrite !lookup_ge_None_2 by lia.
Qed.

Lemma Forall2_py_getitem_total (labels : list string) (ls : list Z) :
  Forall (valid_index (length labels)) ls →
  ∃ bodies, Forall2 (λ l b, py_getitem labels l = ok b) ls bodies.
Proof.
  induction 1 as [|l ls Hl _ (bodies & Hbodies)]; [by exists []|].
  destruct (py_getitem_valid labels l Hl) as [b Hb].
  exists (b :: bodies). by constructor.
Qed.

Section create_labels_claims.
Context `{Numpy} `{PySet} `{!PySetContract}.
Variable pi : F.

(** X13: when every label of [y] is a valid position of [labels] (and
    every entry of [y] has its three-dimensional point), [create_labels]
    raises nothing and makes one font curve and one linked text object
    for each distinct label, however many there are (no limit of six as
    in [create_scatter]): its text is [labels[label_idx]], it stands 0.8
    above the mean of the label's points, and it tracks the camera if
    there is one. *)
Theorem create_labels_one_per_label (X : list (list F)) (y : list Z)
    (labels : list string) (camera : option string) (w : label_world) :
  Forall (λ x, length x = 3%nat) X →
  (length y ≤ length X)%nat →
  (∀ l, l ∈ y → valid_index (length labels) l) →
  ∃ bodies,
    Forall2 (λ l b, py_getitem labels l = ok b) (set_iter y) bodies ∧
    let objs := zip_with (label_object pi X y camera) (set_iter y) bodies in
    create_labels pi X y labels camera w
      = (LabelWorld
           (curves w ++ ((λ b, FontCurve b b "CENTER" "BOTTOM" f_0_6) <$> bodies))
           (texts w ++ objs)
           (texts_linked w ++ (String.append "Label " <$> bodies)),
         inr objs) ∧
    length objs = length (set_iter y).
Proof.
  intros HX Hlen Hvalid.
  assert (Forall (λ l, l ∈ y) (set_iter y)) as Hin.
  { apply Forall_forall. intros l. apply set_iter_elem. }
  destruct (Forall2_py_getitem_total labels (set_iter y)) as [bodies Hbodies].
  { eapply Forall_impl; [exact Hin|]. exact Hvalid. }
  exists bodies. split; [done|]. split.
  - by apply create_labels_loop_ok.
  - rewrite length_zip_with, <- (Forall2_length _ _ _ Hbodies). lia.
Qed.

(** X14: a label of [y] that is not a valid position of [labels] makes
    [create_labels] raise [IndexError]. *)
Theorem create_labels_invalid_label (X : list (list F)) (y : list Z)
    (labels : list string) (camera : option string) (w : label_world) :
  Forall (λ x, length x = 3%nat) X →
  (length y ≤ length X)%nat →
  Exists (λ l, ¬ valid_index (length labels) l) y →
  ∃ w', create_labels pi X y labels camera w = (w', inl (Python IndexError)).
Proof.
  intros HX Hlen Hex. apply create_labels_loop_invalid; [done | done | |].
  - apply Forall_forall. intros l. apply set_iter_elem.
  - apply Exists_exists in Hex as (l & Hl & Hinvalid).
    apply Exists_exists. exists l. split; [by apply set_iter_elem | done].
Qed.

(** X15: the targets and labels that [load_iris] returns always fit
    [create_labels]: with a three-dimensional point for every row it
    raises nothing and makes exactly one text object per class name,
    each class name being the text of exactly one of them. *)
Theorem create_labels_after_load_iris (column : list string) (ys : list Z)
    (ls : list string) (X : list (list F)) (camera : option string)
    (w : label_world) :
  load_iris column = ok (ys, ls) →
  Forall (λ x, length x = 3%nat) X →
  (length ys ≤ length X)%nat →
  ∃ w' objs,
    create_labels pi X ys ls camera w = (w', inr objs) ∧
    texts w' = texts w ++ objs ∧
    text_data <$> objs ≡ₚ ls.
Proof.
  intros (names & _ & -> & -> & _)%load_iris_ok_names HX Hlen.
  set (ys := map (rank_so_far [] names) (seq 0 (length names))) in *.
  set (ls := first_seen names).
  assert (Forall (λ l, 0 ≤ l < Z.of_nat (length ls)) (set_iter ys)) as Hrange.
  { apply Forall_forall. intros l Hl.
    apply (proj1 (set_iter_elem _ _)) in Hl.
    unfold ys in Hl. by apply (proj1 (load_iris_target_values _ _)) in Hl. }
  destruct (Forall2_py_getitem_total ls (set_iter ys)) as [bodies Hbodies].
  { eapply Forall_impl; [exact Hrange|]. unfold valid_index. intros l ?. simpl in *. lia. }
  eexists _, _. split; [|split].
  - apply create_labels_loop_ok; [done | done | | exact Hbodies].
    apply Forall_forall. intros l. apply set_iter_elem.
  - done.
  - assert (text_data <$> zip_with (label_object pi X ys camera) (set_iter ys) bodies
            = bodies) as ->.
    { pose proof (Forall2_length _ _ _ Hbodies) as Hsame.
      revert Hsame. generalize (set_iter ys) bodies. clear.
      intros ks. induction ks as [|l ks IH]; intros [|b bs] Hsame;
        simpl in *; try done.
      f_equal. apply IH. lia. }
    assert (set_iter ys ≡ₚ Z.of_nat <$> seq 0 (length ls)) as Hperm.
    { apply NoDup_Permutation.
      - apply set_iter_NoDup.
      - apply (NoDup_fmap_2 _), NoDup_seq.
      - intros l. rewrite set_iter_elem, list_elem_of_fmap.
        unfold ys. rewrite load_iris_target_values. fold ls. split.
        + intros Hl. exists (Z.to_nat l). split; [lia|]. apply elem_of_seq. lia.
        + intros (n & -> & Hn%elem_of_seq). lia. }
    assert (Forall2 (λ i b, ls !! i = Some b) (Z.to_nat <$> set_iter ys) bodies)
      as Hlookup.
    { apply Forall2_fmap_l.
      eapply Forall2_impl; [|intros l b Hlb; exact Hlb].
      clear Hperm. rewrite Forall_forall in Hrange.
      apply Forall2_same_length_lookup. split; [by eapply Forall2_length|].
      intros i l b Hl Hb.
      pose proof (Forall2_lookup_lr _ _ _ i l b Hbodies Hl Hb) as Hget.
      apply py_getitem_nonneg in Hget; [done|].
      apply (Hrange l). by eapply list_elem_of_lookup_2. }
    destruct (Forall2_lookup_perm ls (Z.to_nat <$> set_iter ys) (seq 0 (length ls))
                bodies) as (bodies' & Hperm' & Hseq); [|done|].
    { rewrite Hperm, <- list_fmap_compose.
      rewrite (list_fmap_ext (Z.to_nat ∘ Z.of_nat) id); [by rewrite list_fmap_id|].
      intros i n _. simpl. lia. }
    rewrite Hperm'. by rewrite (Forall2_lookup_seq ls bodies' Hseq).
Qed.
End create_labels_claims.

Lemma four_points_exactly_3d :
  Forall (λ x : list (@F rational_numpy), length x = 3%nat) four_points.
Proof. repeat constructor. Defined.

Lemma create_labels_one_per_label_witness :
  let labels := ["setosa"; "versicolor"; "virginica"]%string in
  let w := LabelWorld (H := rational_numpy) [] [] [] in
  ∃ bodies,
    Forall2 (λ l b, py_getitem labels l = ok b) (set_iter [0; 1; 0; 2]) bodies ∧
    let objs :=
      zip_with (label_object (22 # 7)%Q four_points [0; 1; 0; 2] (Some "CameraObj"%string))
               (set_iter [0; 1; 0; 2]) bodies in
    create_labels (22 # 7)%Q four_points [0; 1; 0; 2] labels (Some "CameraObj"%string) w
      = (LabelWorld
           (curves w ++ ((λ b, FontCurve b b "CENTER" "BOTTOM" f_0_6) <$> bodies))
           (texts w ++ objs)
           (texts_linked w ++ (String.append "Label " <$> bodies)),
         inr objs) ∧
    length objs = length (set_iter [0; 1; 0; 2]).
Proof.
  intros labels w.
  apply (@create_labels_one_per_label rational_numpy ascending_pyset _ (22 # 7)%Q four_points [0; 1; 0; 2] labels
           (Some "CameraObj"%string) w).
  - exact four_points_exactly_3d.
  - simpl; lia.
  - intros l. rewrite !elem_of_cons, elem_of_nil. unfold valid_index. simpl. lia.
Defined.

Lemma create_labels_invalid_label_witness :
  ∃ w', create_labels (22 # 7)%Q four_points [0; 1; 0; 2] ["setosa"; "versicolor"]%string
          None (LabelWorld (H := rational_numpy) [] [] [])
        = (w', inl (Python IndexError)).
Proof.
  apply (@create_labels_invalid_label rational_numpy ascending_pyset _ (22 # 7)%Q four_points [0; 1; 0; 2]
           ["setosa"; "versicolor"]%string None).
  - exact four_points_exactly_3d.
  - simpl; lia.
  - apply Exists_exists. exists 2. split.
    + apply list_elem_of_lookup. exists 3%nat. reflexivity.
    + unfold valid_index. simpl. lia.
Defined.

Lemma create_labels_after_load_iris_witness :
  ∃ w' objs,
    create_labels (22 # 7)%Q four_points [0; 1; 1; 2]
                  ["setosa"; "versicolor"; "virginica"]%string None
                  (LabelWorld (H := rational_numpy) [] [] [])
      = (w', inr objs) ∧
    texts w' = [] ++ objs ∧
    text_data <$> objs ≡ₚ ["setosa"; "versicolor"; "virginica"]%string.
Proof.
  apply (@create_labels_after_load_iris rational_numpy ascending_pyset _ (22 # 7)%Q
           ["Iris-setosa"; "Iris-versicolor"; "Iris-versicolor"; "Iris-virginica"]%string
           [0; 1; 1; 2] ["setosa"; "versicolor"; "virginica"]%string
           four_points None).
  - reflexivity.
  - exact four_points_exactly_3d.
  - simpl; lia.
Defined.

(** ** [utils.bmesh_to_object] *)

Section bmesh_to_object_facts.
Context `{Numpy}.

(** The run of [bmesh_to_object] on a bmesh that has not been freed. *)
Lemma bmesh_to_object_run (bm : ref) (name : string) (s : scene) (b : bmesh) :
  bmeshes s !! bm = Some b →
  freed b = false →
  bmesh_to_object bm name s
    = (Scene (<[bm := BMesh (geometry b) true true]> (bmeshes s))
             (scene_meshes s ++ [NamedMesh (String.append name "Mesh") (geometry b)])
             (scene_objects s ++ [NamedObject name (String.append name "Mesh")])
             (scene_linked s ++ [name]),
       ok (NamedObject name (String.append name "Mesh"))).
Proof.
  intros Hb Hfreed. destruct s as [bs ms os ls]. destruct b as [g c f].
  simpl in Hb, Hfreed. subst f.
  unfold bmesh_to_object, mbind, stateful_bind, modify, bmesh_call, mret,
    stateful_ret, scene_meshes_new, scene_mesh_fill, scene_objects_new_linked,
    bmesh_to_mesh, bmesh_free, ok.
  cbn [bmeshes scene_meshes scene_objects scene_linked geometry converted freed
       named_object_name named_mesh_name].
  rewrite Hb. cbn [bmeshes scene_meshes scene_objects scene_linked geometry
                   converted freed].
  rewrite lookup_insert_eq.
  cbn [bmeshes scene_meshes scene_objects scene_linked geometry converted freed
       named_object_name named_mesh_name].
  rewrite insert_insert_eq. f_equal. f_equal.
  rewrite length_app. simpl length.
  replace (pred (length ms + 1)) with (length ms + 0)%nat by lia.
  by rewrite alter_app_r.
Qed.

(** On a freed bmesh the call raises after the mesh has been created. *)
Lemma bmesh_to_object_freed (bm : ref) (name : string) (s : scene) (b : bmesh) :
  bmeshes s !! bm = Some b →
  freed b = true →
  bmesh_to_object bm name s
    = (Scene (bmeshes s)
             (scene_meshes s ++ [NamedMesh (String.append name "Mesh") []])
             (scene_objects s) (scene_linked s),
       raise ReferenceError).
Proof.
  intros Hb Hfreed. destruct s as [bs ms os ls]. destruct b as [g c f].
  simpl in Hb, Hfreed. subst f.
  unfold bmesh_to_object, mbind, stateful_bind, modify, bmesh_call,
    scene_meshes_new, bmesh_to_mesh.
  cbn [bmeshes scene_meshes scene_objects scene_linked freed].
  by rewrite Hb.
Qed.

(** X16: on a bmesh that has not been freed, [bmesh_to_object] returns
    an object named [name] on a new mesh named [name + 'Mesh'] that
    holds the bmesh's geometry; the object is the last one linked to the
    scene; the bmesh is left converted and freed, and every other bmesh,
    mesh and object is as it was. *)
Theorem bmesh_to_object_live (bm : ref) (name : string) (s : scene) (b : bmesh) :
  bmeshes s !! bm = Some b →
  freed b = false →
  ∃ s',
    bmesh_to_object bm name s
      = (s', ok (NamedObject name (String.append name "Mesh"))) ∧
    scene_meshes s'
      = scene_meshes s ++ [NamedMesh (String.append name "Mesh") (geometry b)] ∧
    scene_objects s'
      = scene_objects s ++ [NamedObject name (String.append name "Mesh")] ∧
    scene_linked s' = scene_linked s ++ [name] ∧
    bmeshes s' !! bm = Some (BMesh (geometry b) true true) ∧
    ∀ bm', bm' ≠ bm → bmeshes s' !! bm' = bmeshes s !! bm'.
Proof.
  intros Hb Hfreed. eexists. split; [by apply bmesh_to_object_run|].
  cbn [scene_meshes scene_objects scene_linked bmeshes].
  split; [done|]. split; [done|]. split; [done|].
  split; [apply lookup_insert_eq|].
  intros bm' Hbm'. by apply lookup_insert_ne.
Qed.

(** X17: [bmesh_to_object] uses its bmesh up. A second call on the same
    bmesh raises [ReferenceError], but only after it has created its
    mesh: an empty mesh named [name + 'Mesh'] stays behind, with no
    object for it. *)
Theorem bmesh_to_object_twice (bm : ref) (name1 name2 : string) (s : scene)
    (b : bmesh) :
  bmeshes s !! bm = Some b →
  freed b = false →
  ∃ s1 obj,
    bmesh_to_object bm name1 s = (s1, ok obj) ∧
    bmesh_to_object bm name2 s1
      = (Scene (bmeshes s1)
               (scene_meshes s ++ [NamedMesh (String.append name1 "Mesh") (geometry b);
                                   NamedMesh (String.append name2 "Mesh") []])
               (scene_objects s ++ [obj])
               (scene_linked s ++ [name1]),
         raise ReferenceError).
Proof.
  intros Hb Hfreed. eexists _, _. split.
  - by apply bmesh_to_object_run.
  - rewrite (bmesh_to_object_freed bm name2 _ (BMesh (geometry b) true true)).
    + cbn [bmeshes scene_meshes scene_objects scene_linked].
      by rewrite <- app_assoc.
    + cbn [bmeshes]. apply lookup_insert_eq.
    + done.
Qed.
End bmesh_to_object_facts.

Lemma bmesh_to_object_live_witness :
  ∃ s',
    bmesh_to_object 1%positive "Scatter" one_cube_scene
      = (s', ok (NamedObject "Scatter" "ScatterMesh")) ∧
    scene_meshes s' = [] ++ [NamedMesh "ScatterMesh" [unit_cube]] ∧
    scene_objects s' = [] ++ [NamedObject "Scatter" "ScatterMesh"] ∧
    scene_linked s' = [] ++ ["Scatter"%string] ∧
    bmeshes s' !! 1%positive = Some (BMesh [unit_cube] true true) ∧
    ∀ bm', bm' ≠ 1%positive → bmeshes s' !! bm' = bmeshes one_cube_scene !! bm'.
Proof.
  apply (bmesh_to_object_live (H := rational_numpy) 1%positive "Scatter"
           one_cube_scene (BMesh [unit_cube] false false));
    reflexivity.
Defined.

Lemma bmesh_to_object_twice_witness :
  ∃ s1 obj,
    bmesh_to_object 1%positive "Scatter" one_cube_scene = (s1, ok obj) ∧
    bmesh_to_object 1%positive "Again" s1
      = (Scene (H := rational_numpy) (bmeshes s1)
               ([] ++ [NamedMesh (H := rational_numpy) "ScatterMesh" [unit_cube];
                       NamedMesh "AgainMesh" []])
               ([] ++ [obj])
               ([] ++ ["Scatter"%string]),
         raise ReferenceError).
Proof.
  apply (bmesh_to_object_twice (H := rational_numpy) 1%positive "Scatter" "Again"
           one_cube_scene (BMesh (H := rational_numpy) [unit_cube] false false));
    reflexivity.
Defined.

(** ** [utils.rainbow_lights] *)

Lemma float_max_int_pos : 0 < float_max_int.
Proof. reflexivity. Qed.

Section rainbow_lights_facts.
Context `{Numpy}.
Variable pi : F.
Variable sin cos : F → option F.
Variable pow_2_2 : F → F.
Variable hsv_to_rgb : F → F → F → F * F * F.

Lemma py_float_small (i : Z) :
  0 ≤ i < float_max_int → py_float i = inr (f_of_nat (Z.to_nat i)).
Proof.
  intros Hi. unfold py_float.
  rewrite bool_decide_eq_true_2 by lia.
  by rewrite bool_decide_eq_false_2 by lia.
Qed.

Lemma py_float_large (n : Z) :
  float_max_int ≤ n → py_float n = inl OverflowError.
Proof.
  intros Hn. pose proof float_max_int_pos. unfold py_float.
  by rewrite bool_decide_eq_false_2 by lia.
Qed.

(** One round of the loop either adds its light or raises, and then only
    [OverflowError] or [ValueError]. *)
(** One round of the loop either adds its light or raises, and then only
    [OverflowError] or [ValueError]. *)
Lemma rainbow_light_cases (r : F) (n : Z) (freq energy : F) (i : Z)
    (lights : list light) :
  0 ≤ i < n →
  (∃ l, rainbow_light pi sin cos pow_2_2 hsv_to_rgb r n freq energy i lights
          = (lights ++ [l], inr tt) ∧
        n < float_max_int ∧
        rainbow_point energy l ∧
        rainbow_light_at pi sin cos pow_2_2 hsv_to_rgb r n freq energy i l) ∨
  (rainbow_light pi sin cos pow_2_2 hsv_to_rgb r n freq energy i lights
     = (lights, inl OverflowError) ∧ float_max_int ≤ n) ∨
  (rainbow_light pi sin cos pow_2_2 hsv_to_rgb r n freq energy i lights
     = (lights, inl (Python ValueError)) ∧ n < float_max_int ∧
   ∀ l, ¬ rainbow_light_at pi sin cos pow_2_2 hsv_to_rgb r n freq energy i l).
Proof.
  intros Hi. unfold rainbow_light, mbind, hostful_bind, hlift, hmodify.
  destruct (decide (n < float_max_int)) as [Hn|Hn].
  - rewrite (py_float_small i), (py_float_small n) by lia.
    rewrite bool_decide_eq_false_2 by lia.
    fold (rainbow_t n i). unfold math_call.
    destruct (sin (fmul (TAU pi) (rainbow_t n i))) as [s1|] eqn:Hs1.
    2:{ right. right. split; [done|]. split; [done|].
        intros l (? & ? & ? & Hs & _). simpl in Hs. congruence. }
    destruct (cos (fmul (TAU pi) (rainbow_t n i))) as [c1|] eqn:Hc1.
    2:{ right. right. split; [done|]. split; [done|].
        intros l (? & ? & ? & _ & Hc & _). simpl in Hc. congruence. }
    destruct (sin (fmul (fmul freq (TAU pi)) (rainbow_t n i))) as [s2|] eqn:Hs2.
    2:{ right. right. split; [done|]. split; [done|].
        intros l (? & ? & ? & _ & _ & Hs & _). simpl in Hs. congruence. }
    left.
    destruct (hsv_to_rgb (rainbow_t n i) (fdiv (f_of_nat 6) (f_of_nat 10)) f1)
      as [[cr cg] cb] eqn:Hrgb.
    eexists. split; [done|]. split; [done|]. split; [done|].
    exists s1, c1, s2. simpl. by rewrite Hrgb.
  - right. left. split; [|lia].
    destruct (decide (i < float_max_int)) as [Hi'|Hi'].
    + rewrite (py_float_small i) by lia. by rewrite (py_float_large n) by lia.
    + by rewrite (py_float_large i) by lia.
Qed.
Local Abbreviation body r n freq energy :=
  (rainbow_light pi sin cos pow_2_2 hsv_to_rgb r n freq energy).
Local Abbreviation light_at r n freq energy :=
  (rainbow_light_at pi sin cos pow_2_2 hsv_to_rgb r n freq energy).

(** The loop over any rounds below [n]. *)
Lemma rainbow_loop (r : F) (n : Z) (freq energy : F) (xs : list Z) :
  Forall (λ i, 0 ≤ i < n) xs →
  ∀ lights, ∃ new res,
    for_each_host (body r n freq energy) xs lights = (lights ++ new, res) ∧
    Forall (rainbow_point energy) new ∧
    Forall2 (light_at r n freq energy) (take (length new) xs) new ∧
    (res = inr tt ∧ length new = length xs ∧ (xs ≠ [] → n < float_max_int) ∨
     res = inl OverflowError ∧ new = [] ∧ float_max_int ≤ n ∨
     res = inl (Python ValueError) ∧ n < float_max_int ∧
       ∃ i, xs !! length new = Some i ∧ ∀ l, ¬ light_at r n freq energy i l).
Proof.
  induction 1 as [|i xs Hi _ IH]; intros lights.
  - exists [], (inr tt). simpl. rewrite app_nil_r.
    split; [done|]. split; [done|]. split; [done|]. left. done.
  - cbn [for_each_host]. unfold mbind at 1, hostful_bind at 1.
    destruct (rainbow_light_cases r n freq energy i lights Hi)
      as [(l & -> & Hn & Hpoint & Hat) | [[-> Hn] | (-> & Hn & Hno)]].
    + destruct (IH (lights ++ [l])) as (new & res & -> & Hpoints & Hats & Hres).
      exists (l :: new), res. rewrite <- app_assoc. simpl.
      split; [done|]. split; [by constructor|]. split; [by constructor|].
      destruct Hres as [(-> & Hlen & _) | [(-> & -> & ?) | (-> & _ & j & Hj & Hnoj)]].
      * left. split; [done|]. split; [by rewrite Hlen | done].
      * lia.
      * right. right. split; [done|]. split; [done|]. by exists j.
    + exists [], (inl OverflowError). rewrite app_nil_r. simpl.
      split; [done|]. split; [done|]. split; [done|]. right. left. done.
    + exists [], (inl (Python ValueError)). rewrite app_nil_r. simpl.
      split; [done|]. split; [done|]. split; [done|]. right. right.
      split; [done|]. split; [done|]. by exists i.
Qed.

Lemma Forall_seqZ_range (n : Z) : Forall (λ i, 0 ≤ i < n) (seqZ 0 n).
Proof. apply Forall_forall. intros i Hi%elem_of_seqZ. lia. Qed.

Lemma take_seqZ (k : nat) (n : Z) :
  (k ≤ Z.to_nat n)%nat → take k (seqZ 0 n) = seqZ 0 (Z.of_nat k).
Proof.
  intros Hk. unfold seqZ. rewrite <- fmap_take, take_seq, Nat2Z.id.
  by rewrite Nat.min_l by lia.
Qed.
End rainbow_lights_facts.

Section rainbow_lights_claims.
Context `{Numpy}.
Variable pi : F.
Variable sin cos : F → option F.
Variable pow_2_2 : F → F.
Variable hsv_to_rgb : F → F → F → F * F * F.

(** X18: whatever its arguments, [rainbow_lights] keeps the lights there
    are and adds its own after them, one per round and in the order of
    the rounds, each a ['POINT'] light of the given energy with a place
    and a colour of three components.  It ends in one of three ways: it
    returns after [max(n, 0)] lights; it raises [OverflowError] before
    any light, exactly when [n] is too large for a float; or it raises
    [ValueError] at the first round where a sine or the cosine has no
    value.  In particular it never raises [ZeroDivisionError], although
    it divides by [float(n)]: with [n <= 0] there is no round. *)
Theorem rainbow_lights_outcomes (r : F) (n : Z) (freq energy : F)
    (lights : list light) :
  ∃ new res,
    rainbow_lights pi sin cos pow_2_2 hsv_to_rgb r n freq energy lights
      = (lights ++ new, res) ∧
    Forall (rainbow_point energy) new ∧
    Forall2 (rainbow_light_at pi sin cos pow_2_2 hsv_to_rgb r n freq energy)
            (seqZ 0 (Z.of_nat (length new))) new ∧
    (res = inr tt ∧ length new = Z.to_nat n ∧ n < float_max_int ∨
     res = inl OverflowError ∧ new = [] ∧ float_max_int ≤ n ∨
     res = inl (Python ValueError) ∧ (length new < Z.to_nat n)%nat ∧
       n < float_max_int ∧
       ∀ l, ¬ rainbow_light_at pi sin cos pow_2_2 hsv_to_rgb r n freq energy
                (Z.of_nat (length new)) l).
Proof.
  unfold rainbow_lights.
  destruct (rainbow_loop pi sin cos pow_2_2 hsv_to_rgb r n freq energy (seqZ 0 n)
              (Forall_seqZ_range n) lights)
    as (new & res & -> & Hpoints & Hats & Hres).
  exists new, res. split; [done|]. split; [done|].
  assert (length new ≤ Z.to_nat n)%nat as Hle.
  { apply Forall2_length in Hats. rewrite length_take, length_seqZ in Hats. lia. }
  split; [by rewrite <- (take_seqZ _ n)|].
  destruct Hres as [(-> & Hlen & Hn) | [(-> & -> & ?) | (-> & Hn & i & Hi & Hno)]].
  - left. split; [done|]. rewrite length_seqZ in Hlen. split; [done|].
    destruct (decide (n ≤ 0)) as [?|Hpos]; [pose proof float_max_int_pos; lia|].
    apply Hn. intros Hnil. apply (f_equal length) in Hnil.
    rewrite length_seqZ in Hnil. simpl in Hnil. lia.
  - right. left. done.
  - right. right. split; [done|].
    apply lookup_seqZ in Hi as [-> Hlt]. split; [lia|]. split; [done|].
    by rewrite Z.add_0_l in Hno.
Qed.

(** X19: when [n] fits a float and the sines and the cosine have a value
    at the angles of every round, [rainbow_lights] returns with exactly
    [max(n, 0)] new lights, the light of round [i] at
    [(r sin(TAU t), r cos(TAU t), r sin(freq TAU t))] for [t = i / n]. *)
Theorem rainbow_lights_returns (r : F) (n : Z) (freq energy : F)
    (lights : list light) :
  n < float_max_int →
  (∀ i, 0 ≤ i < n →
     ∃ l, rainbow_light_at pi sin cos pow_2_2 hsv_to_rgb r n freq energy i l) →
  ∃ new,
    rainbow_lights pi sin cos pow_2_2 hsv_to_rgb r n freq energy lights
      = (lights ++ new, inr tt) ∧
    length new = Z.to_nat n ∧
    Forall2 (rainbow_light_at pi sin cos pow_2_2 hsv_to_rgb r n freq energy)
            (seqZ 0 n) new.
Proof.
  intros Hn Hdefined. unfold rainbow_lights.
  destruct (rainbow_loop pi sin cos pow_2_2 hsv_to_rgb r n freq energy (seqZ 0 n)
              (Forall_seqZ_range n) lights)
    as (new & res & -> & _ & Hats & Hres).
  exists new.
  destruct Hres as [(-> & Hlen & _) | [(-> & -> & ?) | (-> & _ & i & Hi & Hno)]].
  - rewrite length_seqZ in Hlen. split; [done|]. split; [done|].
    rewrite take_ge in Hats; [done|]. rewrite length_seqZ. lia.
  - lia.
  - apply lookup_seqZ in Hi as [-> Hlt].
    destruct (Hdefined (0 + Z.of_nat (length new))) as [l Hl]; [lia|].
    by destruct (Hno l).
Qed.
End rainbow_lights_claims.

Lemma rainbow_lights_returns_witness :
  ∃ new,
    rainbow_lights (H := rational_numpy) (22 # 7)%Q (λ _, Some 0%Q) (λ _, Some 1%Q)
                   (λ c, c) (λ h s v, (v, s, h)) 5%Q 3 2%Q (1 # 10)%Q []
      = ([] ++ new, inr tt) ∧
    length new = Z.to_nat 3 ∧
    Forall2 (rainbow_light_at (H := rational_numpy) (22 # 7)%Q (λ _, Some 0%Q)
               (λ _, Some 1%Q) (λ c, c) (λ h s v, (v, s, h)) 5%Q 3 2%Q (1 # 10)%Q)
            (seqZ 0 3) new.
Proof.
  apply (rainbow_lights_returns (H := rational_numpy) (22 # 7)%Q (λ _, Some 0%Q)
           (λ _, Some 1%Q) (λ c, c) (λ h s v, (v, s, h)) 5%Q 3 2%Q (1 # 10)%Q []).
  - reflexivity.
  - intros i _. eexists. exists 0%Q, 1%Q, 0%Q. repeat split.
Defined.

(** ** The manual branch of [load_iris] as a whole *)

Section load_iris_manual_facts.
Context `{Numpy} `{!NumpyContract}.
Variable parse_float : string → option F.

Local Abbreviation parsed :=
  (λ s, match parse_float s with
        | Some x => ok x
        | None => raise ValueError
        end).

Lemma mapM_parsed_cases (r : list string) :
  (Forall (λ s, is_Some (parse_float s)) r ∧
   ∃ xs, mapM parsed r = ok xs ∧ length xs = length r) ∨
  (Exists (λ s, parse_float s = None) r ∧ mapM parsed r = raise ValueError).
Proof.
  induction r as [|s r IH].
  - left. split; [done|]. by exists [].
  - simpl. destruct (parse_float s) as [x|] eqn:Hs.
    + destruct IH as [(Hall & xs & -> & Hlen) | (Hex & ->)].
      * left. split; [by constructor|]. exists (x :: xs). simpl. by rewrite Hlen.
      * right. split; [by right | done].
    + right. split; [by left | done].
Qed.

Lemma mapM_rows_parsed_cases (rs : list (list string)) :
  (Forall (Forall (λ s, is_Some (parse_float s))) rs ∧
   ∃ xs, mapM (mapM parsed) rs = ok xs ∧
         Forall2 (λ r x, length x = length r) rs xs) ∨
  (Exists (Exists (λ s, parse_float s = None)) rs ∧
   mapM (mapM parsed) rs = raise ValueError).
Proof.
  induction rs as [|r rs IH].
  - left. split; [done|]. by exists [].
  - simpl. destruct (mapM_parsed_cases r) as [(Hr & x & -> & Hlen) | (Hr & ->)].
    + destruct IH as [(Hall & xs & -> & Hlens) | (Hex & ->)].
      * left. split; [by constructor|]. exists (x :: xs). split; [done|].
        by constructor.
      * right. split; [by right | done].
    + right. split; [by left | done].
Qed.

Lemma astype_float_cases (m : matrix string) :
  (Forall (Forall (λ s, is_Some (parse_float s))) (rows m) ∧
   ∃ X, astype_float parse_float m = ok X ∧
        shape0 X = shape0 m ∧ shape1 X = shape1 m ∧ (wf m → wf X)) ∨
  (Exists (Exists (λ s, parse_float s = None)) (rows m) ∧
   astype_float parse_float m = raise ValueError).
Proof.
  unfold astype_float.
  destruct (mapM_rows_parsed_cases (rows m)) as [(Hall & xs & -> & Hlens) | (Hex & ->)].
  - left. split; [done|]. eexists. split; [done|]. simpl.
    split; [done|]. split; [done|].
    intros [Hrows Hcols]. split; simpl.
    + by rewrite <- (Forall2_length _ _ _ Hlens).
    + clear Hrows Hall. revert Hcols.
      induction Hlens as [|r x rs xs Hx _ IH]; [done|].
      intros [Hr Hrs]%Forall_cons. constructor; [congruence | by apply IH].
  - right. done.
Qed.

Lemma wf_first_four_columns (m : matrix string) :
  wf m → wf (first_four_columns m).
Proof.
  intros [Hrows Hcols]. split; simpl.
  - by rewrite length_map.
  - apply Forall_forall. intros r (r' & -> & Hr')%list_elem_of_fmap.
    rewrite Forall_forall in Hcols. by rewrite length_take, (Hcols r' Hr').
Qed.

Lemma fifth_column_cases (m : matrix string) :
  wf m →
  ((4 < shape1 m)%nat ∧
   ∃ column, fifth_column m = ok column ∧
             Forall2 (λ r s, r !! 4%nat = Some s) (rows m) column) ∨
  ((shape1 m ≤ 4)%nat ∧ fifth_column m = raise IndexError).
Proof.
  intros [_ Hcols]. unfold fifth_column. case_bool_decide as Hwide.
  - left. split; [done|].
    induction Hcols as [|r rs Hr _ IH]; [by exists []|].
    destruct IH as (column & Hcolumn & Hall).
    destruct (lookup_lt_is_Some_2 r 4) as [s Hs]; [lia|].
    exists (s :: column). split; [|by constructor].
    simpl. rewrite Hs. simpl. by rewrite Hcolumn.
  - right. split; [lia | done].
Qed.

(** [PCA] on a well-formed array with columns returns or raises
    [LinAlgError]. *)
Lemma PCA_value_outcomes (d : matrix F) (k : option Z) :
  wf d → shape1 d ≠ 0%nat →
  (∃ X V E, PCA_value d k = ok (X, V, E)) ∨ PCA_value d k = raise LinAlgError.
Proof.
  intros Hwf HD.
  destruct (decide (shape1 d = 1%nat)) as [HD1|HD1].
  { right. by apply PCA_value_one_column. }
  destruct (cov_transposes d) eqn:HT; [|right; by apply PCA_value_not_transposed].
  destruct (eigh_solver (cov2d d)) as [[w v]|] eqn:Hs.
  - left. destruct (PCA_value_returns d k w v) as (X & V & E & -> & _);
      [done | done | lia | done |]. by exists X, V, E.
  - right. apply PCA_value_no_convergence; [done | lia | done].
Qed.
End load_iris_manual_facts.

Section load_iris_manual_claims.
Context `{Numpy} `{!NumpyContract}.
Variable parse_float : string → option F.

(** X20: on a table of at least two rows and five columns whose first
    four fields are numbers and whose fifth fields contain a hyphen, the
    manual branch of [load_iris] returns whenever the eigen-solver
    converges: a projected matrix with one row of three entries for each
    row of the table, one target for each row, and the targets and class
    names that the label loop computes from the fifth column. *)
Theorem load_iris_manual_returns (iris_data : matrix string) (X0 : matrix F) :
  wf iris_data →
  (5 ≤ shape1 iris_data)%nat →
  (2 ≤ shape0 iris_data)%nat →
  astype_float parse_float (first_four_columns iris_data) = ok X0 →
  Forall (λ r, ∀ s, r !! 4%nat = Some s → has_hyphen s = true) (rows iris_data) →
  is_Some (eigh_solver (cov2d (centered X0))) →
  ∃ X y labels column,
    load_iris_manual parse_float iris_data = ok (X, y, labels) ∧
    wf X ∧ shape0 X = shape0 iris_data ∧ shape1 X = 3%nat ∧
    length y = shape0 iris_data ∧
    Forall2 (λ r s, r !! 4%nat = Some s) (rows iris_data) column ∧
    load_iris column = ok (y, labels).
Proof.
  intros Hwf H5 H2 HX0 Hhyphen [[w v] Hsolver].
  destruct (astype_float_cases parse_float (first_four_columns iris_data))
    as [(_ & X0' & HX0' & HN & HD & HwfX0) | (_ & Hraise)];
    [|by rewrite Hraise in HX0].
  rewrite HX0 in HX0'. injection HX0' as <-.
  specialize (HwfX0 (wf_first_four_columns _ Hwf)).
  unfold first_four_columns in HN, HD. cbn [shape0 shape1] in HN, HD.
  rewrite Nat.min_l in HD by lia.
  destruct (fifth_column_cases iris_data Hwf) as [(_ & column & Hcolumn & Hcol) | [? _]];
    [|lia].
  assert (Forall (λ f, has_hyphen f = true) column) as Hall.
  { rewrite Forall_forall in Hhyphen. apply Forall_forall. intros s Hs.
    apply list_elem_of_lookup in Hs as [i Hi].
    destruct (Forall2_lookup_r _ _ _ _ _ Hcol Hi) as (r & Hr & Hrs).
    apply (Hhyphen r); [by eapply list_elem_of_lookup_2 | done]. }
  destruct (mapM_class_name_total column Hall) as [names Hnames].
  pose proof (load_iris_characterised column names Hnames) as Hload.
  destruct (PCA_value_returns (centered X0) (Some 3) w v)
    as (X & V & E & HPCA & _ & _ & (HX & HX0s & HX1) & _).
  { by apply wf_centered. }
  { apply cov_transposes_rows. simpl. lia. }
  { simpl. lia. }
  { done. }
  eexists X, _, _, column. split; [|split; [done|]].
  - unfold load_iris_manual. rewrite HX0. simpl. rewrite Hcolumn. simpl.
    rewrite Hload. simpl.
    rewrite (PCA_run _ 1%positive X0) by apply lookup_singleton_eq.
    cbn [snd]. by rewrite HPCA.
  - simpl in HX0s, HX1. rewrite HX0s, HX1, HD, HN.
    split; [done|]. split; [done|]. split; [|done].
    rewrite length_map, length_seq.
    apply mapM_ok_Forall2 in Hnames.
    rewrite <- (Forall2_length _ _ _ Hnames), <- (Forall2_length _ _ _ Hcol).
    by destruct Hwf.
Qed.

(** X21: what the manual branch of [load_iris] raises, and in which
    order it looks.  A field among the first four of any row that is not
    a number raises [ValueError], whatever else is wrong; with all of
    them numbers, a table of fewer than five columns, or a fifth field
    without a hyphen, raises [IndexError]; and no call raises anything
    but [ValueError], [IndexError] or the [LinAlgError] of [PCA]. *)
Theorem load_iris_manual_errors (iris_data : matrix string) :
  wf iris_data →
  (Exists (λ r, Exists (λ s, parse_float s = None) (take 4 r)) (rows iris_data) →
   load_iris_manual parse_float iris_data = raise ValueError) ∧
  (Forall (λ r, Forall (λ s, is_Some (parse_float s)) (take 4 r)) (rows iris_data) →
   (shape1 iris_data < 5)%nat ∨
   Exists (λ r, ∃ s, r !! 4%nat = Some s ∧ has_hyphen s = false) (rows iris_data) →
   load_iris_manual parse_float iris_data = raise IndexError) ∧
  (∀ e, load_iris_manual parse_float iris_data = raise e →
        e = ValueError ∨ e = IndexError ∨ e = LinAlgError).
Proof.
  intros Hwf.
  assert (∀ P : list string → Prop,
            Exists P (rows (first_four_columns iris_data))
            ↔ Exists (λ r, P (take 4 r)) (rows iris_data)) as Hex4.
  { intros P. simpl. induction (rows iris_data) as [|r rs IH]; simpl.
    - split; by inversion 1.
    - by rewrite !Exists_cons, IH. }
  assert (∀ column,
            Forall2 (λ r s, r !! 4%nat = Some s) (rows iris_data) column →
            Exists (λ r, ∃ s, r !! 4%nat = Some s ∧ has_hyphen s = false)
                   (rows iris_data) →
            Exists (λ f, has_hyphen f = false) column) as Hcolex.
  { intros column. generalize (rows iris_data). intros rs0 Hcol.
    induction Hcol as [|r s rs column Hrs _ IH].
    - by inversion 1.
    - intros [(s' & Hs' & Hno) | Hrest]%Exists_cons.
      + left. congruence.
      + right. by apply IH. }
  unfold load_iris_manual.
  destruct (astype_float_cases parse_float (first_four_columns iris_data))
    as [(Hall & X0 & -> & HN & HD & HwfX0) | (Hex & ->)].
  2:{ split; [done|]. split; [|by intros e [= <-]; left].
      intros Hparse _. exfalso. apply Hex4 in Hex.
      apply Exists_exists in Hex as (r & Hr & Hbad).
      rewrite Forall_forall in Hparse. specialize (Hparse r Hr).
      apply Exists_exists in Hbad as (s & Hs & Hnone).
      rewrite Forall_forall in Hparse. destruct (Hparse s Hs) as [x Hx].
      congruence. }
  simpl.
  split.
  { intros Hbad. exfalso. apply Hex4 in Hbad.
    apply Exists_exists in Hbad as (r & Hr & Hbad).
    rewrite Forall_forall in Hall. specialize (Hall r Hr).
    apply Exists_exists in Hbad as (s & Hs & Hnone).
    rewrite Forall_forall in Hall. destruct (Hall s Hs) as [x Hx]. congruence. }
  destruct (fifth_column_cases iris_data Hwf) as [(H5 & column & -> & Hcol) | [H4 ->]].
  2:{ split; [done|]. by intros e [= <-]; right; left. }
  simpl.
  destruct (decide (Forall (λ f, has_hyphen f = true) column)) as [Hhyphen|Hhyphen].
  - destruct (mapM_class_name_total column Hhyphen) as [names Hnames].
    rewrite (load_iris_characterised column names Hnames). simpl.
    split.
    { intros _ [?|Hno]; [lia|]. exfalso.
      apply (Hcolex column Hcol) in Hno.
      apply Exists_exists in Hno as (f & Hf & Hfalse).
      rewrite Forall_forall in Hhyphen. specialize (Hhyphen f Hf). congruence. }
    rewrite (PCA_run _ 1%positive X0) by apply lookup_singleton_eq. cbn [snd].
    specialize (HwfX0 (wf_first_four_columns _ Hwf)).
    destruct (PCA_value_outcomes (centered X0) (Some 3)) as [(X & V & E & ->) | ->].
    + by apply wf_centered.
    + change (shape1 (centered X0)) with (shape1 X0). rewrite HD.
      unfold first_four_columns. cbn [shape1]. lia.
    + by intros e.
    + by intros e [= <-]; right; right.
  - apply not_Forall_Exists in Hhyphen; [|intros f; apply _].
    assert (Exists (λ f, has_hyphen f = false) column) as Hno.
    { eapply Exists_impl; [exact Hhyphen|]. intros f Hf. simpl in Hf.
      by destruct (has_hyphen f). }
    unfold load_iris. rewrite (for_each_load_iris_step_raises column _ Hno).
    split; [done|]. by intros e [= <-]; right; left.
Qed.
End load_iris_manual_claims.

Lemma wf_four_flowers : wf four_flowers.
Proof. split; [reflexivity | repeat constructor]. Defined.

Lemma wf_four_flowers_misprint : wf four_flowers_misprint.
Proof. split; [reflexivity | repeat constructor]. Defined.

Lemma load_iris_manual_returns_witness :
  ∃ X y labels column,
    load_iris_manual parse_small four_flowers = ok (X, y, labels) ∧
    wf X ∧ shape0 X = shape0 four_flowers ∧ shape1 X = 3%nat ∧
    length y = shape0 four_flowers ∧
    Forall2 (λ r s, r !! 4%nat = Some s) (rows four_flowers) column ∧
    load_iris column = ok (y, labels).
Proof.
  apply (load_iris_manual_returns parse_small four_flowers four_flowers_measurements).
  - exact wf_four_flowers.
  - simpl; lia.
  - simpl; lia.
  - reflexivity.
  - repeat constructor; intros s [= <-]; reflexivity.
  - eexists. vm_compute. reflexivity.
Defined.

Lemma load_iris_manual_errors_witness :
  load_iris_manual parse_small four_flowers_misprint = raise ValueError.
Proof.
  apply (load_iris_manual_errors parse_small four_flowers_misprint
           wf_four_flowers_misprint).
  apply Exists_exists. exists ["0"; "1"; "0"; "?"; "Iris-versicolor"]%string.
  split.
  - apply list_elem_of_lookup. exists 2%nat. reflexivity.
  - apply Exists_exists. exists "?"%string. split.
    + apply list_elem_of_lookup. exists 3%nat. reflexivity.
    + reflexivity.
Defined.

(** ** From the data file to the scene *)

Section scene_from_load_iris.
Context `{Numpy} `{!NumpyContract} `{PySet} `{!PySetContract}.
Variable parse_float : string → option F.
Variable pi : F.

(** What a returning call of the manual branch has computed. *)
Lemma load_iris_manual_ok_inv (iris_data : matrix string) (X : matrix F)
    (y : list Z) (labels : list string) :
  wf iris_data →
  load_iris_manual parse_float iris_data = ok (X, y, labels) →
  ∃ column,
    load_iris column = ok (y, labels) ∧
    length column = shape0 iris_data ∧
    wf X ∧ shape0 X = shape0 iris_data ∧ shape1 X = 3%nat.
Proof.
  intros Hwf Hok. unfold load_iris_manual in Hok.
  destruct (astype_float_cases parse_float (first_four_columns iris_data))
    as [(_ & X0 & HX0 & HN & HD & HwfX0) | (_ & Hraise)];
    rewrite ?HX0, ?Hraise in Hok; [|done].
  simpl in Hok.
  destruct (fifth_column_cases iris_data Hwf)
    as [(H5 & column & Hcolumn & Hcol) | [H4 Hraise]];
    rewrite ?Hcolumn, ?Hraise in Hok; [|done].
  simpl in Hok.
  destruct (load_iris column) as [e|[ys ls]] eqn:Hload; [done|].
  simpl in Hok.
  rewrite (PCA_run _ 1%positive X0) in Hok by apply lookup_singleton_eq.
  cbn [snd] in Hok.
  destruct (PCA_value (centered X0) (Some 3)) as [e|[[X' V] E]] eqn:HPCA; [done|].
  simpl in Hok. injection Hok as <- <- <-.
  specialize (HwfX0 (wf_first_four_columns _ Hwf)).
  unfold first_four_columns in HN, HD. cbn [shape0 shape1] in HN, HD.
  rewrite Nat.min_l in HD by lia.
  destruct (PCA_value_ok_inv (centered X0) (Some 3) X' V E HPCA) as (HT & _ & Hs).
  destruct Hs as (w & v & Hs); [simpl; lia|].
  destruct (PCA_value_returns (centered X0) (Some 3) w v)
    as (X'' & V'' & E'' & HPCA' & _ & _ & (HX & HX0s & HX1) & _);
    [by apply wf_centered | done | simpl; lia | done |].
  rewrite HPCA in HPCA'. injection HPCA' as <- <- <-.
  simpl in HX0s, HX1. rewrite HD in HX1.
  exists column. split; [done|]. split.
  { rewrite <- (Forall2_length _ _ _ Hcol). by destruct Hwf. }
  split; [done|]. split; [congruence | done].
Qed.

(** With labels exactly 0 .. m-1, [create_scatter] returns the objects of
    the first six labels. *)
Lemma create_scatter_exact_labels (X : list (list F)) (y : list Z) (size : F)
    (w : world) (m : nat) :
  Forall (λ x, length x = 3%nat ∨ length x = 4%nat) X →
  (∀ v, v ∈ y ↔ 0 ≤ v < Z.of_nat m) →
  ∃ w',
    create_scatter X y size w = (w', ok (scatter_object <$> take 6 (set_iter y))) ∧
    length (take 6 (set_iter y)) = Nat.min 6 m ∧
    objects w' = objects w ++ (scatter_object <$> take 6 (set_iter y)).
Proof.
  intros HX Hy.
  destruct (set_iter_range y m Hy) as [Hlen Hrange].
  unfold create_scatter.
  unfold mbind at 1, stateful_bind at 1, modify.
  set (w0 := set_bm_list _ w).
  assert (length (bm_list w0) = m) as Hlen0.
  { unfold w0. simpl. by rewrite length_map. }
  destruct (for_each_add_point size (zip X y) w0)
    as (w1 & Hloop1 & Hlen1 & Hpend1 & Hm1 & Ho1 & Hmat1 & Hc1).
  { apply Forall_forall. intros [x l] Hp. rewrite Hlen0. simpl. split.
    - rewrite Forall_forall in HX. by apply HX, (elem_of_zip_l x l X y).
    - by apply Hy, (elem_of_zip_r x l X y). }
  { apply fresh_bm_list_pending. }
  rewrite Hlen0 in Hlen1.
  unfold mbind at 1, stateful_bind at 1. rewrite Hloop1.
  pose proof (fst_zip_colors_take (set_iter y)) as Hfst.
  destruct (add_objects_ok (zip (set_iter y) colors) w1)
    as (w' & Hloop2 & _ & Hobjs & _).
  { rewrite Hfst.
    pose proof (set_iter_NoDup y) as Hnd.
    rewrite <- (take_drop 6 (set_iter y)) in Hnd.
    by apply NoDup_app in Hnd as (? & _). }
  { rewrite Hfst, Hlen1. by apply Forall_take. }
  { intros l bm _ Hbm. rewrite Forall_forall in Hpend1.
    by apply (Hpend1 bm), (list_elem_of_lookup_2 _ (Z.to_nat l)). }
  rewrite Hfst in Hloop2, Hobjs.
  exists w'. split; [done|]. split; [by rewrite length_take, Hlen|].
  unfold w0 in Ho1. simpl in Ho1. by rewrite Hobjs, Ho1.
Qed.

(** X22: whatever the manual branch of [load_iris] returns for a table
    fits the two functions that the script hands it to.
    [create_scatter(X, y)] raises nothing and returns one object for each
    of the first six classes; [create_labels(X, y, labels, camera)]
    raises nothing and returns one text object for every class. *)
Theorem load_iris_manual_feeds_scene (iris_data : matrix string) (X : matrix F)
    (y : list Z) (labels : list string) (size : F) (camera : option string)
    (w : world) (lw : label_world) :
  wf iris_data →
  load_iris_manual parse_float iris_data = ok (X, y, labels) →
  (∃ w' objs,
     create_scatter (rows X) y size w = (w', ok objs) ∧
     objects w' = objects w ++ objs ∧
     length objs = Nat.min 6 (length labels)) ∧
  (∃ lw' texts',
     create_labels pi (rows X) y labels camera lw = (lw', inr texts') ∧
     texts lw' = texts lw ++ texts' ∧
     length texts' = length labels).
Proof.
  intros Hwf Hok.
  destruct (load_iris_manual_ok_inv iris_data X y labels Hwf Hok)
    as (column & Hload & Hcolumn & [HXrows HXcols] & HX0 & HX1).
  apply load_iris_ok_names in Hload as (names & Hnames & -> & -> & Hlen).
  set (ys := map (rank_so_far [] names) (seq 0 (length names))).
  set (ls := first_seen names).
  assert (∀ v, v ∈ ys ↔ 0 ≤ v < Z.of_nat (length ls)) as Hy.
  { intros v. apply load_iris_target_values. }
  assert (Forall (λ x, length x = 3%nat) (rows X)) as H3.
  { by rewrite <- HX1. }
  destruct (set_iter_range ys (length ls) Hy) as [Hsetlen Hrange].
  split.
  - destruct (create_scatter_exact_labels (rows X) ys size w (length ls))
      as (w' & Hrun & Hcount & Hobjs).
    { eapply Forall_impl; [exact H3|]. intros x ?. by left. }
    { done. }
    exists w', (scatter_object <$> take 6 (set_iter ys)).
    split; [done|]. split; [done|]. by rewrite length_fmap.
  - destruct (Forall2_py_getitem_total ls (set_iter ys)) as [bodies Hbodies].
    { eapply Forall_impl; [exact Hrange|]. unfold valid_index. intros l ?.
      simpl in *. lia. }
    eexists _, _. split; [|split].
    + apply create_labels_loop_ok; [done | | | exact Hbodies].
      * rewrite HXrows, HX0, <- Hcolumn, <- Hlen.
        unfold ys. by rewrite length_map, length_seq.
      * apply Forall_forall. intros l. apply set_iter_elem.
    + done.
    + rewrite length_zip_with, <- (Forall2_length _ _ _ Hbodies), Hsetlen. lia.
Qed.
End scene_from_load_iris.

Lemma load_iris_manual_feeds_scene_witness :
  (∃ w' objs,
     create_scatter (rows four_flowers_loaded.1.1) four_flowers_loaded.1.2
                    (1 # 4)%Q empty_world = (w', ok objs) ∧
     objects w' = objects empty_world ++ objs ∧
     length objs = Nat.min 6 (length four_flowers_loaded.2)) ∧
  (∃ lw' texts',
     create_labels (22 # 7)%Q (rows four_flowers_loaded.1.1) four_flowers_loaded.1.2
                   four_flowers_loaded.2 (Some "Camera"%string)
                   (LabelWorld [] [] []) = (lw', inr texts') ∧
     texts lw' = [] ++ texts' ∧
     length texts' = length four_flowers_loaded.2).
Proof.
  apply (load_iris_manual_feeds_scene parse_small (22 # 7)%Q four_flowers
           four_flowers_loaded.1.1 four_flowers_loaded.1.2 four_flowers_loaded.2).
  - exact wf_four_flowers.
  - vm_compute. reflexivity.
Defined.
